(** * GApplication over D-Bus and bus-name watching

    A shallow embedding of [gio/gapplicationimpl-dbus.c] and
    [gio/gdbusnamewatching.c], and the properties of the design document
    that are settled on it.

    Conventions.  A [guint] is a [Z] in [0, 2^32) with its wrap-around written
    out where the code increments one.  A pointer that may be [NULL] is an
    [option].  The message bus, GObject and the main loop are collaborators:
    what they answer is an input of the functions below, and what the code
    asks of them is recorded in a trace. *)

From Stdlib Require Import ZArith String Ascii List Bool Lia.
From stdpp Require Import base option list strings gmap.

Open Scope Z_scope.

(** ** gio/gapplicationimpl-dbus.c *)
Module ApplicationImpl.

(** *** C strings *)

Definition NUL : ascii := Ascii.zero.

(** The string a [gchar *] denotes: the bytes before the first NUL. *)
Fixpoint c_str (mem : list ascii) : list ascii :=
  match mem with
  | [] => []
  | c :: rest => if Ascii.eqb c NUL then [] else c :: c_str rest
  end.

(** [g_strconcat (a, b, NULL)]: a fresh NUL-terminated buffer. *)
Definition g_strconcat (a b : list ascii) : list ascii :=
  c_str a ++ c_str b ++ [NUL].

(** The loop [for (iter = appid_path; *iter; iter++)] of
    [application_path_from_appid], on the buffer it mutates; [iter] is the
    offset of the pointer.  It stops at the terminator, so [fuel] (the size
    of the buffer) is never exhausted first. *)
Fixpoint path_loop (fuel : nat) (buf : list ascii) (iter : nat) : list ascii :=
  match fuel with
  | O => buf
  | S fuel' =>
      match buf !! iter with
      | None => buf
      | Some c =>
          if Ascii.eqb c NUL then buf
          else
            let buf' := if Ascii.eqb c "." then <[iter := "/"%char]> buf else buf in
            path_loop fuel' buf' (S iter)
      end
  end.

Definition application_path_from_appid (appid : list ascii) : list ascii :=
  let appid_path := g_strconcat ["/"%char] appid in
  c_str (path_loop (length appid_path) appid_path 0).

(** What the design document says the derivation is. *)
Definition dot_to_slash (c : ascii) : ascii :=
  if Ascii.eqb c "." then "/"%char else c.

Definition spec_path (s : list ascii) : list ascii :=
  "/"%char :: map dot_to_slash s.

(** *** The bus client facade *)

Definition GDBusConnection := nat.

Inductive GError :=
| BusError (message : string)            (* an error the facade reports *)
| G_DBUS_ERROR_FAILED (message : string). (* G_DBUS_ERROR, G_DBUS_ERROR_FAILED *)

Inductive Reply (A : Type) :=
| Ok (a : A)
| Failed (e : GError).
Arguments Ok {A} a.
Arguments Failed {A} e.

(** The platform data dictionary [a{sv}] is carried end to end, never read. *)
Definition PlatformData := list (string * string).

Inductive ReplyValue :=
| EmptyReply               (* [g_dbus_method_invocation_return_value (inv, NULL)] *)
| ExitStatus (status : Z). (* [g_variant_new ("(i)", status)] *)

(** What the code asks of the bus, oldest first. *)
Inductive BusOp :=
| OpBusGetSync
| OpRegisterObject (conn : GDBusConnection) (path : string) (interface : string)
| OpUnregisterObject (conn : GDBusConnection) (object_id : Z)
| OpConnectionUnref (conn : GDBusConnection)
| OpRequestName (conn : GDBusConnection) (name : string) (flags : Z)
| OpCall (conn : GDBusConnection) (dest path interface method : string) (body : list string)
| OpInvocationRef (invocation : nat)
| OpReturnValue (invocation : nat) (value : ReplyValue)
| OpInvocationUnref (invocation : nat).

(** *** Registration *)

Record GApplicationImpl := {
  session_bus : option GDBusConnection;
  bus_name : string;
  object_path : option string;
  object_id : Z;
  app : nat
}.

(** What the session bus answers to the three requests of a registration. *)
Record SessionBus := {
  bus_get_sync : Reply GDBusConnection;
  register_object : Reply Z;
  request_name : Reply Z
}.

Record Registration := {
  reg_impl : option GApplicationImpl;   (* the return value *)
  reg_is_remote : bool;                 (* [*is_remote] on return *)
  reg_error : option GError;            (* [*error] on return *)
  reg_ops : list BusOp
}.

Definition path_of_appid (appid : string) : string :=
  string_of_list_ascii (application_path_from_appid (list_ascii_of_string appid)).

Definition has_flag (flags flag : Z) : bool := negb (Z.land flags flag =? 0).

Section Register.
(** [GApplicationFlags] bits, declared in gioenums.h. *)
Variables G_APPLICATION_IS_SERVICE G_APPLICATION_IS_LAUNCHER : Z.

Definition g_application_impl_register
    (bus : SessionBus) (application : nat) (appid : string) (flags : Z)
    (is_remote : bool) : Registration :=
  match bus_get_sync bus with
  | Failed e =>
      {| reg_impl := None; reg_is_remote := is_remote; reg_error := Some e;
         reg_ops := [OpBusGetSync] |}
  | Ok conn =>
      let path := path_of_appid appid in
      if has_flag flags G_APPLICATION_IS_LAUNCHER then
        {| reg_impl := Some {| session_bus := Some conn; bus_name := appid;
                               object_path := Some path; object_id := 0;
                               app := application |};
           reg_is_remote := true; reg_error := None;
           reg_ops := [OpBusGetSync] |}
      else
        let ops1 := [OpBusGetSync; OpRegisterObject conn path "org.gtk.Application"] in
        let oid := match register_object bus with Ok i => i | Failed _ => 0 end in
        if oid =? 0 then
          {| reg_impl := None; reg_is_remote := is_remote;
             reg_error := match register_object bus with Failed e => Some e | Ok _ => None end;
             reg_ops := ops1 ++ [OpConnectionUnref conn] |}
        else
          (* DBUS_NAME_FLAG_DO_NOT_QUEUE: 0x4 *)
          let ops2 := ops1 ++ [OpRequestName conn appid 4] in
          match request_name bus with
          | Failed e =>
              {| reg_impl := None; reg_is_remote := is_remote; reg_error := Some e;
                 reg_ops := ops2 ++ [OpUnregisterObject conn oid; OpConnectionUnref conn] |}
          | Ok rval =>
              (* DBUS_REQUEST_NAME_REPLY_EXISTS: 3 *)
              if rval =? 3 then
                let ops3 := ops2 ++ [OpUnregisterObject conn oid] in
                if has_flag flags G_APPLICATION_IS_SERVICE then
                  {| reg_impl := None; reg_is_remote := true;
                     reg_error := Some (G_DBUS_ERROR_FAILED
                                          ("Unable to acquire bus name `" +:+ appid +:+ "'"));
                     reg_ops := ops3 ++ [OpConnectionUnref conn] |}
                else
                  {| reg_impl := Some {| session_bus := Some conn; bus_name := appid;
                                         object_path := Some path; object_id := 0;
                                         app := application |};
                     reg_is_remote := true; reg_error := None; reg_ops := ops3 |}
              else
                {| reg_impl := Some {| session_bus := Some conn; bus_name := appid;
                                       object_path := Some path; object_id := oid;
                                       app := application |};
                   reg_is_remote := false; reg_error := None; reg_ops := ops2 |}
          end
  end.
End Register.

(** *** The application interface dispatcher (primary side) *)

Inductive Parameters :=
| ActivateArgs (platform_data : PlatformData)                 (* (a{sv}) *)
| OpenArgs (uris : list string) (hint : string) (platform_data : PlatformData) (* (assa{sv}) *)
| CommandLineArgs (path : string) (arguments : list string) (platform_data : PlatformData).
                                                               (* (oaaya{sv}) *)

Record GDBusMethodInvocation := {
  inv_id : nat;
  inv_connection : GDBusConnection;
  inv_sender : string;
  inv_parameters : Parameters
}.

(** [GDBusCommandLine]: the parent instance (reference count, arguments,
    platform data, exit status) followed by the fields of the subclass. *)
Record GDBusCommandLine := {
  ref_count : Z;
  arguments : list string;
  platform_data : PlatformData;
  exit_status : Z;
  invocation : GDBusMethodInvocation;
  connection : GDBusConnection;
  cmdline_bus_name : string;
  cmdline_object_path : string
}.

(** A channel in memory: the object, whether it has been finalized, and what
    it has asked of the bus so far. *)
Record Channel := {
  chan : GDBusCommandLine;
  finalized : bool;
  chan_ops : list BusOp
}.

Definition with_ref_count (n : Z) (c : GDBusCommandLine) : GDBusCommandLine :=
  {| ref_count := n; arguments := arguments c; platform_data := platform_data c;
     exit_status := exit_status c; invocation := invocation c;
     connection := connection c; cmdline_bus_name := cmdline_bus_name c;
     cmdline_object_path := cmdline_object_path c |}.

(** Modelled from the spec: the accessors of the parent class
    (gapplicationcommandline.c), an integer exit status that is initially 0,
    set by [g_application_command_line_set_exit_status] and read back by
    [g_application_command_line_get_exit_status]. *)
Definition g_application_command_line_set_exit_status
    (c : GDBusCommandLine) (status : Z) : GDBusCommandLine :=
  {| ref_count := ref_count c; arguments := arguments c; platform_data := platform_data c;
     exit_status := status; invocation := invocation c;
     connection := connection c; cmdline_bus_name := cmdline_bus_name c;
     cmdline_object_path := cmdline_object_path c |}.

Definition g_application_command_line_get_exit_status (c : GDBusCommandLine) : Z :=
  exit_status c.

Definition g_dbus_command_line_new (inv : GDBusMethodInvocation) : option Channel :=
  match inv_parameters inv with
  | CommandLineArgs path args pd =>
      Some {| chan := {| ref_count := 1; arguments := args; platform_data := pd;
                         exit_status := 0; invocation := inv;
                         connection := inv_connection inv;
                         cmdline_bus_name := inv_sender inv;
                         cmdline_object_path := path |};
              finalized := false;
              chan_ops := [OpInvocationRef (inv_id inv)] |}
  | _ => None
  end.

Definition g_dbus_command_line_finalize (ch : Channel) : Channel :=
  let status := g_application_command_line_get_exit_status (chan ch) in
  {| chan := chan ch; finalized := true;
     chan_ops := chan_ops ch ++
       [OpReturnValue (inv_id (invocation (chan ch))) (ExitStatus status);
        OpInvocationUnref (inv_id (invocation (chan ch)))] |}.

Definition g_dbus_command_line_print_literal (ch : Channel) (message : string) : Channel :=
  {| chan := chan ch; finalized := finalized ch;
     chan_ops := chan_ops ch ++
       [OpCall (connection (chan ch)) (cmdline_bus_name (chan ch))
               (cmdline_object_path (chan ch))
               "org.gtk.private.CommandLine" "Print" [message]] |}.

Definition g_dbus_command_line_printerr_literal (ch : Channel) (message : string) : Channel :=
  {| chan := chan ch; finalized := finalized ch;
     chan_ops := chan_ops ch ++
       [OpCall (connection (chan ch)) (cmdline_bus_name (chan ch))
               (cmdline_object_path (chan ch))
               "org.gtk.private.CommandLine" "PrintError" [message]] |}.

(** Modelled from the spec: the reference counting of the object runtime
    (gobject.c), under which a channel is destroyed when its last reference
    is released: the last [g_object_unref] runs the class's [finalize].  A
    finalized object is gone; using it is undefined in C and leaves the
    channel as it is here. *)
Definition g_object_ref (ch : Channel) : Channel :=
  if finalized ch then ch
  else {| chan := with_ref_count (ref_count (chan ch) + 1) (chan ch);
          finalized := false; chan_ops := chan_ops ch |}.

Definition g_object_unref (ch : Channel) : Channel :=
  if finalized ch then ch
  else
    let ch' := {| chan := with_ref_count (ref_count (chan ch) - 1) (chan ch);
                  finalized := false; chan_ops := chan_ops ch |} in
    if ref_count (chan ch') =? 0 then g_dbus_command_line_finalize ch' else ch'.

Definition set_exit_status (ch : Channel) (status : Z) : Channel :=
  if finalized ch then ch
  else {| chan := g_application_command_line_set_exit_status (chan ch) status;
          finalized := false; chan_ops := chan_ops ch |}.

(** What the application may do with a channel it was handed. *)
Inductive AppAction :=
| AppRef
| AppUnref
| AppSetExitStatus (status : Z)
| AppPrint (message : string)
| AppPrintErr (message : string).

Definition app_action (ch : Channel) (a : AppAction) : Channel :=
  match a with
  | AppRef => g_object_ref ch
  | AppUnref => g_object_unref ch
  | AppSetExitStatus s => set_exit_status ch s
  | AppPrint m => if finalized ch then ch else g_dbus_command_line_print_literal ch m
  | AppPrintErr m => if finalized ch then ch else g_dbus_command_line_printerr_literal ch m
  end.

Definition app_actions (ch : Channel) (l : list AppAction) : Channel :=
  fold_left app_action l ch.

(** The hosting application: its handler of the [command-line] signal, given
    the channel, acts on it and returns a status. *)
Record Application := {
  command_line_handler : GDBusCommandLine -> list AppAction * Z
}.

(** Hooks and signals the dispatcher raises on the application, oldest first. *)
Inductive AppCall :=
| BeforeEmit (platform_data : PlatformData)
| SignalActivate
| SignalOpen (files : list string) (n : Z) (hint : string)
| SignalCommandLine (arguments : list string)
| AfterEmit (platform_data : PlatformData).

Record Dispatch := {
  app_calls : list AppCall;
  channel : option Channel
}.

(** [g_application_impl_method_call]; [None] when the call aborts
    ([g_assert_not_reached], or parameters that are not of the method's
    type). *)
Definition g_application_impl_method_call
    (application : Application) (method_name : string) (parameters : Parameters)
    (inv : GDBusMethodInvocation) : option Dispatch :=
  if String.eqb method_name "Activate" then
    match parameters with
    | ActivateArgs pd =>
        Some {| app_calls := [BeforeEmit pd; SignalActivate; AfterEmit pd];
                channel := None |}
    | _ => None
    end
  else if String.eqb method_name "Open" then
    match parameters with
    | OpenArgs uris hint pd =>
        let n := Z.of_nat (length uris) in
        let files := uris in   (* g_file_new_for_uri, one file per URI *)
        Some {| app_calls := [BeforeEmit pd; SignalOpen files n hint; AfterEmit pd];
                channel := None |}
    | _ => None
    end
  else if String.eqb method_name "CommandLine" then
    match g_dbus_command_line_new inv, parameters with
    | Some cmdline, CommandLineArgs _ _ pd =>
        let '(acts, status) := command_line_handler application (chan cmdline) in
        let cmdline := app_actions cmdline acts in
        let cmdline := set_exit_status cmdline status in
        let cmdline := g_object_unref cmdline in
        Some {| app_calls := [BeforeEmit pd; SignalCommandLine (arguments (chan cmdline));
                              AfterEmit pd];
                channel := Some cmdline |}
    | _, _ => None
    end
  else None.

Definition is_return_value (op : BusOp) : bool :=
  match op with OpReturnValue _ _ => true | _ => false end.

Definition is_invocation_unref (op : BusOp) : bool :=
  match op with OpInvocationUnref _ => true | _ => false end.

(** *** The remote command-line round trip *)

Record Stdio := {
  stdout : list string;
  stderr : list string
}.

(** What the private main loop dispatches while the caller is blocked. *)
Inductive LoopEvent :=
| IncomingCall (inv : nat) (method_name : string) (message : string)
| CallFinished (result : Reply Z).

Inductive Outcome :=
| Returned (status : Z) (io : Stdio) (ops : list BusOp)
| Aborted     (* a [g_assert] failed *)
| Blocked.    (* the loop is still waiting for the reply *)

Definition g_application_impl_cmdline_method_call
    (inv : nat) (method_name : string) (message : string)
    (io : Stdio) (ops : list BusOp) : option (Stdio * list BusOp) :=
  let reply := ops ++ [OpReturnValue inv EmptyReply] in
  if String.eqb method_name "Print" then
    Some ({| stdout := stdout io ++ [message]; stderr := stderr io |}, reply)
  else if String.eqb method_name "PrintError" then
    Some ({| stdout := stdout io; stderr := stderr io ++ [message] |}, reply)
  else None.

Definition error_message (e : GError) : string :=
  match e with BusError m => m | G_DBUS_ERROR_FAILED m => m end.

Definition newline : string := String (ascii_of_nat 10) EmptyString.

(** [g_application_impl_cmdline_done]: the status it stores in [data] and
    what it prints. *)
Definition g_application_impl_cmdline_done (result : Reply Z) (io : Stdio) : Z * Stdio :=
  match result with
  | Ok status => (status, io)
  | Failed error =>
      (1, {| stdout := stdout io;
             stderr := stderr io ++ [error_message error +:+ newline] |})
  end.

(** [g_main_loop_run (data.loop)]: dispatch until the reply callback quits
    the loop. *)
Fixpoint g_main_loop_run (events : list LoopEvent) (io : Stdio) (ops : list BusOp)
    : Outcome :=
  match events with
  | [] => Blocked
  | IncomingCall inv method_name message :: rest =>
      match g_application_impl_cmdline_method_call inv method_name message io ops with
      | Some (io', ops') => g_main_loop_run rest io' ops'
      | None => Aborted
      end
  | CallFinished result :: _ =>
      let '(status, io') := g_application_impl_cmdline_done result io in
      Returned status io' ops
  end.

(** [g_application_impl_command_line].  [object_id] is what the facade
    answers to [g_dbus_connection_register_object], [events] what the private
    loop then dispatches, [io] the two streams before the call. *)
Definition g_application_impl_command_line
    (impl : GApplicationImpl) (args : list string) (pd : PlatformData)
    (object_id : Z) (events : list LoopEvent) (io : Stdio) : Outcome :=
  let object_path := "/org/gtk/Application/CommandLine" in
  match session_bus impl, ApplicationImpl.object_path impl with
  | Some conn, Some impl_path =>
      let ops := [OpRegisterObject conn object_path "org.gtk.private.Cmdline"] in
      (* In theory we should try other paths... *)
      if object_id =? 0 then Aborted
      else
        let ops := ops ++ [OpCall conn (bus_name impl) impl_path
                                  "org.gtk.Application" "CommandLine"
                                  (object_path :: args)] in
        g_main_loop_run events io ops
  | _, _ => Aborted   (* the facade rejects a NULL connection: no object id *)
  end.

(** *** Destruction *)

(** [g_application_impl_destroy]: what it asks of the bus, or [None] when
    one of its assertions fails. *)
Definition g_application_impl_destroy (impl : GApplicationImpl) : option (list BusOp) :=
  match session_bus impl with
  | Some conn =>
      Some ((if object_id impl =? 0 then []
             else [OpUnregisterObject conn (object_id impl)])
            ++ [OpConnectionUnref conn])
  | None =>
      match ApplicationImpl.object_path impl with
      | Some _ => None                               (* g_assert (impl->object_path == NULL) *)
      | None => if object_id impl =? 0 then Some [] else None
                                                     (* g_assert (impl->object_id == 0) *)
      end
  end.

(** *** Requests of a remote instance *)

(** A [g_dbus_connection_call] with its typed body; none of the three
    requests below waits for a reply here. *)
Record MethodCall := {
  mc_connection : GDBusConnection;
  mc_destination : string;
  mc_path : string;
  mc_interface : string;
  mc_method : string;
  mc_parameters : Parameters
}.

(** The facade rejects a [NULL] connection: no call is made. *)
Definition g_application_impl_activate (impl : GApplicationImpl) (pd : PlatformData)
    : option MethodCall :=
  match session_bus impl, ApplicationImpl.object_path impl with
  | Some conn, Some path =>
      Some {| mc_connection := conn; mc_destination := bus_name impl; mc_path := path;
              mc_interface := "org.gtk.Application"; mc_method := "Activate";
              mc_parameters := ActivateArgs pd |}
  | _, _ => None
  end.

(** The loop [for (i = 0; i < n_files; i++)] of [g_application_impl_open],
    which adds the URI of [files[i]] to the builder; a file is its URI, as in
    the dispatcher.  [None] when it reads past the array. *)
Fixpoint open_loop (count : nat) (i : nat) (files : list string) (builder : list string)
    : option (list string) :=
  match count with
  | O => Some builder
  | S count' =>
      match files !! i with
      | Some uri => open_loop count' (S i) files (builder ++ [uri])
      | None => None
      end
  end.

Definition g_application_impl_open (impl : GApplicationImpl) (files : list string)
    (n_files : Z) (hint : string) (pd : PlatformData) : option MethodCall :=
  match open_loop (Z.to_nat n_files) 0 files [] with
  | Some uris =>
      match session_bus impl, ApplicationImpl.object_path impl with
      | Some conn, Some path =>
          Some {| mc_connection := conn; mc_destination := bus_name impl; mc_path := path;
                  mc_interface := "org.gtk.Application"; mc_method := "Open";
                  mc_parameters := OpenArgs uris hint pd |}
      | _, _ => None
      end
  | None => None
  end.

(** *** The bus between a primary and a remote *)



(** *** Vocabulary of the further properties *)

Definition is_unregister (op : BusOp) : bool :=
  match op with OpUnregisterObject _ _ => true | _ => false end.

Definition is_connection_unref (op : BusOp) : bool :=
  match op with OpConnectionUnref _ => true | _ => false end.

(** What a registration and the destruction of what it returned ask of the
    bus, from first to last. *)
Definition lifetime_ops (r : Registration) : list BusOp :=
  reg_ops r ++
  match reg_impl r with
  | Some impl => default [] (g_application_impl_destroy impl)
  | None => []
  end.

(** An action that only prints. *)
Definition is_printing (a : AppAction) : bool :=
  match a with AppPrint _ | AppPrintErr _ => true | _ => false end.




(** The calls a channel makes for the prints among [l], and the incoming
    calls they become at the remote. *)
Fixpoint print_calls (c : GDBusCommandLine) (l : list AppAction) : list BusOp :=
  match l with
  | [] => []
  | AppPrint m :: rest =>
      OpCall (connection c) (cmdline_bus_name c) (cmdline_object_path c)
             "org.gtk.private.CommandLine" "Print" [m] :: print_calls c rest
  | AppPrintErr m :: rest =>
      OpCall (connection c) (cmdline_bus_name c) (cmdline_object_path c)
             "org.gtk.private.CommandLine" "PrintError" [m] :: print_calls c rest
  | _ :: rest => print_calls c rest
  end.


(** What an action does to the number of references to the channel. *)
Definition reference_change (a : AppAction) : Z :=
  match a with
  | AppRef => 1
  | AppUnref => -1
  | _ => 0
  end.

(** The number of references after [l], when there are [n] before. *)
Fixpoint references (n : Z) (l : list AppAction) : Z :=
  match l with
  | [] => n
  | a :: rest => references (n + reference_change a) rest
  end.

(** The channel is used only while a reference to it exists, as the object
    runtime demands: each action of [l] finds at least one, when there are
    [n] before [l]. *)
Fixpoint proper (n : Z) (l : list AppAction) : Prop :=
  match l with
  | [] => True
  | a :: rest => 0 < n /\ proper (n + reference_change a) rest
  end.

(** The exit status after [l], when it is [s] before. *)
Fixpoint status_after (s : Z) (l : list AppAction) : Z :=
  match l with
  | [] => s
  | AppSetExitStatus s' :: rest => status_after s' rest
  | _ :: rest => status_after s rest
  end.

(** The life of the channel of a CommandLine call: what the handler of the
    signal does with it, the two steps of the dispatcher (it stores the
    status the handler returned and drops its reference), and what the
    application does with it later. *)
Definition life (acts : list AppAction) (status : Z) (later : list AppAction)
    : list AppAction :=
  acts ++ [AppSetExitStatus status; AppUnref] ++ later.

(** The empty replies the remote gives to the calls it served. *)
Fixpoint empty_replies (events : list LoopEvent) : list BusOp :=
  match events with
  | [] => []
  | IncomingCall inv _ _ :: rest => OpReturnValue inv EmptyReply :: empty_replies rest
  | CallFinished _ :: rest => empty_replies rest
  end.

(** *** Vocabulary of the properties *)

(** A registration that reaches the name request: the bus was obtained, the
    flags do not ask for a launcher, and the dispatcher was published. *)
Definition requests_name (G_APPLICATION_IS_LAUNCHER : Z) (bus : SessionBus) (flags : Z)
    (conn : GDBusConnection) (oid rval : Z) : Prop :=
  bus_get_sync bus = Ok conn /\
  has_flag flags G_APPLICATION_IS_LAUNCHER = false /\
  register_object bus = Ok oid /\ oid <> 0 /\
  request_name bus = Ok rval.

(** A string proper: no NUL among its bytes. *)
Definition nul_free (s : list ascii) : Prop := Forall (fun c => c <> NUL) s.

(** An operation that neither replies to an invocation nor releases one. *)
Definition quiet (op : BusOp) : Prop :=
  is_return_value op = false /\ is_invocation_unref op = false.

(** The obligation of a channel bound to [inv]: nothing is replied while it
    lives, and once it is finalized its operations end with the one reply,
    carrying its exit status, and the release of the invocation. *)
Definition replies_once (inv : GDBusMethodInvocation) (ch : Channel) : Prop :=
  invocation (chan ch) = inv /\
  (finalized ch = false -> Forall quiet (chan_ops ch)) /\
  (finalized ch = true ->
     exists before,
       chan_ops ch = before ++ [OpReturnValue (inv_id inv) (ExitStatus (exit_status (chan ch)));
                                OpInvocationUnref (inv_id inv)] /\
       Forall quiet before).

(** A call of one of the two methods the remote serves. *)
Definition is_print (e : LoopEvent) : Prop :=
  match e with
  | IncomingCall _ m _ => m = "Print"%string \/ m = "PrintError"%string
  | CallFinished _ => False
  end.

(** What a run of Print and PrintError calls writes to each stream. *)
Fixpoint printed (method_name : string) (events : list LoopEvent) : list string :=
  match events with
  | [] => []
  | IncomingCall _ m message :: rest =>
      if String.eqb m method_name then message :: printed method_name rest
      else printed method_name rest
  | CallFinished _ :: rest => printed method_name rest
  end.

(** *** Scenarios *)

(** The session bus of the examples: connection 5, the dispatcher published
    under id 7, and the given answer to RequestName. *)
Definition example_bus (rval : Z) : SessionBus :=
  {| bus_get_sync := Ok 5%nat; register_object := Ok 7; request_name := Ok rval |}.

(** The fourth scenario of the document: the handler prints twice, keeps no
    reference and returns 42. *)
Definition example_invocation : GDBusMethodInvocation :=
  {| inv_id := 9%nat; inv_connection := 5%nat; inv_sender := ":1.7";
     inv_parameters := CommandLineArgs "/org/gtk/Application/CommandLine"
                                       ["arg0"; "arg1"]%string [] |}.

Definition example_application : Application :=
  {| command_line_handler := fun _ => ([AppPrint "hello"; AppPrintErr "oops"], 42) |}.

(** An application whose handler keeps a reference to the channel, prints
    and returns 42. *)
Definition keeping_application : Application :=
  {| command_line_handler := fun _ => ([AppRef; AppPrint "hello"], 42) |}.

Definition example_impl : GApplicationImpl :=
  {| session_bus := Some 5%nat; bus_name := "org.example.App";
     object_path := Some "/org/example/App"%string; object_id := 0; app := 0%nat |}.

End ApplicationImpl.

(** ** gio/gdbusnamewatching.c

    One [Client] is followed through the callbacks that reach it.  Each
    callback runs to completion before the next one starts; the thread it
    runs on shows only in the thread default context that [do_call] compares
    with the client's.  The user's handlers are opaque: an invocation is
    recorded with its arguments, and what the handler does is not followed.
    The checks of [g_return_val_if_fail] and [g_return_if_fail] are compiled
    in. *)
Module NameWatching.

Inductive PreviousCall :=
| PREVIOUS_CALL_NONE
| PREVIOUS_CALL_APPEARED
| PREVIOUS_CALL_VANISHED.

Inductive CallType :=
| CALL_TYPE_NAME_APPEARED
| CALL_TYPE_NAME_VANISHED.

#[global] Instance PreviousCall_eq_dec : EqDecision PreviousCall.
Proof. solve_decision. Defined.

#[global] Instance CallType_eq_dec : EqDecision CallType.
Proof. solve_decision. Defined.

Definition GMainContext := nat.

(** The address of a user callback. *)
Definition Callback := nat.

(** A connection handle, with the two tokens the facade hands out when
    [has_connection] wires a watcher to it. *)
Record GDBusConnection := {
  conn_id : nat;
  closed_handler_id : Z;   (* [g_signal_connect (connection, "closed", ...)] *)
  subscription_id : Z      (* [g_dbus_connection_signal_subscribe (...)] *)
}.

#[global] Instance GDBusConnection_eq_dec : EqDecision GDBusConnection.
Proof. solve_decision. Defined.

Record Client := {
  ref_count : Z;
  id : Z;
  name : string;
  flags : Z;
  name_owner : option string;
  name_appeared_handler : option Callback;
  name_vanished_handler : option Callback;
  user_data : nat;
  user_data_free_func : option Callback;
  main_context : option GMainContext;
  connection : option GDBusConnection;
  disconnected_signal_handler_id : Z;
  name_owner_changed_subscription_id : Z;
  previous_call : PreviousCall;
  cancelled : bool;
  initialized : bool
}.

Record CallHandlerData := {
  data_connection : option GDBusConnection;
  data_name_owner : option string;
  call_type : CallType
}.

(** An invocation of one of the user's two handlers, with its arguments. *)
Inductive HandlerCall :=
| NameAppeared (handler : Callback) (conn : option GDBusConnection)
               (name : string) (name_owner : option string) (user_data : nat)
| NameVanished (handler : Callback) (conn : option GDBusConnection)
               (name : string) (user_data : nat).

#[global] Instance HandlerCall_eq_dec : EqDecision HandlerCall.
Proof. solve_decision. Defined.

Definition kind (c : HandlerCall) : CallType :=
  match c with
  | NameAppeared _ _ _ _ _ => CALL_TYPE_NAME_APPEARED
  | NameVanished _ _ _ _ => CALL_TYPE_NAME_VANISHED
  end.

(** Asynchronous operations whose completion callback holds the client. *)
Inductive AsyncCall :=
| CallBusGet
| CallStartServiceByName
| CallGetNameOwner.

#[global] Instance AsyncCall_eq_dec : EqDecision AsyncCall.
Proof. solve_decision. Defined.

(** Everything else a watcher asks of its collaborators, oldest first. *)
Inductive Effect :=
| SignalUnsubscribe (subscription : Z)
| SignalHandlerDisconnect (handler : Z)
| ConnectionUnref
| UserDataFree (free_func : Callback) (user_data : nat)
| WarnIfFail (expr : string)
| WarnUnexpectedReply (reply : Z).

(** A watcher: the [Client] structure and what exists around it. *)
Record Watcher := {
  client : Client;
  freed : bool;                            (* [g_free (client)] has run *)
  in_flight : list AsyncCall;
  idle_sources : list CallHandlerData;     (* attached to [main_context], first in first *)
  invoked : list HandlerCall;              (* handler invocations, oldest first *)
  effects : list Effect
}.

(** *** Field updates *)

Definition set_ref_count (v : Z) (c : Client) : Client :=
  Build_Client v (id c) (name c) (flags c) (name_owner c) (name_appeared_handler c)
    (name_vanished_handler c) (user_data c) (user_data_free_func c) (main_context c)
    (connection c) (disconnected_signal_handler_id c)
    (name_owner_changed_subscription_id c) (previous_call c) (cancelled c) (initialized c).

Definition set_name_owner (v : option string) (c : Client) : Client :=
  Build_Client (ref_count c) (id c) (name c) (flags c) v (name_appeared_handler c)
    (name_vanished_handler c) (user_data c) (user_data_free_func c) (main_context c)
    (connection c) (disconnected_signal_handler_id c)
    (name_owner_changed_subscription_id c) (previous_call c) (cancelled c) (initialized c).

Definition set_connection (v : option GDBusConnection) (c : Client) : Client :=
  Build_Client (ref_count c) (id c) (name c) (flags c) (name_owner c)
    (name_appeared_handler c) (name_vanished_handler c) (user_data c)
    (user_data_free_func c) (main_context c) v (disconnected_signal_handler_id c)
    (name_owner_changed_subscription_id c) (previous_call c) (cancelled c) (initialized c).

Definition set_signal_ids (closed subscription : Z) (c : Client) : Client :=
  Build_Client (ref_count c) (id c) (name c) (flags c) (name_owner c)
    (name_appeared_handler c) (name_vanished_handler c) (user_data c)
    (user_data_free_func c) (main_context c) (connection c) closed subscription
    (previous_call c) (cancelled c) (initialized c).

Definition set_previous_call (v : PreviousCall) (c : Client) : Client :=
  Build_Client (ref_count c) (id c) (name c) (flags c) (name_owner c)
    (name_appeared_handler c) (name_vanished_handler c) (user_data c)
    (user_data_free_func c) (main_context c) (connection c)
    (disconnected_signal_handler_id c) (name_owner_changed_subscription_id c)
    v (cancelled c) (initialized c).

Definition set_cancelled (v : bool) (c : Client) : Client :=
  Build_Client (ref_count c) (id c) (name c) (flags c) (name_owner c)
    (name_appeared_handler c) (name_vanished_handler c) (user_data c)
    (user_data_free_func c) (main_context c) (connection c)
    (disconnected_signal_handler_id c) (name_owner_changed_subscription_id c)
    (previous_call c) v (initialized c).

Definition set_initialized (v : bool) (c : Client) : Client :=
  Build_Client (ref_count c) (id c) (name c) (flags c) (name_owner c)
    (name_appeared_handler c) (name_vanished_handler c) (user_data c)
    (user_data_free_func c) (main_context c) (connection c)
    (disconnected_signal_handler_id c) (name_owner_changed_subscription_id c)
    (previous_call c) (cancelled c) v.

Definition on_client (f : Client -> Client) (w : Watcher) : Watcher :=
  Build_Watcher (f (client w)) (freed w) (in_flight w) (idle_sources w) (invoked w) (effects w).

Definition set_freed (v : bool) (w : Watcher) : Watcher :=
  Build_Watcher (client w) v (in_flight w) (idle_sources w) (invoked w) (effects w).

Definition set_in_flight (v : list AsyncCall) (w : Watcher) : Watcher :=
  Build_Watcher (client w) (freed w) v (idle_sources w) (invoked w) (effects w).

Definition set_idle_sources (v : list CallHandlerData) (w : Watcher) : Watcher :=
  Build_Watcher (client w) (freed w) (in_flight w) v (invoked w) (effects w).

Definition invoke (c : HandlerCall) (w : Watcher) : Watcher :=
  Build_Watcher (client w) (freed w) (in_flight w) (idle_sources w) (invoked w ++ [c]) (effects w).

Definition effect (e : list Effect) (w : Watcher) : Watcher :=
  Build_Watcher (client w) (freed w) (in_flight w) (idle_sources w) (invoked w) (effects w ++ e).

(** *** Reference counting *)

Definition client_ref (w : Watcher) : Watcher :=
  on_client (set_ref_count (ref_count (client w) + 1)) w.

(** What [client_unref] does when the count reaches zero. *)
Definition client_finalize (w : Watcher) : Watcher :=
  let c := client w in
  let w :=
    match connection c with
    | Some _ =>
        effect ((if 0 <? name_owner_changed_subscription_id c
                 then [SignalUnsubscribe (name_owner_changed_subscription_id c)] else []) ++
                (if 0 <? disconnected_signal_handler_id c
                 then [SignalHandlerDisconnect (disconnected_signal_handler_id c)] else []) ++
                [ConnectionUnref]) w
    | None => w
    end in
  let w :=
    match user_data_free_func c with
    | Some f => effect [UserDataFree f (user_data c)] w
    | None => w
    end in
  set_freed true w.

Definition client_unref (w : Watcher) : Watcher :=
  let w := on_client (set_ref_count (ref_count (client w) - 1)) w in
  if ref_count (client w) =? 0 then client_finalize w else w.

(** *** Delivery *)

(** A handler is user code; calling it is recorded in [invoked].  Here the
    handler returns without calling into the module; a handler that calls
    [g_bus_unwatch_name] is followed in [Reentrant] below. *)
Definition actually_do_call (w : Watcher) (conn : option GDBusConnection)
    (owner : option string) (call_type : CallType) : Watcher :=
  match call_type with
  | CALL_TYPE_NAME_APPEARED =>
      match name_appeared_handler (client w) with
      | Some h => invoke (NameAppeared h conn (name (client w)) owner (user_data (client w))) w
      | None => w
      end
  | CALL_TYPE_NAME_VANISHED =>
      match name_vanished_handler (client w) with
      | Some h => invoke (NameVanished h conn (name (client w)) (user_data (client w))) w
      | None => w
      end
  end.

Definition call_in_idle_cb (data : CallHandlerData) (w : Watcher) : Watcher :=
  actually_do_call w (data_connection data) (data_name_owner data) (call_type data).

Definition call_handler_data_free (data : CallHandlerData) (w : Watcher) : Watcher :=
  let w := match data_connection data with
           | Some _ => effect [ConnectionUnref] w
           | None => w
           end in
  client_unref w.

Definition schedule_call_in_idle (w : Watcher) (call_type : CallType) : Watcher :=
  let w := client_ref w in
  let data := {| data_connection := connection (client w);
                 data_name_owner := name_owner (client w);
                 call_type := call_type |} in
  set_idle_sources (idle_sources w ++ [data]) w.

(** [thread_default] is what [g_main_context_get_thread_default ()] returns
    in the thread that runs the caller. *)
Definition do_call (thread_default : option GMainContext) (w : Watcher)
    (call_type : CallType) : Watcher :=
  (* only schedule in idle if we're not in the right thread *)
  if bool_decide (thread_default <> main_context (client w))
  then schedule_call_in_idle w call_type
  else actually_do_call w (connection (client w)) (name_owner (client w)) call_type.

Definition call_appeared_handler (thread_default : option GMainContext)
    (w : Watcher) : Watcher :=
  if bool_decide (previous_call (client w) <> PREVIOUS_CALL_APPEARED) then
    let w := on_client (set_previous_call PREVIOUS_CALL_APPEARED) w in
    if negb (cancelled (client w)) && bool_decide (name_appeared_handler (client w) <> None)
    then do_call thread_default w CALL_TYPE_NAME_APPEARED
    else w
  else w.

Definition call_vanished_handler (thread_default : option GMainContext)
    (w : Watcher) (ignore_cancelled : bool) : Watcher :=
  if bool_decide (previous_call (client w) <> PREVIOUS_CALL_VANISHED) then
    let w := on_client (set_previous_call PREVIOUS_CALL_VANISHED) w in
    if (negb (cancelled (client w)) || ignore_cancelled)
       && bool_decide (name_vanished_handler (client w) <> None)
    then do_call thread_default w CALL_TYPE_NAME_VANISHED
    else w
  else w.

(** *** Callbacks of the connection *)

Definition on_connection_disconnected (thread_default : option GMainContext)
    (w : Watcher) : Watcher :=
  let c := client w in
  let w := effect ((if 0 <? name_owner_changed_subscription_id c
                    then [SignalUnsubscribe (name_owner_changed_subscription_id c)] else []) ++
                   (if 0 <? disconnected_signal_handler_id c
                    then [SignalHandlerDisconnect (disconnected_signal_handler_id c)] else []) ++
                   [ConnectionUnref]) w in
  let w := on_client (set_signal_ids 0 0) w in
  let w := on_client (set_connection None) w in
  call_vanished_handler thread_default w false.

(** [g_strcmp0 (a, b) != 0], where [a] may be [NULL]. *)
Definition g_strcmp0_differs (a : option string) (b : string) : bool :=
  match a with
  | Some a => negb (String.eqb a b)
  | None => true
  end.

Definition nonempty (s : string) : bool := negb (String.eqb s "").

Definition on_name_owner_changed (thread_default : option GMainContext)
    (sender_name object_path interface_name : option string)
    (name old_owner new_owner : string) (w : Watcher) : Watcher :=
  if negb (initialized (client w)) then w
  else if g_strcmp0_differs object_path "/org/freedesktop/DBus"
          || g_strcmp0_differs interface_name "org.freedesktop.DBus"
          || g_strcmp0_differs sender_name "org.freedesktop.DBus" then w
  (* we only care about a specific name *)
  else if negb (String.eqb name (NameWatching.name (client w))) then w
  else
    let w :=
      if nonempty old_owner && bool_decide (name_owner (client w) <> None) then
        let w := on_client (set_name_owner None) w in
        call_vanished_handler thread_default w false
      else w in
    if nonempty new_owner then
      let w := if bool_decide (name_owner (client w) = None) then w
               else effect [WarnIfFail "client->name_owner == NULL"] w in
      let w := on_client (set_name_owner (Some new_owner)) w in
      call_appeared_handler thread_default w
    else w.

(** [res] is what [g_dbus_connection_call_finish (client->connection, res,
    NULL)] returns: the owner in the reply, or [NULL] on an error. *)
Definition get_name_owner_cb (thread_default : option GMainContext)
    (res : option string) (w : Watcher) : Watcher :=
  let result := res in
  let w :=
    match result with
    | Some name_owner =>
        let w := if bool_decide (NameWatching.name_owner (client w) = None) then w
                 else effect [WarnIfFail "client->name_owner == NULL"] w in
        let w := on_client (set_name_owner (Some name_owner)) w in
        call_appeared_handler thread_default w
    | None => call_vanished_handler thread_default w false
    end in
  let w := on_client (set_initialized true) w in
  client_unref w.

(** [g_dbus_connection_call] is handed [client_ref (client)] as user data,
    which [get_name_owner_cb] releases when the call completes. *)
Definition invoke_get_name_owner (w : Watcher) : Watcher :=
  let w := client_ref w in
  set_in_flight (in_flight w ++ [CallGetNameOwner]) w.

(** [res] is what [g_dbus_connection_call_finish] returns: the code in the
    reply, or [NULL] on an error. *)
Definition start_service_by_name_cb (thread_default : option GMainContext)
    (res : option Z) (w : Watcher) : Watcher :=
  let result := res in
  let w :=
    match result with
    | Some start_service_result =>
        if start_service_result =? 1 then (* DBUS_START_REPLY_SUCCESS *)
          invoke_get_name_owner w
        else if start_service_result =? 2 then (* DBUS_START_REPLY_ALREADY_RUNNING *)
          invoke_get_name_owner w
        else
          let w := effect [WarnUnexpectedReply start_service_result] w in
          let w := call_vanished_handler thread_default w false in
          on_client (set_initialized true) w
    | None =>
        (* Errors are not unexpected: proceed to invoke GetNameOwner(). *)
        invoke_get_name_owner w
    end in
  client_unref w.

Section AutoStart.
(** A [GBusNameWatcherFlags] bit, declared in gioenums.h. *)
Variable G_BUS_NAME_WATCHER_FLAGS_AUTO_START : Z.

(** Both callers set [client->connection] first. *)
Definition has_connection (w : Watcher) : Watcher :=
  match connection (client w) with
  | None => w
  | Some conn =>
      (* listen for disconnection *)
      (* start listening to NameOwnerChanged messages immediately *)
      let w := on_client (set_signal_ids (closed_handler_id conn) (subscription_id conn)) w in
      if negb (Z.land (flags (client w)) G_BUS_NAME_WATCHER_FLAGS_AUTO_START =? 0) then
        let w := client_ref w in
        set_in_flight (in_flight w ++ [CallStartServiceByName]) w
      else
        (* check owner *)
        invoke_get_name_owner w
  end.

Definition connection_get_cb (thread_default : option GMainContext)
    (res : option GDBusConnection) (w : Watcher) : Watcher :=
  let w := on_client (set_connection res) w in
  let w :=
    match connection (client w) with
    | None => call_vanished_handler thread_default w false
    | Some _ => has_connection w
    end in
  client_unref w.

(** *** One watcher under the events that reach it *)

(** The part of [g_bus_unwatch_name] that acts on the client it found. *)
Definition unwatch_client (w : Watcher) : Watcher :=
  let w := on_client (set_cancelled true) w in
  client_unref w.

Definition dispatch_idle (w : Watcher) : Watcher :=
  match idle_sources w with
  | [] => w
  | data :: rest =>
      let w := set_idle_sources rest w in
      let w := call_in_idle_cb data w in
      call_handler_data_free data w
  end.

(** Every callback carries the thread default context of the thread that
    runs it. *)
Inductive Event :=
| BusGetFinished (thread_default : option GMainContext) (res : option GDBusConnection)
| StartServiceByNameFinished (thread_default : option GMainContext) (res : option Z)
| GetNameOwnerFinished (thread_default : option GMainContext) (res : option string)
| NameOwnerChanged (thread_default : option GMainContext)
                   (sender_name object_path interface_name : option string)
                   (name old_owner new_owner : string)
| ConnectionClosed (thread_default : option GMainContext)
| IdleDispatch
| Unwatch.

(** Remove one pending call of the given kind, if there is one. *)
Fixpoint complete (call : AsyncCall) (l : list AsyncCall) : option (list AsyncCall) :=
  match l with
  | [] => None
  | c :: rest =>
      if bool_decide (c = call) then Some rest
      else option_map (cons c) (complete call rest)
  end.

(** An event reaches the client only while the thing that raises it exists:
    a reply needs its call in flight, a signal its subscription, and the
    registry hands a client to [g_bus_unwatch_name] once. *)
Definition step (w : Watcher) (e : Event) : Watcher :=
  match e with
  | BusGetFinished thr res =>
      match complete CallBusGet (in_flight w) with
      | Some l => connection_get_cb thr res (set_in_flight l w)
      | None => w
      end
  | StartServiceByNameFinished thr res =>
      match complete CallStartServiceByName (in_flight w) with
      | Some l => start_service_by_name_cb thr res (set_in_flight l w)
      | None => w
      end
  | GetNameOwnerFinished thr res =>
      match complete CallGetNameOwner (in_flight w) with
      | Some l => get_name_owner_cb thr res (set_in_flight l w)
      | None => w
      end
  | NameOwnerChanged thr sender path iface n old new =>
      if negb (freed w) && (0 <? name_owner_changed_subscription_id (client w))
      then on_name_owner_changed thr sender path iface n old new w
      else w
  | ConnectionClosed thr =>
      if negb (freed w) && (0 <? disconnected_signal_handler_id (client w))
      then on_connection_disconnected thr w
      else w
  | IdleDispatch => dispatch_idle w
  | Unwatch =>
      if freed w || cancelled (client w) then w else unwatch_client w
  end.

Definition run (w : Watcher) (events : list Event) : Watcher :=
  fold_left step events w.

(** *** The registry *)

Inductive LogEntry :=
| Critical (check : string)       (* a failed [g_return_if_fail] *)
| WarnInvalidId (watcher_id : Z). (* "Invalid id %d passed to g_bus_unwatch_name()" *)

(** The two globals, the clients allocated so far (a [Client *] is an index
    into [heap]) and the log. *)
Record World := {
  next_global_id : Z;
  map_id_to_client : option (gmap Z nat);
  heap : list Watcher;
  log : list LogEntry
}.

Definition initial_world : World :=
  {| next_global_id := 1; map_id_to_client := None; heap := []; log := [] |}.

Definition guint_max : Z := 2 ^ 32.

(** The client both entry points build, before anything is started. *)
Definition new_client (thread_default : option GMainContext) (next_id : Z)
    (name : string) (flags : Z) (appeared vanished : option Callback)
    (user_data : nat) (free_func : option Callback) : Watcher :=
  {| client := {| ref_count := 1; id := next_id; name := name; flags := flags;
                  name_owner := None;
                  name_appeared_handler := appeared;
                  name_vanished_handler := vanished;
                  user_data := user_data; user_data_free_func := free_func;
                  main_context := thread_default;
                  connection := None;
                  disconnected_signal_handler_id := 0;
                  name_owner_changed_subscription_id := 0;
                  previous_call := PREVIOUS_CALL_NONE;
                  cancelled := false; initialized := false |};
     freed := false; in_flight := []; idle_sources := []; invoked := []; effects := [] |}.

(** The watcher [g_bus_watch_name] leaves behind: [g_bus_get] is in flight
    and holds a reference. *)
Definition watcher_on_bus (thread_default : option GMainContext) (next_id : Z)
    (name : string) (flags : Z) (appeared vanished : option Callback)
    (user_data : nat) (free_func : option Callback) : Watcher :=
  let w := new_client thread_default next_id name flags appeared vanished
                      user_data free_func in
  let w := client_ref w in
  set_in_flight (in_flight w ++ [CallBusGet]) w.

(** The watcher [g_bus_watch_name_on_connection] leaves behind. *)
Definition watcher_on_connection (thread_default : option GMainContext) (next_id : Z)
    (conn : GDBusConnection)
    (name : string) (flags : Z) (appeared vanished : option Callback)
    (user_data : nat) (free_func : option Callback) : Watcher :=
  let w := new_client thread_default next_id name flags appeared vanished
                      user_data free_func in
  let w := on_client (set_connection (Some conn)) w in
  has_connection w.

(** [g_hash_table_insert] into the table, created on first use. *)
Definition register_client (key : Z) (address : nat) (wd : World) (w : Watcher) : World :=
  {| next_global_id := (next_global_id wd + 1) `mod` guint_max;
     map_id_to_client := Some (<[key := address]> (default ∅ (map_id_to_client wd)));
     heap := heap wd ++ [w];
     log := log wd |}.

Definition add_log (e : LogEntry) (wd : World) : World :=
  {| next_global_id := next_global_id wd; map_id_to_client := map_id_to_client wd;
     heap := heap wd; log := log wd ++ [e] |}.

Section Names.
(** [g_dbus_is_name], of gdbusutils.c. *)
Variable g_dbus_is_name : string -> bool.

Definition g_bus_watch_name (thread_default : option GMainContext)
    (bus_type : Z) (name : string) (flags : Z)
    (name_appeared_handler name_vanished_handler : option Callback)
    (user_data : nat) (user_data_free_func : option Callback)
    (wd : World) : Z * World :=
  if negb (g_dbus_is_name name) then (0, add_log (Critical "g_dbus_is_name (name)") wd)
  else
    let w := watcher_on_bus thread_default (next_global_id wd) name flags
               name_appeared_handler name_vanished_handler
               user_data user_data_free_func in
    (id (client w), register_client (id (client w)) (length (heap wd)) wd w).

Definition g_bus_watch_name_on_connection (thread_default : option GMainContext)
    (connection : option GDBusConnection) (name : string) (flags : Z)
    (name_appeared_handler name_vanished_handler : option Callback)
    (user_data : nat) (user_data_free_func : option Callback)
    (wd : World) : Z * World :=
  match connection with
  | None => (0, add_log (Critical "G_IS_DBUS_CONNECTION (connection)") wd)
  | Some conn =>
      if negb (g_dbus_is_name name)
      then (0, add_log (Critical "g_dbus_is_name (name)") wd)
      else
        let w := watcher_on_connection thread_default (next_global_id wd) conn
                   name flags name_appeared_handler name_vanished_handler
                   user_data user_data_free_func in
        (id (client w), register_client (id (client w)) (length (heap wd)) wd w)
  end.
End Names.

Definition g_bus_unwatch_name (watcher_id : Z) (wd : World) : World :=
  if negb (0 <? watcher_id) then add_log (Critical "watcher_id > 0") wd
  else
    match map_id_to_client wd with
    | None => add_log (WarnInvalidId watcher_id) wd
    | Some table =>
        match table !! watcher_id with
        | None => add_log (WarnInvalidId watcher_id) wd
        | Some address =>
            {| next_global_id := next_global_id wd;
               map_id_to_client := Some (delete watcher_id table);
               heap := alter unwatch_client address (heap wd);
               log := log wd |}
        end
    end.

(** An event reaching the client at [address]. *)
Definition deliver (address : nat) (e : Event) (wd : World) : World :=
  {| next_global_id := next_global_id wd; map_id_to_client := map_id_to_client wd;
     heap := alter (fun w => step w e) address (heap wd); log := log wd |}.

(** *** Vocabulary of the properties *)

(** The callbacks delivered to a watcher, oldest first, and those still
    waiting in idle sources. *)
Definition delivered (w : Watcher) : list CallType := map kind (invoked w).

Definition queued (w : Watcher) : list CallType := map call_type (idle_sources w).

(** No two consecutive elements are of the same kind. *)
Fixpoint alternates (l : list CallType) : Prop :=
  match l with
  | a :: (b :: _) as rest => a <> b /\ alternates rest
  | _ => True
  end.

Definition both_handlers (w : Watcher) : Prop :=
  is_Some (name_appeared_handler (client w)) /\
  is_Some (name_vanished_handler (client w)).

(** The watcher a successful registration creates. *)
Inductive watched : Watcher -> Prop :=
| watched_on_bus thr next_id name flags appeared vanished user_data free_func :
    watched (watcher_on_bus thr next_id name flags appeared vanished user_data free_func)
| watched_on_connection thr next_id conn name flags appeared vanished user_data free_func :
    watched (watcher_on_connection thr next_id conn name flags appeared vanished
                                   user_data free_func).

(** The thread default context an event's callback runs under, for the
    events that are callbacks of the connection. *)
Definition event_thread (e : Event) : option (option GMainContext) :=
  match e with
  | BusGetFinished thr _ | StartServiceByNameFinished thr _
  | GetNameOwnerFinished thr _ | NameOwnerChanged thr _ _ _ _ _ _
  | ConnectionClosed thr => Some thr
  | IdleDispatch | Unwatch => None
  end.

(** No handler is invoked directly while an idle source of the watcher is
    pending: a callback of the connection runs on another context than the
    watcher's, or finds no idle source pending, or invokes nothing. *)
Definition in_order (w : Watcher) (e : Event) : bool :=
  match event_thread e with
  | Some thr =>
      bool_decide (thr <> main_context (client w)) ||
      bool_decide (idle_sources w = []) ||
      bool_decide (invoked (step w e) = invoked w)
  | None => true
  end.

Fixpoint calls_in_order (w : Watcher) (events : list Event) : bool :=
  match events with
  | [] => true
  | e :: rest => in_order w e && calls_in_order (step w e) rest
  end.

(** Every callback of the connection runs on the watcher's own context. *)
Definition on_own_context (w : Watcher) (e : Event) : Prop :=
  match event_thread e with
  | Some thr => thr = main_context (client w)
  | None => True
  end.

(** [g_bus_unwatch_name] is not called before the first delivery decision. *)
Fixpoint unwatch_after_first_call (w : Watcher) (events : list Event) : bool :=
  match events with
  | [] => true
  | e :: rest =>
      match e with
      | Unwatch => bool_decide (previous_call (client w) <> PREVIOUS_CALL_NONE)
      | _ => true
      end && unwatch_after_first_call (step w e) rest
  end.

(** *** A whole execution *)

(** What happens to the module: calls of its three entry points, and events
    that reach the client at some address. *)
Inductive Action :=
| Watch (thread_default : option GMainContext) (bus_type : Z) (name : string) (flags : Z)
        (appeared vanished : option Callback) (user_data : nat)
        (free_func : option Callback)
| WatchOnConnection (thread_default : option GMainContext)
        (conn : option GDBusConnection) (name : string) (flags : Z)
        (appeared vanished : option Callback) (user_data : nat)
        (free_func : option Callback)
| UnwatchName (watcher_id : Z)
| Reach (address : nat) (e : Event).

(** The client the table holds for an id. *)
Definition lookup_client (wd : World) (watcher_id : Z) : option nat :=
  match map_id_to_client wd with
  | Some table => table !! watcher_id
  | None => None
  end.

Section Execution.
Variable g_dbus_is_name : string -> bool.

(** [Unwatch] reaches a client through [g_bus_unwatch_name] only. *)
Definition act (wd : World) (a : Action) : World :=
  match a with
  | Watch thr bus_type name flags appeared vanished user_data free_func =>
      snd (g_bus_watch_name g_dbus_is_name thr bus_type name flags appeared vanished
                            user_data free_func wd)
  | WatchOnConnection thr conn name flags appeared vanished user_data free_func =>
      snd (g_bus_watch_name_on_connection g_dbus_is_name thr conn name flags
                                          appeared vanished user_data free_func wd)
  | UnwatchName watcher_id => g_bus_unwatch_name watcher_id wd
  | Reach address Unwatch => wd
  | Reach address e => deliver address e wd
  end.

Definition execute (wd : World) (actions : list Action) : World :=
  fold_left act actions wd.

(** Throughout the execution no handler is invoked directly while an idle
    source of the same watcher is pending. *)
Definition action_in_order (wd : World) (a : Action) : bool :=
  match a with
  | Reach address e =>
      match heap wd !! address with
      | Some w => in_order w e
      | None => true
      end
  | _ => true
  end.

Fixpoint actions_in_order (wd : World) (actions : list Action) : bool :=
  match actions with
  | [] => true
  | a :: rest => action_in_order wd a && actions_in_order (act wd a) rest
  end.


(** The two provisos for the client at [target] alone, whatever happens to
    the other clients: no handler of that client is invoked directly while
    one of its idle sources is pending, *)
Definition action_in_order_at (target : nat) (wd : World) (a : Action) : bool :=
  match a with
  | Reach address e =>
      if bool_decide (address = target) then action_in_order wd a else true
  | _ => true
  end.

Fixpoint actions_in_order_at (target : nat) (wd : World) (actions : list Action) : bool :=
  match actions with
  | [] => true
  | a :: rest => action_in_order_at target wd a && actions_in_order_at target (act wd a) rest
  end.



(** Every callback of the connection that reaches the client at [target]
    runs on that client's own context. *)
Definition action_on_own_context_at (target : nat) (wd : World) (a : Action) : Prop :=
  match a with
  | Reach address e =>
      address = target ->
      forall w, heap wd !! address = Some w -> on_own_context w e
  | _ => True
  end.

Fixpoint actions_on_own_context_at (target : nat) (wd : World) (actions : list Action)
    : Prop :=
  match actions with
  | [] => True
  | a :: rest =>
      action_on_own_context_at target wd a /\
      actions_on_own_context_at target (act wd a) rest
  end.

End Execution.

End AutoStart.

(** *** Handlers that call back *)

(** The user's handlers are arbitrary code and may call back into the
    module.  The call followed here is [g_bus_unwatch_name] with the id of the
    handler's own watcher, made before the handler returns; the callbacks
    above are those of handlers that make no such call.  Followed through
    [on_name_owner_changed], the one callback that runs handlers inline, holds
    no reference of its own and goes on using the client afterwards. *)
Module Reentrant.
Section Handlers.
(** Whether the handler, invoked so, calls [g_bus_unwatch_name] on its own
    watcher. *)
Variable unwatches : HandlerCall -> bool.

(** The invocation of a handler.  [g_bus_unwatch_name] finds the client in
    the table as long as it is not cancelled, and then cancels it and drops the
    reference of the table. *)
Definition invoke_handler (call : HandlerCall) (w : Watcher) : Watcher :=
  let w := invoke call w in
  if unwatches call && negb (cancelled (client w)) then unwatch_client w else w.

Definition actually_do_call (w : Watcher) (conn : option GDBusConnection)
    (owner : option string) (call_type : CallType) : Watcher :=
  match call_type with
  | CALL_TYPE_NAME_APPEARED =>
      match name_appeared_handler (client w) with
      | Some h =>
          invoke_handler (NameAppeared h conn (name (client w)) owner (user_data (client w))) w
      | None => w
      end
  | CALL_TYPE_NAME_VANISHED =>
      match name_vanished_handler (client w) with
      | Some h => invoke_handler (NameVanished h conn (name (client w)) (user_data (client w))) w
      | None => w
      end
  end.

Definition do_call (thread_default : option GMainContext) (w : Watcher)
    (call_type : CallType) : Watcher :=
  (* only schedule in idle if we're not in the right thread *)
  if bool_decide (thread_default <> main_context (client w))
  then schedule_call_in_idle w call_type
  else actually_do_call w (connection (client w)) (name_owner (client w)) call_type.

Definition call_appeared_handler (thread_default : option GMainContext)
    (w : Watcher) : Watcher :=
  if bool_decide (previous_call (client w) <> PREVIOUS_CALL_APPEARED) then
    let w := on_client (set_previous_call PREVIOUS_CALL_APPEARED) w in
    if negb (cancelled (client w)) && bool_decide (name_appeared_handler (client w) <> None)
    then do_call thread_default w CALL_TYPE_NAME_APPEARED
    else w
  else w.

Definition call_vanished_handler (thread_default : option GMainContext)
    (w : Watcher) (ignore_cancelled : bool) : Watcher :=
  if bool_decide (previous_call (client w) <> PREVIOUS_CALL_VANISHED) then
    let w := on_client (set_previous_call PREVIOUS_CALL_VANISHED) w in
    if (negb (cancelled (client w)) || ignore_cancelled)
       && bool_decide (name_vanished_handler (client w) <> None)
    then do_call thread_default w CALL_TYPE_NAME_VANISHED
    else w
  else w.

Definition on_name_owner_changed (thread_default : option GMainContext)
    (sender_name object_path interface_name : option string)
    (name old_owner new_owner : string) (w : Watcher) : Watcher :=
  if negb (initialized (client w)) then w
  else if g_strcmp0_differs object_path "/org/freedesktop/DBus"
          || g_strcmp0_differs interface_name "org.freedesktop.DBus"
          || g_strcmp0_differs sender_name "org.freedesktop.DBus" then w
  (* we only care about a specific name *)
  else if negb (String.eqb name (NameWatching.name (client w))) then w
  else
    let w :=
      if nonempty old_owner && bool_decide (name_owner (client w) <> None) then
        let w := on_client (set_name_owner None) w in
        call_vanished_handler thread_default w false
      else w in
    if nonempty new_owner then
      let w := if bool_decide (name_owner (client w) = None) then w
               else effect [WarnIfFail "client->name_owner == NULL"] w in
      let w := on_client (set_name_owner (Some new_owner)) w in
      call_appeared_handler thread_default w
    else w.

End Handlers.
End Reentrant.

(** *** Invariants *)

(** The value of [previous_call] that goes with the last call decided. *)
Definition as_previous (o : option CallType) : PreviousCall :=
  match o with
  | None => PREVIOUS_CALL_NONE
  | Some CALL_TYPE_NAME_APPEARED => PREVIOUS_CALL_APPEARED
  | Some CALL_TYPE_NAME_VANISHED => PREVIOUS_CALL_VANISHED
  end.

(** The calls decided so far, delivered or still queued, alternate, and
    until the watcher is cancelled [previous_call] is the last of them. *)
Definition paced (w : Watcher) : Prop :=
  alternates (delivered w ++ queued w) /\
  (cancelled (client w) = false ->
   as_previous (last (delivered w ++ queued w)) = previous_call (client w)).

Definition idle_ok (thr : option GMainContext) (w : Watcher) : Prop :=
  thr = main_context (client w) -> idle_sources w = [].

Definition good (thr : option GMainContext) (w : Watcher) : Prop :=
  both_handlers w /\ paced w /\ idle_ok thr w.

(** Two watchers that differ in nothing the invariant reads. *)
Definition same_view (w w' : Watcher) : Prop :=
  invoked w' = invoked w /\ idle_sources w' = idle_sources w /\
  previous_call (client w') = previous_call (client w) /\
  cancelled (client w') = cancelled (client w) /\
  name_appeared_handler (client w') = name_appeared_handler (client w) /\
  name_vanished_handler (client w') = name_vanished_handler (client w) /\
  main_context (client w') = main_context (client w).

(** [w'] has been invoked at least as often as [w], by the same handlers on
    the same context. *)
Definition extends (w w' : Watcher) : Prop :=
  (exists l, invoked w' = invoked w ++ l) /\
  name_appeared_handler (client w') = name_appeared_handler (client w) /\
  name_vanished_handler (client w') = name_vanished_handler (client w) /\
  main_context (client w') = main_context (client w).

(** The references someone is known to hold: the registry until the watcher
    is cancelled, each operation in flight, each idle source. *)
Definition holders (w : Watcher) : Z :=
  (if cancelled (client w) then 0 else 1)
  + Z.of_nat (length (in_flight w)) + Z.of_nat (length (idle_sources w)).

Definition slack (w : Watcher) : Z := ref_count (client w) - holders w.

(** A live client counts at least its holders; a freed one has none. *)
Definition counted (w : Watcher) : Prop :=
  if freed w then holders w = 0
  else 0 <= slack w /\ 1 <= ref_count (client w).

(** Nothing was freed and no reference went missing between [w] and [w']. *)
Definition keeps (w w' : Watcher) : Prop :=
  freed w' = freed w /\ slack w <= slack w' /\
  ref_count (client w) <= ref_count (client w').

(** The calls decided so far: those delivered, then those still queued. *)
Definition calls (w : Watcher) : list CallType := delivered w ++ queued w.

(** While no delivery has been decided the watcher is not cancelled and one
    operation of the start-up chain is in flight: the acquisition of the bus,
    the start of the service, or the owner query. *)
Definition pending_first (w : Watcher) : Prop :=
  previous_call (client w) = PREVIOUS_CALL_NONE ->
  cancelled (client w) = false /\
  initialized (client w) = false /\
  (in_flight w = [CallBusGet] \/
   in_flight w = [CallStartServiceByName] \/
   in_flight w = [CallGetNameOwner]).

(** Once a delivery has been decided, a call was delivered or queued. *)
Definition decided (w : Watcher) : Prop :=
  previous_call (client w) <> PREVIOUS_CALL_NONE -> calls w <> [].

Definition first (w : Watcher) : Prop :=
  both_handlers w /\ pending_first w /\ decided w.

Definition settled (w : Watcher) : Prop :=
  both_handlers w /\ previous_call (client w) <> PREVIOUS_CALL_NONE /\ calls w <> [].

(** Nothing decided is undone between [w] and [w']. *)
Definition advances (w w' : Watcher) : Prop :=
  name_appeared_handler (client w') = name_appeared_handler (client w) /\
  name_vanished_handler (client w') = name_vanished_handler (client w) /\
  (previous_call (client w) <> PREVIOUS_CALL_NONE ->
   previous_call (client w') <> PREVIOUS_CALL_NONE) /\
  (calls w <> [] -> calls w' <> []).

(** The handlers are those given at registration, and only
    [g_bus_unwatch_name] cancels. *)
Definition fixed (w w' : Watcher) : Prop :=
  name_appeared_handler (client w') = name_appeared_handler (client w) /\
  name_vanished_handler (client w') = name_vanished_handler (client w) /\
  cancelled (client w') = cancelled (client w).

(** Between [w] and [w'] nothing was queued by a callback running on the
    watcher's own context. *)
Definition inline (thr : option GMainContext) (w w' : Watcher) : Prop :=
  main_context (client w') = main_context (client w) /\
  (thr = main_context (client w) -> idle_sources w' = idle_sources w).

(** The client at [target], if it is allocated, satisfies [P]. *)
Definition at_address (target : nat) (P : Watcher -> Prop) (wd : World) : Prop :=
  forall w, heap wd !! target = Some w -> P w.

(** Every client allocated so far satisfies [P]. *)
Definition every (P : Watcher -> Prop) (wd : World) : Prop :=
  forall (address : nat) w, heap wd !! address = Some w -> P w.

(** The table holds live clients that are not cancelled, each under one id,
    and every client counts its references. *)
Definition sound (wd : World) : Prop :=
  (forall watcher_id address,
      lookup_client wd watcher_id = Some address ->
      exists w, heap wd !! address = Some w /\ cancelled (client w) = false) /\
  (forall id1 id2 address,
      lookup_client wd id1 = Some address -> lookup_client wd id2 = Some address ->
      id1 = id2) /\
  every counted wd.

Definition paces (w : Watcher) : Prop := both_handlers w -> paced w.


(** *** Vocabulary of the further properties *)

Definition is_user_data_free (e : Effect) : bool :=
  match e with UserDataFree _ _ => true | _ => false end.

(** The calls of the user's free function so far. *)
Definition user_data_frees (w : Watcher) : list Effect :=
  List.filter is_user_data_free (effects w).

(** Nothing was freed between [w] and [w']. *)
Definition unfreed (w w' : Watcher) : Prop :=
  freed w' = freed w /\ user_data_frees w' = user_data_frees w.

(** The free function has been called on the user data once if the client
    is freed and there is one, and not at all otherwise. *)
Definition freed_once (w : Watcher) : Prop :=
  user_data_frees w
  = if freed w
    then match user_data_free_func (client w) with
         | Some f => [UserDataFree f (user_data (client w))]
         | None => []
         end
    else [].

(** Between [w] and [w'] a cancelled watcher had no call invoked or
    queued. *)
Definition undecided (w w' : Watcher) : Prop :=
  cancelled (client w') = cancelled (client w) /\
  (cancelled (client w) = true ->
   invoked w' = invoked w /\ idle_sources w' = idle_sources w).

(** An invocation as the registration asked for it: of the handler given,
    with the name watched and the user data given, and for Appeared with an
    owner. *)
Definition well_formed_call (c : Client) (call : HandlerCall) : Prop :=
  match call with
  | NameAppeared h _ n owner ud =>
      name_appeared_handler c = Some h /\ n = name c /\ ud = user_data c /\ is_Some owner
  | NameVanished h _ n ud =>
      name_vanished_handler c = Some h /\ n = name c /\ ud = user_data c
  end.

Definition well_formed_source (data : CallHandlerData) : Prop :=
  call_type data = CALL_TYPE_NAME_APPEARED -> is_Some (data_name_owner data).

Definition well_formed (w : Watcher) : Prop :=
  Forall (well_formed_call (client w)) (invoked w) /\
  Forall well_formed_source (idle_sources w).

(** What a registration fixes. *)
Definition same_registration (w w' : Watcher) : Prop :=
  name (client w') = name (client w) /\
  user_data (client w') = user_data (client w) /\
  name_appeared_handler (client w') = name_appeared_handler (client w) /\
  name_vanished_handler (client w') = name_vanished_handler (client w).

Definition stays_well_formed (w w' : Watcher) : Prop :=
  same_registration w w' /\ (well_formed w -> well_formed w').

(** Between [w] and [w'] no operation was started or completed, and the
    watcher was not marked initialized. *)
Definition steady (w w' : Watcher) : Prop :=
  in_flight w' = in_flight w /\ initialized (client w') = initialized (client w).

(** At most one operation of the start-up chain is in flight, and none once
    the watcher is initialized. *)
Definition chain (w : Watcher) : Prop :=
  (in_flight w = [] \/ in_flight w = [CallBusGet] \/
   in_flight w = [CallStartServiceByName] \/ in_flight w = [CallGetNameOwner]) /\
  (in_flight w <> [] -> initialized (client w) = false).

(** Between [w] and [w'] the connection and the two tokens held on it stay
    as they are. *)
Definition wired (w w' : Watcher) : Prop :=
  connection (client w') = connection (client w) /\
  disconnected_signal_handler_id (client w') = disconnected_signal_handler_id (client w) /\
  name_owner_changed_subscription_id (client w')
  = name_owner_changed_subscription_id (client w).

(** A client without a connection holds no token, and has no connection
    while the acquisition of the bus is in flight. *)
Definition tied (w : Watcher) : Prop :=
  chain w /\
  (connection (client w) = None ->
   disconnected_signal_handler_id (client w) = 0 /\
   name_owner_changed_subscription_id (client w) = 0) /\
  (in_flight w = [CallBusGet] -> connection (client w) = None).

(** The two signals of the connection. *)
Definition is_signal (e : Event) : bool :=
  match e with
  | NameOwnerChanged _ _ _ _ _ _ _ | ConnectionClosed _ => true
  | _ => false
  end.

(** The invocations a watcher's handlers get when called inline. *)
Definition vanished_call (handler : Callback) (w : Watcher) : HandlerCall :=
  NameVanished handler (connection (client w)) (name (client w)) (user_data (client w)).

Definition appeared_call (handler : Callback) (owner : string) (w : Watcher) : HandlerCall :=
  NameAppeared handler (connection (client w)) (name (client w)) (Some owner)
               (user_data (client w)).

(** The calls of the entry points that register a client. *)
Definition registers (g_dbus_is_name : string -> bool) (a : Action) : bool :=
  match a with
  | Watch _ _ name _ _ _ _ _ => g_dbus_is_name name
  | WatchOnConnection _ (Some _) name _ _ _ _ _ => g_dbus_is_name name
  | _ => false
  end.

Definition registrations (g_dbus_is_name : string -> bool) (actions : list Action) : nat :=
  length (List.filter (registers g_dbus_is_name) actions).

(** *** Scenarios *)

(** The flag bit of gioenums.h. *)
Definition AUTO_START : Z := 1.

(** Every name is a bus name, for the scenarios. *)
Definition any_name (name : string) : bool := true.

Definition bus : GDBusConnection :=
  {| conn_id := 5; closed_handler_id := 11; subscription_id := 12 |}.

Definition daemon : option string := Some "org.freedesktop.DBus"%string.
Definition daemon_path : option string := Some "/org/freedesktop/DBus"%string.

(** [NameOwnerChanged (name, old_owner, new_owner)] from the bus daemon, run
    on the context [thr]. *)
Definition owner_changed (thr : option GMainContext) (name old_owner new_owner : string)
    : Event :=
  NameOwnerChanged thr daemon daemon_path daemon name old_owner new_owner.

(** A watcher of the name [n] registered from the default context with the
    given handlers. *)
Definition watcher_of (appeared vanished : option Callback) : Watcher :=
  watcher_on_bus None 1 "n" 0 appeared vanished 0 None.

(** The fifth scenario of the document, on the default context: the name is
    owned, loses its owner, gets a new one, and the watcher is removed. *)
Definition scenario_5 : list Event :=
  [BusGetFinished None (Some bus);
   GetNameOwnerFinished None (Some ":1.5"%string);
   owner_changed None "n" ":1.5" "";
   owner_changed None "n" "" ":1.6";
   Unwatch].

(** The fifth scenario as an execution of the module from its initial
    state: the watcher is the client at address 0, under id 1. *)
Definition reach_all (address : nat) (events : list Event) : list Action :=
  map (Reach address) events.

Definition execution_5 : list Action :=
  Watch None 0 "n" 0 (Some 1%nat) (Some 2%nat) 0 None
  :: reach_all 0 [BusGetFinished None (Some bus);
                  GetNameOwnerFinished None (Some ":1.5"%string);
                  owner_changed None "n" ":1.5" "";
                  owner_changed None "n" "" ":1.6"]
  ++ [UnwatchName 1].

Definition watcher_5 : Watcher :=
  NameWatching.run AUTO_START (watcher_of (Some 1%nat) (Some 2%nat)) scenario_5.

(** A watcher in Appeared state: the bus was acquired and the owner query
    answered. *)
Definition appeared_watcher : Watcher :=
  NameWatching.run AUTO_START (watcher_of (Some 1%nat) (Some 2%nat))
    [BusGetFinished None (Some bus); GetNameOwnerFinished None (Some ":1.5"%string)].

(** The world after one registration from nothing. *)
Definition one_watcher : World :=
  snd (g_bus_watch_name any_name None 0 "n" 0 (Some 1%nat) (Some 2%nat) 0 None initial_world).

(** Two registrations, the second on a connection, and the first replies to
    the first. *)
Definition execution_2 : list Action :=
  [Watch None 0 "n" 0 (Some 1%nat) (Some 2%nat) 0 None;
   Reach 0 (BusGetFinished None (Some bus));
   WatchOnConnection None (Some bus) "m" 0 (Some 3%nat) None 0 None;
   Reach 0 (GetNameOwnerFinished None (Some ":1.5"%string))].

(** A watcher registered with a free function and the user data 9, removed
    once the owner is known. *)
Definition execution_free : list Action :=
  Watch None 0 "n" 0 (Some 1%nat) (Some 2%nat) 9 (Some 3%nat)
  :: reach_all 0 [BusGetFinished None (Some bus);
                  GetNameOwnerFinished None (Some ":1.5"%string)]
  ++ [UnwatchName 1].

Definition watcher_free : Watcher :=
  NameWatching.run AUTO_START
    (watcher_on_bus None 1 "n" 0 (Some 1%nat) (Some 2%nat) 9 (Some 3%nat))
    [BusGetFinished None (Some bus); GetNameOwnerFinished None (Some ":1.5"%string);
     Unwatch].

(** A watcher registered from the default context whose replies run on the
    context 7: Appeared is queued, and the watcher is then removed. *)
Definition cancelled_watcher : Watcher :=
  NameWatching.run AUTO_START (watcher_of (Some 1%nat) (Some 2%nat))
    [BusGetFinished (Some 7%nat) (Some bus);
     GetNameOwnerFinished (Some 7%nat) (Some ":1.5"%string);
     Unwatch].

(** A watcher registered with the auto-start flag, once the bus is
    acquired. *)
Definition starting_watcher : Watcher :=
  NameWatching.run AUTO_START
    (watcher_on_bus None 1 "n" AUTO_START (Some 1%nat) (Some 2%nat) 0 None)
    [BusGetFinished None (Some bus)].

(** Two watchers.  The owner query of the first is answered on the context
    7, so that Appeared is queued, and the loss of the owner is then signalled
    on its own context; the second is served on its own context throughout. *)
Definition execution_two_contexts : list Action :=
  [Watch None 0 "n" 0 (Some 1%nat) (Some 2%nat) 0 None;
   Watch None 0 "m" 0 (Some 3%nat) (Some 4%nat) 0 None;
   Reach 0 (BusGetFinished None (Some bus));
   Reach 0 (GetNameOwnerFinished (Some 7%nat) (Some ":1.5"%string));
   Reach 0 (owner_changed None "n" ":1.5" "");
   Reach 1 (BusGetFinished None (Some bus));
   Reach 1 (GetNameOwnerFinished None (Some ":1.8"%string));
   Reach 1 (owner_changed None "m" ":1.8" "")].

Definition second_watcher : Watcher :=
  NameWatching.run AUTO_START
    (watcher_on_bus None 2 "m" 0 (Some 3%nat) (Some 4%nat) 0 None)
    [BusGetFinished None (Some bus);
     GetNameOwnerFinished None (Some ":1.8"%string);
     owner_changed None "m" ":1.8" ""].

(** Two watchers.  The first is removed before its owner query completes;
    the second is removed once its owner is known. *)
Definition execution_early_and_late : list Action :=
  [Watch None 0 "n" 0 (Some 1%nat) (Some 2%nat) 0 None;
   Watch None 0 "m" 0 (Some 3%nat) (Some 4%nat) 0 None;
   Reach 0 (BusGetFinished None (Some bus));
   UnwatchName 1;
   Reach 0 (GetNameOwnerFinished None (Some ":1.5"%string));
   Reach 1 (BusGetFinished None (Some bus));
   Reach 1 (GetNameOwnerFinished None (Some ":1.8"%string));
   UnwatchName 2].

Definition late_watcher : Watcher :=
  NameWatching.run AUTO_START
    (watcher_on_bus None 2 "m" 0 (Some 3%nat) (Some 4%nat) 0 None)
    [BusGetFinished None (Some bus);
     GetNameOwnerFinished None (Some ":1.8"%string);
     Unwatch].

(** A vanished handler that removes its watcher, and an appeared handler
    that does not. *)
Definition vanished_unwatches (call : HandlerCall) : bool :=
  match call with
  | NameVanished _ _ _ _ => true
  | NameAppeared _ _ _ _ _ => false
  end.

End NameWatching.

(** * Properties *)

(** ** The application side *)
Module ApplicationImplFacts.
Import ApplicationImpl.

(** *** Path derivation *)

Lemma c_str_nul_free mem : nul_free (c_str mem).
Proof.
  induction mem as [|c rest IH]; simpl; [constructor|].
  destruct (Ascii.eqb_spec c NUL); [constructor|].
  constructor; assumption.
Qed.

Lemma c_str_terminated s rest : nul_free s -> c_str (s ++ NUL :: rest) = s.
Proof.
  induction 1 as [|c s Hc _ IH]; simpl; [reflexivity|].
  destruct (Ascii.eqb_spec c NUL); [contradiction|]. now rewrite IH.
Qed.

Lemma dot_to_slash_not_nul c : c <> NUL -> dot_to_slash c <> NUL.
Proof.
  unfold dot_to_slash. destruct (Ascii.eqb_spec c "."); [discriminate|auto].
Qed.

Lemma map_dot_to_slash_nul_free s : nul_free s -> nul_free (map dot_to_slash s).
Proof.
  induction 1; simpl; constructor; auto using dot_to_slash_not_nul.
Qed.

(** The loop, started at offset [length done] of a terminated buffer,
    rewrites the rest of the string and nothing else. *)
Lemma path_loop_rewrites s : nul_free s ->
  forall fuel done, (length s < fuel)%nat ->
    path_loop fuel (done ++ s ++ [NUL]) (length done)
    = done ++ map dot_to_slash s ++ [NUL].
Proof.
  induction 1 as [|c s Hc Hs IH]; intros fuel done Hfuel.
  - destruct fuel as [|fuel]; [simpl in Hfuel; lia|]. simpl.
    rewrite list_lookup_middle by reflexivity. simpl. reflexivity.
  - destruct fuel as [|fuel]; [simpl in Hfuel; lia|].
    simpl in Hfuel. cbn [path_loop].
    change ((c :: s) ++ [NUL]) with (c :: (s ++ [NUL])).
    rewrite list_lookup_middle by reflexivity.
    destruct (Ascii.eqb_spec c NUL) as [|_]; [contradiction|].
    assert (Hbuf : (if Ascii.eqb c "." then <[length done := "/"%char]> (done ++ c :: s ++ [NUL])
                    else done ++ c :: s ++ [NUL])
                   = (done ++ [dot_to_slash c]) ++ s ++ [NUL]).
    { unfold dot_to_slash. destruct (Ascii.eqb c ".").
      - rewrite insert_app_r_alt by lia. rewrite Nat.sub_diag. simpl.
        now rewrite <- app_assoc.
      - now rewrite <- app_assoc. }
    rewrite Hbuf.
    replace (S (length done)) with (length (done ++ [dot_to_slash c]))
      by (rewrite length_app; simpl; lia).
    rewrite IH by lia. simpl. now rewrite <- app_assoc.
Qed.

Lemma application_path_is_spec_path appid :
  application_path_from_appid appid = spec_path (c_str appid).
Proof.
  unfold application_path_from_appid, g_strconcat, spec_path.
  change (c_str ["/"%char]) with ["/"%char].
  pose proof (c_str_nul_free appid) as Hs.
  assert (Hs' : nul_free ("/"%char :: c_str appid)) by (constructor; [discriminate|exact Hs]).
  pose proof (path_loop_rewrites _ Hs'
                (length (["/"%char] ++ c_str appid ++ [NUL])) []) as H.
  change ([] ++ ("/"%char :: c_str appid) ++ [NUL])
    with (["/"%char] ++ c_str appid ++ [NUL]) in H.
  change (length (@nil ascii)) with 0%nat in H.
  rewrite H by (rewrite !length_app; simpl; lia).
  change ([] ++ map dot_to_slash ("/"%char :: c_str appid) ++ [NUL])
    with (map dot_to_slash ("/"%char :: c_str appid) ++ NUL :: []).
  rewrite c_str_terminated by now apply map_dot_to_slash_nul_free.
  reflexivity.
Qed.

Lemma c_str_of_nul_free s : nul_free s -> c_str s = s.
Proof.
  induction 1 as [|c s Hc _ IH]; simpl; [reflexivity|].
  destruct (Ascii.eqb_spec c NUL); [contradiction|]. now rewrite IH.
Qed.

(** C6.  For every string the derived path is a slash followed by the
    string with each dot turned into a slash and every other character kept,
    whatever lies in memory after the string's terminator; the path of
    a.b.c is /a/b/c. *)
Theorem application_path_derivation :
  (forall mem : list ascii,
      application_path_from_appid mem = "/"%char :: map dot_to_slash (c_str mem)) /\
  (forall c : ascii, c <> "."%char -> dot_to_slash c = c) /\
  dot_to_slash "." = "/"%char /\
  path_of_appid "a.b.c" = "/a/b/c"%string.
Proof.
  split; [exact application_path_is_spec_path|].
  split; [|split; reflexivity].
  intros c Hc. unfold dot_to_slash. destruct (Ascii.eqb_spec c "."); [contradiction|reflexivity].
Qed.

(** On a string without NUL the derivation is the document's [spec_path]. *)
Lemma application_path_of_string s :
  nul_free s -> application_path_from_appid s = spec_path s.
Proof.
  intros H. rewrite application_path_is_spec_path. now rewrite c_str_of_nul_free.
Qed.

(** *** Registration *)

Section RegisterFacts.
Variables G_APPLICATION_IS_SERVICE G_APPLICATION_IS_LAUNCHER : Z.

Abbreviation register :=
  (g_application_impl_register G_APPLICATION_IS_SERVICE G_APPLICATION_IS_LAUNCHER).

Abbreviation requests_name := (ApplicationImpl.requests_name G_APPLICATION_IS_LAUNCHER).

Ltac reach_request H :=
  destruct H as (Hbus & Hlauncher & Hobj & Hoid & Hreq);
  unfold g_application_impl_register;
  rewrite Hbus, Hlauncher, Hobj, Hreq;
  apply Z.eqb_neq in Hoid; rewrite Hoid.

(** C4, as amended.  Every reply code other than 3 makes the caller the
    primary: the registration is returned with the dispatcher still
    published, [is_remote] is false and no error is set. *)
Theorem register_other_reply_is_primary bus application appid flags is_remote conn oid rval :
  requests_name bus flags conn oid rval ->
  rval <> 3 ->
  let r := register bus application appid flags is_remote in
  reg_impl r = Some {| session_bus := Some conn; bus_name := appid;
                       object_path := Some (path_of_appid appid);
                       object_id := oid; app := application |} /\
  reg_is_remote r = false /\
  reg_error r = None /\
  ~ In (OpUnregisterObject conn oid) (reg_ops r).
Proof.
  intros H Hrval. reach_request H.
  apply Z.eqb_neq in Hrval. rewrite Hrval. simpl.
  repeat split; try reflexivity.
  intros [E|[E|[E|[]]]]; discriminate E.
Qed.

(** C5.  On reply code 3 the dispatcher is unpublished and [is_remote] is
    true; with [IS_SERVICE] the call fails with the unable-to-acquire error
    and returns no registration, without it the call returns the
    registration of a remote. *)
Theorem register_name_exists bus application appid flags is_remote conn oid :
  requests_name bus flags conn oid 3 ->
  let r := register bus application appid flags is_remote in
  reg_is_remote r = true /\
  In (OpUnregisterObject conn oid) (reg_ops r) /\
  (has_flag flags G_APPLICATION_IS_SERVICE = true ->
     reg_impl r = None /\
     reg_error r = Some (G_DBUS_ERROR_FAILED
                           ("Unable to acquire bus name `" +:+ appid +:+ "'"))) /\
  (has_flag flags G_APPLICATION_IS_SERVICE = false ->
     reg_impl r = Some {| session_bus := Some conn; bus_name := appid;
                          object_path := Some (path_of_appid appid);
                          object_id := 0; app := application |} /\
     reg_error r = None).
Proof.
  intros H. reach_request H. simpl.
  destruct (has_flag flags G_APPLICATION_IS_SERVICE); simpl;
    (split; [reflexivity|]); (split; [tauto|]);
    split; intros E; try discriminate E; split; reflexivity.
Qed.

End RegisterFacts.

(** C4, counterexample.  With the flag bits of gioenums.h (service 1,
    launcher 2) and reply code 4 (already owner), neither 1 nor 3, the call
    returns a registration and sets no error. *)
Lemma register_reply_4_is_not_an_error :
  let r := g_application_impl_register 1 2 (example_bus 4) 0%nat "org.example.App" 0 true in
  reg_impl r = Some {| session_bus := Some 5%nat; bus_name := "org.example.App";
                       object_path := Some "/org/example/App"%string;
                       object_id := 7; app := 0%nat |} /\
  reg_is_remote r = false /\
  reg_error r = None.
Proof. vm_compute. repeat split. Qed.

Lemma register_other_reply_is_primary_witness :
  let r := g_application_impl_register 1 2 (example_bus 4) 0%nat "org.example.App" 0 true in
  reg_impl r = Some {| session_bus := Some 5%nat; bus_name := "org.example.App";
                       object_path := Some (path_of_appid "org.example.App");
                       object_id := 7; app := 0%nat |} /\
  reg_is_remote r = false /\
  reg_error r = None /\
  ~ In (OpUnregisterObject 5%nat 7) (reg_ops r).
Proof.
  apply (register_other_reply_is_primary 1 2 (example_bus 4) 0%nat "org.example.App" 0 true
           5%nat 7 4).
  - unfold ApplicationImpl.requests_name. simpl. repeat split; try reflexivity. lia.
  - lia.
Defined.

Lemma register_name_exists_witness :
  let r := g_application_impl_register 1 2 (example_bus 3) 0%nat "org.example.App" 1 false in
  reg_is_remote r = true /\
  In (OpUnregisterObject 5%nat 7) (reg_ops r) /\
  (has_flag 1 1 = true ->
     reg_impl r = None /\
     reg_error r = Some (G_DBUS_ERROR_FAILED
                           ("Unable to acquire bus name `" +:+ "org.example.App" +:+ "'"))) /\
  (has_flag 1 1 = false ->
     reg_impl r = Some {| session_bus := Some 5%nat; bus_name := "org.example.App";
                          object_path := Some (path_of_appid "org.example.App");
                          object_id := 0; app := 0%nat |} /\
     reg_error r = None).
Proof.
  apply (register_name_exists 1 2 (example_bus 3) 0%nat "org.example.App" 1 false 5%nat 7).
  unfold ApplicationImpl.requests_name. simpl. repeat split; try reflexivity. lia.
Defined.

(** *** The primary-side command-line channel *)

Lemma finalize_replies ch :
  chan_ops (g_dbus_command_line_finalize ch)
  = chan_ops ch ++ [OpReturnValue (inv_id (invocation (chan ch)))
                                  (ExitStatus (exit_status (chan ch)));
                    OpInvocationUnref (inv_id (invocation (chan ch)))].
Proof. reflexivity. Qed.

Lemma replies_once_new inv ch :
  g_dbus_command_line_new inv = Some ch -> replies_once inv ch /\ finalized ch = false.
Proof.
  unfold g_dbus_command_line_new. destruct (inv_parameters inv); try discriminate.
  intros [= <-]. split; [|reflexivity]. split; [reflexivity|]. split; simpl.
  - intros _. repeat constructor.
  - discriminate.
Qed.

Lemma replies_once_unref inv ch : replies_once inv ch -> replies_once inv (g_object_unref ch).
Proof.
  intros (Hinv & Hlive & Hdead). unfold g_object_unref.
  destruct (finalized ch) eqn:Hf.
  - split; [assumption|]. rewrite Hf. split; [discriminate|assumption].
  - specialize (Hlive eq_refl). cbn [chan ref_count with_ref_count].
    destruct (ref_count (chan ch) - 1 =? 0).
    + split; [exact Hinv|]. split; [discriminate|]. intros _.
      exists (chan_ops ch). cbn. rewrite Hinv. split; [reflexivity|assumption].
    + split; [exact Hinv|]. split; [intros _; assumption|discriminate].
Qed.

Lemma replies_once_action inv ch a : replies_once inv ch -> replies_once inv (app_action ch a).
Proof.
  intros H. destruct a; cbn [app_action].
  - destruct H as (Hinv & Hlive & Hdead). unfold g_object_ref.
    destruct (finalized ch) eqn:Hf.
    + split; [assumption|]. rewrite Hf. split; [discriminate|assumption].
    + split; [exact Hinv|]. split; [intros _; exact (Hlive eq_refl)|discriminate].
  - now apply replies_once_unref.
  - destruct H as (Hinv & Hlive & Hdead). unfold set_exit_status.
    destruct (finalized ch) eqn:Hf.
    + split; [assumption|]. rewrite Hf. split; [discriminate|assumption].
    + split; [exact Hinv|]. split; [intros _; exact (Hlive eq_refl)|discriminate].
  - destruct H as (Hinv & Hlive & Hdead).
    destruct (finalized ch) eqn:Hf.
    + split; [assumption|]. rewrite Hf. split; [discriminate|assumption].
    + split; [exact Hinv|]. cbn. rewrite Hf. split; [|discriminate].
      intros _. apply Forall_app. split; [exact (Hlive eq_refl)|].
      repeat constructor.
  - destruct H as (Hinv & Hlive & Hdead).
    destruct (finalized ch) eqn:Hf.
    + split; [assumption|]. rewrite Hf. split; [discriminate|assumption].
    + split; [exact Hinv|]. cbn. rewrite Hf. split; [|discriminate].
      intros _. apply Forall_app. split; [exact (Hlive eq_refl)|].
      repeat constructor.
Qed.

Lemma replies_once_actions inv l : forall ch,
  replies_once inv ch -> replies_once inv (app_actions ch l).
Proof.
  unfold app_actions. induction l as [|a l IH]; intros ch H; simpl; [assumption|].
  apply IH. now apply replies_once_action.
Qed.

Lemma replies_once_set_exit_status inv ch s :
  replies_once inv ch -> replies_once inv (set_exit_status ch s).
Proof. exact (replies_once_action inv ch (AppSetExitStatus s)). Qed.

(** The channel a dispatched CommandLine call leaves behind satisfies its
    obligation. *)
Lemma dispatch_replies_once application parameters inv d ch :
  g_application_impl_method_call application "CommandLine" parameters inv = Some d ->
  channel d = Some ch ->
  replies_once inv ch.
Proof.
  unfold g_application_impl_method_call. cbn [String.eqb Ascii.eqb Bool.eqb].
  destruct (g_dbus_command_line_new inv) as [c0|] eqn:Hnew; [|discriminate].
  destruct parameters; try discriminate.
  destruct (command_line_handler application (chan c0)) as [acts status].
  intros [= <-]. cbn [channel]. intros [= <-].
  apply replies_once_unref, replies_once_set_exit_status, replies_once_actions.
  now apply replies_once_new.
Qed.

Lemma example_dispatch :
  option_map (fun d => option_map (fun ch => (finalized ch, chan_ops ch)) (channel d))
    (g_application_impl_method_call example_application "CommandLine"
       (inv_parameters example_invocation) example_invocation)
  = Some (Some (true,
       [OpInvocationRef 9%nat;
        OpCall 5%nat ":1.7" "/org/gtk/Application/CommandLine"
               "org.gtk.private.CommandLine" "Print" ["hello"%string];
        OpCall 5%nat ":1.7" "/org/gtk/Application/CommandLine"
               "org.gtk.private.CommandLine" "PrintError" ["oops"%string];
        OpReturnValue 9%nat (ExitStatus 42);
        OpInvocationUnref 9%nat])).
Proof. reflexivity. Qed.

(** *** The remote command-line round trip *)

Lemma main_loop_until_reply before : Forall is_print before ->
  forall result after io ops,
    exists ops',
      g_main_loop_run (before ++ CallFinished result :: after) io ops
      = let io' := {| stdout := stdout io ++ printed "Print" before;
                      stderr := stderr io ++ printed "PrintError" before |} in
        Returned (fst (g_application_impl_cmdline_done result io'))
                 (snd (g_application_impl_cmdline_done result io')) ops'.
Proof.
  induction 1 as [|e before He _ IH]; intros result after io ops.
  - exists ops. cbn [app printed g_main_loop_run]. rewrite !app_nil_r.
    destruct io as [out err], result; reflexivity.
  - destruct e as [inv m message|]; [|contradiction].
    change ((IncomingCall inv m message :: before) ++ CallFinished result :: after)
      with (IncomingCall inv m message :: (before ++ CallFinished result :: after)).
    destruct He as [-> | ->].
    + destruct (IH result after
                  {| stdout := stdout io ++ [message]; stderr := stderr io |}
                  (ops ++ [OpReturnValue inv EmptyReply])) as [ops' Hrun].
      exists ops'. cbn [g_main_loop_run]. unfold g_application_impl_cmdline_method_call.
      change (String.eqb "Print" "Print") with true. cbv iota. rewrite Hrun.
      cbn [stdout stderr printed]. change (String.eqb "Print" "Print") with true.
      change (String.eqb "Print" "PrintError") with false. cbv iota.
      now rewrite <- app_assoc.
    + destruct (IH result after
                  {| stdout := stdout io; stderr := stderr io ++ [message] |}
                  (ops ++ [OpReturnValue inv EmptyReply])) as [ops' Hrun].
      exists ops'. cbn [g_main_loop_run]. unfold g_application_impl_cmdline_method_call.
      change (String.eqb "PrintError" "Print") with false.
      change (String.eqb "PrintError" "PrintError") with true. cbv iota. rewrite Hrun.
      cbn [stdout stderr printed]. change (String.eqb "PrintError" "Print") with false.
      change (String.eqb "PrintError" "PrintError") with true. cbv iota.
      now rewrite <- app_assoc.
Qed.

(** C8.  When the loop has dispatched Print and PrintError calls and the
    CommandLine call then completes: with a reply carrying a status the
    round trip returns that status and writes nothing more; with an error it
    writes the error's message and a newline to stderr and returns 1. *)
Theorem command_line_round_trip impl conn path args pd object_id before result after io :
  session_bus impl = Some conn ->
  object_path impl = Some path ->
  object_id <> 0 ->
  Forall is_print before ->
  exists ops,
    g_application_impl_command_line impl args pd object_id
      (before ++ CallFinished result :: after) io
    = match result with
      | Ok status =>
          Returned status
            {| stdout := stdout io ++ printed "Print" before;
               stderr := stderr io ++ printed "PrintError" before |} ops
      | Failed error =>
          Returned 1
            {| stdout := stdout io ++ printed "Print" before;
               stderr := (stderr io ++ printed "PrintError" before)
                         ++ [error_message error +:+ newline] |} ops
      end.
Proof.
  intros Hbus Hpath Hoid Hbefore. unfold g_application_impl_command_line.
  rewrite Hbus, Hpath. apply Z.eqb_neq in Hoid. rewrite Hoid.
  destruct (main_loop_until_reply before Hbefore result after io
              ([OpRegisterObject conn "/org/gtk/Application/CommandLine"
                                 "org.gtk.private.Cmdline"] ++
               [OpCall conn (bus_name impl) path "org.gtk.Application" "CommandLine"
                       ("/org/gtk/Application/CommandLine"%string :: args)]))
    as [ops ->].
  exists ops. destruct result; reflexivity.
Qed.

Lemma command_line_round_trip_witness :
  exists ops,
    g_application_impl_command_line example_impl ["arg0"; "arg1"]%string [] 8
      ([IncomingCall 1%nat "Print" "hello"; IncomingCall 2%nat "PrintError" "oops"]
         ++ CallFinished (Failed (BusError "no reply")) :: [])
      {| stdout := []; stderr := [] |}
    = Returned 1
        {| stdout := [] ++ printed "Print"
                       [IncomingCall 1%nat "Print" "hello";
                        IncomingCall 2%nat "PrintError" "oops"];
           stderr := ([] ++ printed "PrintError"
                        [IncomingCall 1%nat "Print" "hello";
                         IncomingCall 2%nat "PrintError" "oops"])
                     ++ [error_message (BusError "no reply") +:+ newline] |} ops.
Proof.
  apply (command_line_round_trip example_impl 5%nat "/org/example/App" ["arg0"; "arg1"]%string
           [] 8 _ (Failed (BusError "no reply")) [] {| stdout := []; stderr := [] |}).
  - reflexivity.
  - reflexivity.
  - lia.
  - constructor; [left; reflexivity|]. constructor; [right; reflexivity|]. constructor.
Defined.

(** The fourth scenario seen from the remote: "hello" on stdout, "oops" on
    stderr, and 42 returned. *)
Example round_trip_42 :
  exists ops,
    g_application_impl_command_line example_impl ["arg0"; "arg1"]%string [] 8
      [IncomingCall 1%nat "Print" "hello"; IncomingCall 2%nat "PrintError" "oops";
       CallFinished (Ok 42)]
      {| stdout := []; stderr := [] |}
    = Returned 42 {| stdout := ["hello"%string]; stderr := ["oops"%string] |} ops.
Proof. eexists. reflexivity. Qed.

(** *** The shape of a derived path *)

Lemma dot_to_slash_not_dot c : dot_to_slash c <> "."%char.
Proof.
  unfold dot_to_slash. destruct (Ascii.eqb_spec c "."); [discriminate|assumption].
Qed.

(** X1.  Whatever the application id, the derived object path starts with a
    slash, is one character longer than the id, and contains neither a dot
    nor a NUL. *)
Theorem application_path_has_no_dot (mem : list ascii) :
  head (application_path_from_appid mem) = Some "/"%char /\
  length (application_path_from_appid mem) = S (length (c_str mem)) /\
  Forall (fun c => c <> "."%char /\ c <> NUL) (application_path_from_appid mem).
Proof.
  rewrite application_path_is_spec_path. unfold spec_path.
  split; [reflexivity|]. split; [cbn; now rewrite length_map|].
  constructor; [split; discriminate|].
  pose proof (c_str_nul_free mem) as H.
  induction H as [|c s Hc _ IH]; cbn; constructor; [|exact IH].
  split; [apply dot_to_slash_not_dot|now apply dot_to_slash_not_nul].
Qed.

(** *** What a registration returns, and its destruction *)

Section LifetimeFacts.
Variables G_APPLICATION_IS_SERVICE G_APPLICATION_IS_LAUNCHER : Z.

Abbreviation register :=
  (g_application_impl_register G_APPLICATION_IS_SERVICE G_APPLICATION_IS_LAUNCHER).

Ltac register_cases bus flags :=
  unfold g_application_impl_register;
  destruct (bus_get_sync bus) as [conn0|e0];
  [destruct (has_flag flags G_APPLICATION_IS_LAUNCHER) eqn:Hlauncher;
   [|destruct (register_object bus) as [oid|e1] eqn:Hobj;
     [destruct (oid =? 0) eqn:Hoid;
      [|destruct (request_name bus) as [rval|e2] eqn:Hreq;
        [destruct (rval =? 3) eqn:Hrval;
         [destruct (has_flag flags G_APPLICATION_IS_SERVICE) eqn:Hservice|]|]]
     |cbn [Z.eqb]]]
  |].

(** X2.  A registration that is returned comes with no error, holds the
    connection the bus gave, the id as bus name, the derived path and the
    application, and has its dispatcher published exactly when it is not a
    remote.  A registration that fails sets an error, unless the facade
    returned object id 0 without one, and leaves [is_remote] as it was,
    unless the name exists and the service flag is set. *)
Theorem register_result_is_coherent bus application appid flags is_remote :
  (forall impl,
      reg_impl (register bus application appid flags is_remote) = Some impl ->
      reg_error (register bus application appid flags is_remote) = None /\
      (exists conn, bus_get_sync bus = Ok conn /\ session_bus impl = Some conn) /\
      bus_name impl = appid /\
      object_path impl = Some (path_of_appid appid) /\
      app impl = application /\
      (reg_is_remote (register bus application appid flags is_remote) = true
       <-> object_id impl = 0)) /\
  (reg_impl (register bus application appid flags is_remote) = None ->
   (reg_error (register bus application appid flags is_remote) = None ->
    register_object bus = Ok 0) /\
   (reg_is_remote (register bus application appid flags is_remote) <> is_remote ->
    request_name bus = Ok 3 /\ has_flag flags G_APPLICATION_IS_SERVICE = true)).
Proof.
  register_cases bus flags; cbn [reg_impl reg_error reg_is_remote];
    (split; [intros impl [= <-]; cbn | intros Hnone; try discriminate Hnone]);
    rewrite ?Z.eqb_eq, ?Z.eqb_neq in *;
    repeat match goal with
           | |- _ /\ _ => split
           | |- _ <-> _ => split
           | |- _ -> _ => intro
           | |- exists _, _ => eexists
           end;
    try reflexivity; try discriminate; try contradiction; try congruence.
Qed.

(** X3.  Once the bus is obtained, a registration followed by the
    destruction of what it returned, or the registration alone when it
    returns nothing, releases the connection exactly once, as the last thing
    it does, and unpublishes the dispatcher exactly once if it was published
    and never otherwise; the destruction trips over none of its
    assertions. *)
Theorem register_then_destroy_releases bus application appid flags is_remote conn :
  bus_get_sync bus = Ok conn ->
  (forall impl,
      reg_impl (register bus application appid flags is_remote) = Some impl ->
      is_Some (g_application_impl_destroy impl)) /\
  List.filter is_connection_unref
    (lifetime_ops (register bus application appid flags is_remote))
  = [OpConnectionUnref conn] /\
  last (lifetime_ops (register bus application appid flags is_remote))
  = Some (OpConnectionUnref conn) /\
  List.filter is_unregister
    (lifetime_ops (register bus application appid flags is_remote))
  = if has_flag flags G_APPLICATION_IS_LAUNCHER then []
    else match register_object bus with
         | Ok oid => if oid =? 0 then [] else [OpUnregisterObject conn oid]
         | Failed _ => []
         end.
Proof.
  intros Hbus. unfold lifetime_ops, g_application_impl_destroy.
  register_cases bus flags; try discriminate Hbus; injection Hbus as ->;
    cbn [reg_impl reg_ops session_bus object_id Z.eqb];
    rewrite ?Hoid;
    (split; [intros impl E; try discriminate E; injection E as <-;
             cbn [session_bus]; eexists; reflexivity|]);
    cbn; rewrite ?Hoid; repeat split.
Qed.

End LifetimeFacts.

Lemma register_then_destroy_releases_witness :
  (forall impl,
      reg_impl (g_application_impl_register 1 2 (example_bus 1) 0%nat "org.example.App" 0 false)
      = Some impl ->
      is_Some (g_application_impl_destroy impl)) /\
  List.filter is_connection_unref
    (lifetime_ops (g_application_impl_register 1 2 (example_bus 1) 0%nat
                     "org.example.App" 0 false))
  = [OpConnectionUnref 5%nat] /\
  last (lifetime_ops (g_application_impl_register 1 2 (example_bus 1) 0%nat
                        "org.example.App" 0 false))
  = Some (OpConnectionUnref 5%nat) /\
  List.filter is_unregister
    (lifetime_ops (g_application_impl_register 1 2 (example_bus 1) 0%nat
                     "org.example.App" 0 false))
  = if has_flag 0 2 then []
    else match register_object (example_bus 1) with
         | Ok oid => if oid =? 0 then [] else [OpUnregisterObject 5%nat oid]
         | Failed _ => []
         end.
Proof.
  apply (register_then_destroy_releases 1 2 (example_bus 1) 0%nat "org.example.App" 0 false
           5%nat).
  reflexivity.
Defined.

(** *** The order of a registration *)

Section OrderFacts.
Variables G_APPLICATION_IS_SERVICE G_APPLICATION_IS_LAUNCHER : Z.

Abbreviation register :=
  (g_application_impl_register G_APPLICATION_IS_SERVICE G_APPLICATION_IS_LAUNCHER).

(** X4.  A registration that asks the bus for a name is not one of a
    launcher; it asks for the application id, with the do-not-queue flag 4,
    once, on the connection the bus gave, and only after it has published the
    dispatcher at the derived path on that connection. *)
Theorem name_is_requested_after_publication
    bus application appid flags is_remote conn name request_flags :
  In (OpRequestName conn name request_flags)
     (reg_ops (register bus application appid flags is_remote)) ->
  has_flag flags G_APPLICATION_IS_LAUNCHER = false /\
  bus_get_sync bus = Ok conn /\
  name = appid /\ request_flags = 4 /\
  (exists oid, register_object bus = Ok oid /\ oid <> 0) /\
  exists after,
    reg_ops (register bus application appid flags is_remote)
    = [OpBusGetSync;
       OpRegisterObject conn (path_of_appid appid) "org.gtk.Application";
       OpRequestName conn appid 4] ++ after /\
    Forall (fun op => match op with OpRequestName _ _ _ => False | _ => True end) after.
Proof.
  unfold g_application_impl_register.
  destruct (bus_get_sync bus) as [conn0|e0];
    [|intros [E|[]]; discriminate E].
  destruct (has_flag flags G_APPLICATION_IS_LAUNCHER);
    [intros [E|[]]; discriminate E|].
  destruct (register_object bus) as [oid|e1];
    [|cbn; intros [E|[E|[E|[]]]]; discriminate E].
  destruct (oid =? 0) eqn:Hoid;
    [cbn; intros [E|[E|[E|[]]]]; discriminate E|].
  apply Z.eqb_neq in Hoid.
  assert (Hgoal : forall after,
             Forall (fun op => match op with OpRequestName _ _ _ => False | _ => True end)
                    after ->
             In (OpRequestName conn name request_flags)
                ([OpBusGetSync;
                  OpRegisterObject conn0 (path_of_appid appid) "org.gtk.Application";
                  OpRequestName conn0 appid 4] ++ after) ->
             false = false /\ Ok conn0 = Ok conn /\ name = appid /\ request_flags = 4 /\
             (exists oid0, Ok oid = Ok oid0 /\ oid0 <> 0) /\
             exists after0,
               [OpBusGetSync;
                OpRegisterObject conn0 (path_of_appid appid) "org.gtk.Application";
                OpRequestName conn0 appid 4] ++ after
               = [OpBusGetSync;
                  OpRegisterObject conn (path_of_appid appid) "org.gtk.Application";
                  OpRequestName conn appid 4] ++ after0 /\
               Forall (fun op => match op with OpRequestName _ _ _ => False | _ => True end)
                      after0).
  { intros after Hafter [E|[E|[E|Hin]]]; try discriminate E.
    - injection E as -> -> ->. repeat split; eauto.
    - exfalso. exact (proj1 (List.Forall_forall _ _) Hafter _ Hin). }
  destruct (request_name bus) as [rval|e2];
    [destruct (rval =? 3); [destruct (has_flag flags G_APPLICATION_IS_SERVICE)|]|];
    cbn [reg_ops app]; intros Hin.
  - apply (Hgoal [OpUnregisterObject conn0 oid; OpConnectionUnref conn0]);
      [repeat constructor|exact Hin].
  - apply (Hgoal [OpUnregisterObject conn0 oid]); [repeat constructor|exact Hin].
  - apply (Hgoal []); [constructor|exact Hin].
  - apply (Hgoal [OpUnregisterObject conn0 oid; OpConnectionUnref conn0]);
      [repeat constructor|exact Hin].
Qed.

End OrderFacts.

Lemma name_is_requested_after_publication_witness :
  has_flag 0 2 = false /\
  bus_get_sync (example_bus 3) = Ok 5%nat /\
  "org.example.App"%string = "org.example.App"%string /\ 4 = 4 /\
  (exists oid, register_object (example_bus 3) = Ok oid /\ oid <> 0) /\
  exists after,
    reg_ops (g_application_impl_register 1 2 (example_bus 3) 0%nat "org.example.App" 0 false)
    = [OpBusGetSync;
       OpRegisterObject 5%nat (path_of_appid "org.example.App") "org.gtk.Application";
       OpRequestName 5%nat "org.example.App" 4] ++ after /\
    Forall (fun op => match op with OpRequestName _ _ _ => False | _ => True end) after.
Proof.
  apply (name_is_requested_after_publication 1 2 (example_bus 3) 0%nat "org.example.App" 0
           false 5%nat "org.example.App" 4).
  vm_compute. right. right. left. reflexivity.
Defined.

(** *** Requests of a remote, as the primary receives them *)

Lemma open_loop_takes files : forall count i builder,
  (i <= length files)%nat ->
  open_loop count i files builder
  = if decide (i + count <= length files)%nat
    then Some (builder ++ take count (drop i files)) else None.
Proof.
  induction count as [|count IH]; intros i builder Hi; cbn [open_loop].
  - rewrite take_0, app_nil_r. case_decide; [reflexivity|lia].
  - destruct (files !! i) as [uri|] eqn:Hlook.
    + pose proof (lookup_lt_Some _ _ _ Hlook) as Hlt.
      rewrite IH by lia.
      rewrite (drop_S _ _ _ Hlook). cbn [take]. rewrite <- app_assoc. cbn [app].
      repeat case_decide; try reflexivity; lia.
    + apply lookup_ge_None in Hlook. case_decide; [lia|reflexivity].
Qed.

(** X5.  What a remote sends with [g_application_impl_activate] and
    [g_application_impl_open] goes to the application's bus name and derived
    path, and the primary's dispatcher turns it into the hooks and the signal
    in order: for Open, with [n_files] no larger than the array, the signal
    carries the first [n_files] files in order, their number (none when
    [n_files] is negative) and the hint. *)
Theorem remote_requests_reach_primary application impl conn path files n_files hint pd inv :
  session_bus impl = Some conn ->
  object_path impl = Some path ->
  n_files <= Z.of_nat (length files) ->
  (exists call,
     g_application_impl_activate impl pd = Some call /\
     mc_connection call = conn /\ mc_destination call = bus_name impl /\
     mc_path call = path /\ mc_interface call = "org.gtk.Application"%string /\
     g_application_impl_method_call application (mc_method call) (mc_parameters call) inv
     = Some {| app_calls := [BeforeEmit pd; SignalActivate; AfterEmit pd];
               channel := None |}) /\
  (exists call,
     g_application_impl_open impl files n_files hint pd = Some call /\
     mc_connection call = conn /\ mc_destination call = bus_name impl /\
     mc_path call = path /\ mc_interface call = "org.gtk.Application"%string /\
     g_application_impl_method_call application (mc_method call) (mc_parameters call) inv
     = Some {| app_calls := [BeforeEmit pd;
                             SignalOpen (take (Z.to_nat n_files) files)
                                        (Z.max 0 n_files) hint;
                             AfterEmit pd];
               channel := None |}).
Proof.
  intros Hbus Hpath Hn. unfold g_application_impl_activate, g_application_impl_open.
  rewrite Hbus, Hpath, open_loop_takes by lia.
  change ([] ++ take (Z.to_nat n_files) (drop 0 files))
    with (take (Z.to_nat n_files) files).
  change (0 + Z.to_nat n_files)%nat with (Z.to_nat n_files).
  split; [eexists; repeat split|].
  case_decide; [|lia]. eexists. repeat split.
  cbn [mc_method mc_parameters g_application_impl_method_call
       String.eqb Ascii.eqb Bool.eqb].
  assert (E : Z.of_nat (length (take (Z.to_nat n_files) files)) = Z.max 0 n_files)
    by (rewrite length_take; lia).
  now rewrite E.
Qed.

Lemma remote_requests_reach_primary_witness :
  (exists call,
     g_application_impl_activate example_impl [] = Some call /\
     mc_connection call = 5%nat /\ mc_destination call = bus_name example_impl /\
     mc_path call = "/org/example/App"%string /\
     mc_interface call = "org.gtk.Application"%string /\
     g_application_impl_method_call example_application (mc_method call) (mc_parameters call)
       example_invocation
     = Some {| app_calls := [BeforeEmit []; SignalActivate; AfterEmit []];
               channel := None |}) /\
  (exists call,
     g_application_impl_open example_impl ["file:///a"; "file:///b"; "file:///c"]%string 2
       "edit" [] = Some call /\
     mc_connection call = 5%nat /\ mc_destination call = bus_name example_impl /\
     mc_path call = "/org/example/App"%string /\
     mc_interface call = "org.gtk.Application"%string /\
     g_application_impl_method_call example_application (mc_method call) (mc_parameters call)
       example_invocation
     = Some {| app_calls := [BeforeEmit [];
                             SignalOpen (take (Z.to_nat 2)
                                           ["file:///a"; "file:///b"; "file:///c"]%string)
                                        (Z.max 0 2) "edit";
                             AfterEmit []];
               channel := None |}).
Proof.
  apply (remote_requests_reach_primary example_application example_impl 5%nat
           "/org/example/App" ["file:///a"; "file:///b"; "file:///c"]%string 2 "edit" []
           example_invocation); [reflexivity|reflexivity|cbn; lia].
Defined.

(** *** The private loop of the remote *)

(** The loop serves a run of Print and PrintError calls and goes on with
    what follows. *)
Lemma main_loop_serves before : Forall is_print before ->
  forall rest io ops,
    g_main_loop_run (before ++ rest) io ops
    = g_main_loop_run rest
        {| stdout := stdout io ++ printed "Print" before;
           stderr := stderr io ++ printed "PrintError" before |}
        (ops ++ empty_replies before).
Proof.
  induction 1 as [|e before He _ IH]; intros rest io ops.
  - cbn [app printed empty_replies]. rewrite !app_nil_r. now destruct io.
  - destruct e as [inv m message|]; [|contradiction].
    change ((IncomingCall inv m message :: before) ++ rest)
      with (IncomingCall inv m message :: (before ++ rest)).
    cbn [g_main_loop_run empty_replies printed].
    unfold g_application_impl_cmdline_method_call.
    destruct He as [-> | ->].
    + change (String.eqb "Print" "Print") with true.
      change (String.eqb "Print" "PrintError") with false. cbv iota.
      rewrite IH. cbn [stdout stderr]. now rewrite <- !app_assoc.
    + change (String.eqb "PrintError" "Print") with false.
      change (String.eqb "PrintError" "PrintError") with true. cbv iota.
      rewrite IH. cbn [stdout stderr]. now rewrite <- !app_assoc.
Qed.

(** X6.  While the private loop has only dispatched Print and PrintError
    calls it is still waiting.  When the reply then arrives the loop returns,
    having answered each of those calls with one empty reply, in order, and
    without dispatching anything that comes later.  When a call of any other
    method arrives instead, the process aborts. *)
Theorem main_loop_outcomes before io ops :
  Forall is_print before ->
  g_main_loop_run before io ops = Blocked /\
  (forall result after,
      exists status io',
        g_main_loop_run (before ++ CallFinished result :: after) io ops
        = Returned status io' (ops ++ empty_replies before)) /\
  (forall inv method_name message rest,
      method_name <> "Print"%string -> method_name <> "PrintError"%string ->
      g_main_loop_run (before ++ IncomingCall inv method_name message :: rest) io ops
      = Aborted).
Proof.
  intros Hbefore. split; [|split].
  - rewrite <- (app_nil_r before). now rewrite main_loop_serves.
  - intros result after. rewrite main_loop_serves by assumption.
    cbn [g_main_loop_run]. destruct (g_application_impl_cmdline_done _ _) as [status io'].
    now exists status, io'.
  - intros inv m message rest Hp He. rewrite main_loop_serves by assumption.
    cbn [g_main_loop_run]. unfold g_application_impl_cmdline_method_call.
    apply String.eqb_neq in Hp, He. now rewrite Hp, He.
Qed.

Lemma main_loop_outcomes_witness :
  g_main_loop_run [IncomingCall 1%nat "Print" "hello"; IncomingCall 2%nat "PrintError" "oops"]
    {| stdout := []; stderr := [] |} [] = Blocked /\
  (forall result after,
      exists status io',
        g_main_loop_run
          ([IncomingCall 1%nat "Print" "hello"; IncomingCall 2%nat "PrintError" "oops"]
             ++ CallFinished result :: after)
          {| stdout := []; stderr := [] |} []
        = Returned status io'
            ([] ++ empty_replies [IncomingCall 1%nat "Print" "hello";
                                  IncomingCall 2%nat "PrintError" "oops"])) /\
  (forall inv method_name message rest,
      method_name <> "Print"%string -> method_name <> "PrintError"%string ->
      g_main_loop_run
        ([IncomingCall 1%nat "Print" "hello"; IncomingCall 2%nat "PrintError" "oops"]
           ++ IncomingCall inv method_name message :: rest)
        {| stdout := []; stderr := [] |} []
      = Aborted).
Proof.
  apply (main_loop_outcomes
           [IncomingCall 1%nat "Print" "hello"; IncomingCall 2%nat "PrintError" "oops"]
           {| stdout := []; stderr := [] |} []).
  constructor; [left; reflexivity|]. constructor; [right; reflexivity|]. constructor.
Defined.

(** *** The status a channel replies with *)





(** *** From the handler at the primary to the streams of the remote *)

Lemma print_calls_set_exit_status c s acts :
  print_calls (g_application_command_line_set_exit_status c s) acts = print_calls c acts.
Proof.
  induction acts as [|a acts IH]; [reflexivity|].
  destruct a; cbn [print_calls]; rewrite IH; reflexivity.
Qed.






(** *** The life of a channel *)

Lemma print_calls_app c l1 l2 :
  print_calls c (l1 ++ l2) = print_calls c l1 ++ print_calls c l2.
Proof.
  induction l1 as [|a l1 IH]; [reflexivity|].
  destruct a; simpl; rewrite IH; reflexivity.
Qed.

Lemma print_calls_with_ref_count n c acts :
  print_calls (with_ref_count n c) acts = print_calls c acts.
Proof.
  induction acts as [|a acts IH]; [reflexivity|].
  destruct a; cbn [print_calls]; rewrite IH; reflexivity.
Qed.

Lemma status_after_app s l1 s' l2 :
  status_after s (l1 ++ AppSetExitStatus s' :: l2) = status_after s' l2.
Proof.
  revert s. induction l1 as [|a l1 IH]; intros s; [reflexivity|].
  destruct a; simpl; apply IH.
Qed.

Lemma references_nonnegative l : forall n, 0 <= n -> proper n l -> 0 <= references n l.
Proof.
  induction l as [|a l IH]; intros n Hn Hp; [exact Hn|].
  destruct Hp as [Hpos Hp]. cbn [references]. apply IH; [|exact Hp].
  destruct a; cbn; lia.
Qed.

(** A live channel under actions that find it alive: it is destroyed by the
    action that releases the last reference, which is then the last, and
    what it sends is its prints and, when destroyed, the reply and the
    release of the invocation. *)
Lemma proper_actions acts : forall ch,
  finalized ch = false -> 0 < ref_count (chan ch) ->
  proper (ref_count (chan ch)) acts ->
  (finalized (app_actions ch acts) = true <-> references (ref_count (chan ch)) acts = 0) /\
  exit_status (chan (app_actions ch acts)) = status_after (exit_status (chan ch)) acts /\
  chan_ops (app_actions ch acts)
  = chan_ops ch ++ print_calls (chan ch) acts
    ++ (if references (ref_count (chan ch)) acts =? 0
        then [OpReturnValue (inv_id (invocation (chan ch)))
                            (ExitStatus (status_after (exit_status (chan ch)) acts));
              OpInvocationUnref (inv_id (invocation (chan ch)))]
        else []).
Proof.
  unfold app_actions.
  induction acts as [|a acts IH]; intros ch Hlive Hpos Hproper.
  - cbn [fold_left references status_after print_calls app].
    destruct (Z.eqb_spec (ref_count (chan ch)) 0) as [E|_]; [lia|].
    rewrite app_nil_r, Hlive. repeat split; try discriminate. lia.
  - destruct Hproper as [_ Hproper]. cbn [fold_left references].
    destruct a as [| |s|m|m]; cbn [app_action reference_change status_after print_calls] in *.
    + unfold g_object_ref. rewrite Hlive.
      match goal with |- context [fold_left app_action acts ?x] =>
        destruct (IH x eq_refl) as (Hfin & Hstatus & Hops);
        [cbn; lia|exact Hproper|] end.
      cbn [chan ref_count with_ref_count exit_status invocation chan_ops] in *.
      rewrite print_calls_with_ref_count in Hops.
      split; [exact Hfin|]. split; [exact Hstatus|exact Hops].
    + unfold g_object_unref. rewrite Hlive. cbn [chan ref_count with_ref_count].
      destruct (Z.eqb_spec (ref_count (chan ch) - 1) 0) as [E|E].
      * replace (ref_count (chan ch) + -1) with 0 in * by lia.
        destruct acts as [|b acts]; [|destruct Hproper as [Hb _]; lia].
        cbn. repeat split.
      * match goal with |- context [fold_left app_action acts ?x] =>
          destruct (IH x eq_refl) as (Hfin & Hstatus & Hops);
          [cbn; lia|exact Hproper|] end.
        cbn [chan ref_count with_ref_count exit_status invocation chan_ops] in *.
        rewrite print_calls_with_ref_count in Hops.
        split; [exact Hfin|]. split; [exact Hstatus|exact Hops].
    + unfold set_exit_status. rewrite Hlive.
      match goal with |- context [fold_left app_action acts ?x] =>
        destruct (IH x eq_refl) as (Hfin & Hstatus & Hops);
        [cbn; lia|rewrite Z.add_0_r in Hproper; exact Hproper|] end.
      cbn [chan ref_count exit_status invocation chan_ops
           g_application_command_line_set_exit_status] in *.
      rewrite print_calls_set_exit_status in Hops. rewrite Z.add_0_r.
      split; [exact Hfin|]. split; [exact Hstatus|exact Hops].
    + rewrite Hlive.
      match goal with |- context [fold_left app_action acts ?x] =>
        destruct (IH x Hlive) as (Hfin & Hstatus & Hops);
        [exact Hpos|rewrite Z.add_0_r in Hproper; exact Hproper|] end.
      cbn [chan ref_count exit_status invocation chan_ops
           g_dbus_command_line_print_literal] in *.
      rewrite Z.add_0_r. split; [exact Hfin|]. split; [exact Hstatus|].
      rewrite Hops, <- !app_assoc. reflexivity.
    + rewrite Hlive.
      match goal with |- context [fold_left app_action acts ?x] =>
        destruct (IH x Hlive) as (Hfin & Hstatus & Hops);
        [exact Hpos|rewrite Z.add_0_r in Hproper; exact Hproper|] end.
      cbn [chan ref_count exit_status invocation chan_ops
           g_dbus_command_line_printerr_literal] in *.
      rewrite Z.add_0_r. split; [exact Hfin|]. split; [exact Hstatus|].
      rewrite Hops, <- !app_assoc. reflexivity.
Qed.

(** C7.  The channel of a dispatched CommandLine call, followed through its
    whole life: what the handler of the signal does with it, the dispatcher's
    own two steps, and what the application does with it later, the channel
    being used only while a reference to it exists.  The channel is destroyed
    exactly when its last reference is released.  What it has asked of the
    bus is the reference on the invocation, one call per print, and, once it
    is destroyed and not before, exactly one reply, carrying the exit status
    it held at that moment, on the original invocation, followed by the
    release of that invocation; nothing comes after. *)
Theorem command_line_channel_replies_once
    application parameters inv c0 acts status d ch later :
  g_dbus_command_line_new inv = Some c0 ->
  command_line_handler application (chan c0) = (acts, status) ->
  g_application_impl_method_call application "CommandLine" parameters inv = Some d ->
  channel d = Some ch ->
  proper 1 (life acts status later) ->
  (finalized (app_actions ch later) = true <-> references 1 (life acts status later) = 0) /\
  exit_status (chan (app_actions ch later)) = status_after status later /\
  chan_ops (app_actions ch later)
  = [OpInvocationRef (inv_id inv)] ++ print_calls (chan c0) (acts ++ later)
    ++ (if references 1 (life acts status later) =? 0
        then [OpReturnValue (inv_id inv) (ExitStatus (status_after status later));
              OpInvocationUnref (inv_id inv)]
        else []).
Proof.
  intros Hnew Hhandler Hd Hch Hproper.
  assert (Hlife : app_actions ch later = app_actions c0 (life acts status later)).
  { revert Hd Hch. unfold g_application_impl_method_call.
    cbn [String.eqb Ascii.eqb Bool.eqb]. rewrite Hnew.
    destruct parameters; try discriminate. rewrite Hhandler.
    intros [= <-]. cbn [channel]. intros [= <-].
    unfold life, app_actions. rewrite !fold_left_app. reflexivity. }
  assert (Hc0 : finalized c0 = false /\ ref_count (chan c0) = 1 /\
                exit_status (chan c0) = 0 /\ invocation (chan c0) = inv /\
                chan_ops c0 = [OpInvocationRef (inv_id inv)]).
  { revert Hnew. unfold g_dbus_command_line_new.
    destruct (inv_parameters inv); try discriminate. intros [= <-]. repeat split. }
  destruct Hc0 as (Hlive & Hcount & Hstatus & Hinv & Hops).
  destruct (proper_actions (life acts status later) c0 Hlive) as (Hfin & Hs & Ho).
  { rewrite Hcount. lia. }
  { rewrite Hcount. exact Hproper. }
  assert (Hafter : status_after 0 (life acts status later) = status_after status later)
    by (change (life acts status later)
          with (acts ++ AppSetExitStatus status :: AppUnref :: later);
        rewrite status_after_app; reflexivity).
  assert (Hprints : print_calls (chan c0) (life acts status later)
                    = print_calls (chan c0) (acts ++ later))
    by (unfold life; rewrite !print_calls_app; reflexivity).
  rewrite Hcount in Hfin, Ho. rewrite Hstatus, Hafter in Hs, Ho.
  rewrite Hinv, Hops, Hprints in Ho. rewrite Hlife.
  split; [exact Hfin|]. split; [exact Hs|exact Ho].
Qed.

(** A handler that keeps a reference: the dispatcher's release does not
    destroy the channel; the application later sets the status 3, prints an
    error and releases its reference, and the reply then carries 3. *)
Lemma command_line_channel_replies_once_witness :
  exists c0 d ch,
    g_dbus_command_line_new example_invocation = Some c0 /\
    g_application_impl_method_call keeping_application "CommandLine"
      (inv_parameters example_invocation) example_invocation = Some d /\
    channel d = Some ch /\
    (finalized (app_actions ch [AppSetExitStatus 3; AppPrintErr "late"; AppUnref]) = true
     <-> references 1 (life [AppRef; AppPrint "hello"] 42
                            [AppSetExitStatus 3; AppPrintErr "late"; AppUnref]) = 0) /\
    exit_status (chan (app_actions ch [AppSetExitStatus 3; AppPrintErr "late"; AppUnref]))
    = status_after 42 [AppSetExitStatus 3; AppPrintErr "late"; AppUnref] /\
    chan_ops (app_actions ch [AppSetExitStatus 3; AppPrintErr "late"; AppUnref])
    = [OpInvocationRef (inv_id example_invocation)]
      ++ print_calls (chan c0) ([AppRef; AppPrint "hello"]
                                ++ [AppSetExitStatus 3; AppPrintErr "late"; AppUnref])
      ++ (if references 1 (life [AppRef; AppPrint "hello"] 42
                                [AppSetExitStatus 3; AppPrintErr "late"; AppUnref]) =? 0
          then [OpReturnValue (inv_id example_invocation)
                  (ExitStatus (status_after 42
                                 [AppSetExitStatus 3; AppPrintErr "late"; AppUnref]));
                OpInvocationUnref (inv_id example_invocation)]
          else []).
Proof.
  eexists. eexists. eexists.
  split; [reflexivity|]. split; [reflexivity|]. split; [reflexivity|].
  eapply (command_line_channel_replies_once keeping_application
            (inv_parameters example_invocation) example_invocation).
  - reflexivity.
  - reflexivity.
  - reflexivity.
  - reflexivity.
  - cbn. repeat split; lia.
Defined.

(** What that channel has asked of the bus by then. *)
Example keeping_application_trace :
  option_map (fun d => option_map
                (fun ch => let final := app_actions ch [AppSetExitStatus 3;
                                                        AppPrintErr "late"; AppUnref] in
                           (finalized ch, finalized final, chan_ops final))
                (channel d))
    (g_application_impl_method_call keeping_application "CommandLine"
       (inv_parameters example_invocation) example_invocation)
  = Some (Some (false, true,
       [OpInvocationRef 9%nat;
        OpCall 5%nat ":1.7" "/org/gtk/Application/CommandLine"
               "org.gtk.private.CommandLine" "Print" ["hello"%string];
        OpCall 5%nat ":1.7" "/org/gtk/Application/CommandLine"
               "org.gtk.private.CommandLine" "PrintError" ["late"%string];
        OpReturnValue 9%nat (ExitStatus 3);
        OpInvocationUnref 9%nat])).
Proof. reflexivity. Qed.

End ApplicationImplFacts.

(** ** Name watching *)
Module NameWatchingFacts.
Import NameWatching.

(** *** Alternation *)

Lemma alternates_tail a l : alternates (a :: l) -> alternates l.
Proof. destruct l; simpl; tauto. Qed.

Lemma alternates_snoc l x :
  alternates l -> last l <> Some x -> alternates (l ++ [x]).
Proof.
  induction l as [|a l IH]; intros Halt Hlast; [exact I|].
  destruct l as [|b l].
  - simpl in *. split; [congruence|exact I].
  - destruct Halt as [Hab Halt]. change (a <> b /\ alternates ((b :: l) ++ [x])).
    split; [exact Hab|]. apply IH; [exact Halt|exact Hlast].
Qed.

(** The recursive definition says what the words say. *)
Lemma alternates_consecutive l :
  alternates l <->
  forall (i : nat) a b, l !! i = Some a -> l !! S i = Some b -> a <> b.
Proof.
  induction l as [|x l IH]; [split; [intros _ i a b H; discriminate H|intros _; exact I]|].
  destruct l as [|y l].
  - split; [|intros _; exact I]. intros _ [|i] a b Ha Hb; discriminate Hb.
  - split.
    + intros [Hxy Halt] [|i] a b Ha Hb.
      * simpl in Ha, Hb. congruence.
      * apply (proj1 IH Halt i a b); assumption.
    + intros H. split.
      * apply (H 0%nat x y); reflexivity.
      * apply IH. intros i a b Ha Hb. apply (H (S i) a b); assumption.
Qed.

Lemma same_view_refl w : same_view w w.
Proof. repeat split. Qed.

Lemma same_view_trans w1 w2 w3 : same_view w1 w2 -> same_view w2 w3 -> same_view w1 w3.
Proof.
  unfold same_view. intros (?&?&?&?&?&?&?) (?&?&?&?&?&?&?).
  repeat split; congruence.
Qed.

Lemma good_same_view thr w w' : same_view w w' -> good thr w -> good thr w'.
Proof.
  intros (Hi & Hq & Hp & Hc & Ha & Hv & Hm) ((Hap & Hva) & (Halt & Hlast) & Hidle).
  unfold good, both_handlers, paced, idle_ok, delivered, queued.
  rewrite Hi, Hq, Hp, Hc, Ha, Hv, Hm. repeat split; assumption.
Qed.

Lemma view_effect e w : same_view w (effect e w).
Proof. repeat split. Qed.

Lemma view_client_ref w : same_view w (client_ref w).
Proof. repeat split. Qed.

Lemma view_client_finalize w : same_view w (client_finalize w).
Proof.
  unfold client_finalize.
  destruct (connection (client w)), (user_data_free_func (client w)); repeat split.
Qed.

Lemma view_client_unref w : same_view w (client_unref w).
Proof.
  unfold client_unref.
  destruct (ref_count _ =? 0); [|repeat split].
  eapply same_view_trans; [|apply view_client_finalize]. repeat split.
Qed.

Lemma view_invoke_get_name_owner w : same_view w (invoke_get_name_owner w).
Proof. repeat split. Qed.

Lemma view_set_in_flight l w : same_view w (set_in_flight l w).
Proof. repeat split. Qed.

Lemma last_snoc_call (l : list CallType) x : last (l ++ [x]) = Some x.
Proof. apply last_snoc. Qed.

(** Deciding a call of kind [k], delivered at once or queued behind an empty
    queue, keeps the invariant. *)
Lemma good_do_call thr w k :
  both_handlers w ->
  idle_ok thr w ->
  previous_call (client w) = as_previous (Some k) ->
  alternates (delivered w ++ queued w) ->
  last (delivered w ++ queued w) <> Some k ->
  good thr (do_call thr w k).
Proof.
  intros (Hap & Hva) Hidle Hprev Halt Hneq.
  unfold do_call. case_bool_decide as Hthr.
  - (* another thread: an idle source is queued *)
    split; [split; assumption|]. split.
    + unfold paced, delivered, queued. cbn.
      rewrite map_app, app_assoc. cbn [map call_type]. split.
      * apply alternates_snoc; assumption.
      * intros _. rewrite last_snoc_call. symmetry. exact Hprev.
    + intros E. cbn in E. contradiction.
  - (* the watcher's own context: the handler is invoked *)
    assert (Hthr' : thr = main_context (client w))
      by (destruct (decide (thr = main_context (client w))); tauto).
    specialize (Hidle Hthr').
    assert (Hinv : exists c, kind c = k /\
              actually_do_call w (connection (client w)) (name_owner (client w)) k
              = invoke c w).
    { unfold actually_do_call. destruct k.
      - destruct Hap as [h Hh]. rewrite Hh. eexists. split; [|reflexivity]. reflexivity.
      - destruct Hva as [h Hh]. rewrite Hh. eexists. split; [|reflexivity]. reflexivity. }
    destruct Hinv as (c & Hk & ->).
    split; [split; assumption|]. split.
    + unfold paced, delivered, queued in *. cbn. rewrite Hidle in *. cbn in *.
      rewrite app_nil_r in *. rewrite map_app. cbn [map]. rewrite Hk. split.
      * apply alternates_snoc; assumption.
      * intros _. rewrite last_snoc_call. symmetry. exact Hprev.
    + intros _. exact Hidle.
Qed.

Lemma good_call_appeared thr w :
  good thr w -> good thr (call_appeared_handler thr w).
Proof.
  intros Hgood. unfold call_appeared_handler.
  case_bool_decide as Hprev; [|assumption].
  destruct Hgood as (Hh & (Halt & Hlast) & Hidle).
  cbn [client on_client cancelled set_previous_call name_appeared_handler].
  destruct (cancelled (client w)) eqn:Hc; cbn [negb andb].
  - split; [exact Hh|]. split; [|exact Hidle].
    split; [exact Halt|]. cbn. rewrite Hc. discriminate.
  - case_bool_decide as Hnull; [|destruct Hh as [[h Hh] _]; congruence].
    apply good_do_call; try assumption; [reflexivity|].
    intros E. apply Hprev. rewrite <- (Hlast eq_refl).
    change (delivered (on_client (set_previous_call PREVIOUS_CALL_APPEARED) w)
            ++ queued (on_client (set_previous_call PREVIOUS_CALL_APPEARED) w))
      with (delivered w ++ queued w) in E.
    now rewrite E.
Qed.

Lemma good_call_vanished thr w :
  good thr w -> good thr (call_vanished_handler thr w false).
Proof.
  intros Hgood. unfold call_vanished_handler.
  case_bool_decide as Hprev; [|assumption].
  destruct Hgood as (Hh & (Halt & Hlast) & Hidle).
  cbn [client on_client cancelled set_previous_call name_vanished_handler].
  rewrite orb_false_r.
  destruct (cancelled (client w)) eqn:Hc; cbn [negb andb].
  - split; [exact Hh|]. split; [|exact Hidle].
    split; [exact Halt|]. cbn. rewrite Hc. discriminate.
  - case_bool_decide as Hnull; [|destruct Hh as [_ [h Hh]]; congruence].
    apply good_do_call; try assumption; [reflexivity|].
    intros E. apply Hprev. rewrite <- (Hlast eq_refl).
    change (delivered (on_client (set_previous_call PREVIOUS_CALL_VANISHED) w)
            ++ queued (on_client (set_previous_call PREVIOUS_CALL_VANISHED) w))
      with (delivered w ++ queued w) in E.
    now rewrite E.
Qed.


Lemma good_on_connection_disconnected thr w :
  good thr w -> good thr (on_connection_disconnected thr w).
Proof.
  intros H. unfold on_connection_disconnected.
  apply good_call_vanished. revert H. apply good_same_view. repeat split.
Qed.

Lemma good_on_name_owner_changed thr sender path iface n old new w :
  good thr w -> good thr (on_name_owner_changed thr sender path iface n old new w).
Proof.
  intros H. unfold on_name_owner_changed.
  destruct (negb (initialized (client w))); [assumption|].
  destruct (_ || _); [assumption|].
  destruct (negb (String.eqb n _)); [assumption|].
  set (w1 := if nonempty old && bool_decide (name_owner (client w) <> None)
             then call_vanished_handler thr (on_client (set_name_owner None) w) false
             else w).
  assert (H1 : good thr w1).
  { subst w1. destruct (_ && _); [|assumption].
    apply good_call_vanished. revert H. apply good_same_view. repeat split. }
  destruct (nonempty new); [|assumption].
  apply good_call_appeared. revert H1. apply good_same_view.
  destruct (bool_decide (name_owner (client w1) = None)); repeat split.
Qed.

Lemma good_get_name_owner_cb thr res w :
  good thr w -> good thr (get_name_owner_cb thr res w).
Proof.
  intros H. unfold get_name_owner_cb.
  eapply good_same_view; [apply view_client_unref|].
  eapply good_same_view; [apply (same_view_refl (on_client (set_initialized true) _))|].
  destruct res as [owner|].
  - eapply good_same_view with (w := call_appeared_handler thr _); [repeat split|].
    apply good_call_appeared. revert H. apply good_same_view.
    destruct (bool_decide (name_owner (client w) = None)); repeat split.
  - eapply good_same_view with (w := call_vanished_handler thr w false); [repeat split|].
    now apply good_call_vanished.
Qed.

Lemma good_start_service_by_name_cb thr res w :
  good thr w -> good thr (start_service_by_name_cb thr res w).
Proof.
  intros H. unfold start_service_by_name_cb.
  eapply good_same_view; [apply view_client_unref|].
  destruct res as [r|].
  - destruct (r =? 1); [|destruct (r =? 2)].
    + revert H. apply good_same_view, view_invoke_get_name_owner.
    + revert H. apply good_same_view, view_invoke_get_name_owner.
    + eapply good_same_view with (w := call_vanished_handler thr _ false); [repeat split|].
      apply good_call_vanished. revert H. apply good_same_view, view_effect.
  - revert H. apply good_same_view, view_invoke_get_name_owner.
Qed.

(** *** Callbacks that invoke nothing *)

Lemma extends_same_view w w' : same_view w w' -> extends w w'.
Proof.
  intros (Hi & _ & _ & _ & Ha & Hv & Hm). split; [|repeat split; assumption].
  exists []. now rewrite app_nil_r.
Qed.

Lemma extends_trans w1 w2 w3 : extends w1 w2 -> extends w2 w3 -> extends w1 w3.
Proof.
  intros ([l1 H1] & Ha1 & Hv1 & Hm1) ([l2 H2] & Ha2 & Hv2 & Hm2).
  split; [|repeat split; congruence].
  exists (l1 ++ l2). now rewrite H2, H1, app_assoc.
Qed.

Ltac same_invoked :=
  split; [exists []; cbn; now rewrite app_nil_r | repeat split].

Lemma extends_do_call thr w k : extends w (do_call thr w k).
Proof.
  unfold do_call. case_bool_decide.
  - same_invoked.
  - unfold actually_do_call. destruct k.
    + destruct (name_appeared_handler (client w)); [|apply extends_same_view, same_view_refl].
      split; [eexists; reflexivity|repeat split].
    + destruct (name_vanished_handler (client w)); [|apply extends_same_view, same_view_refl].
      split; [eexists; reflexivity|repeat split].
Qed.

Lemma extends_call_appeared thr w : extends w (call_appeared_handler thr w).
Proof.
  unfold call_appeared_handler.
  case_bool_decide; [|apply extends_same_view, same_view_refl].
  destruct (_ && _).
  - eapply extends_trans; [|apply extends_do_call]. same_invoked.
  - same_invoked.
Qed.

Lemma extends_call_vanished thr w b : extends w (call_vanished_handler thr w b).
Proof.
  unfold call_vanished_handler.
  case_bool_decide; [|apply extends_same_view, same_view_refl].
  destruct (_ && _).
  - eapply extends_trans; [|apply extends_do_call]. same_invoked.
  - same_invoked.
Qed.

(** If nothing was invoked between [w1] and [w3], nothing was between [w1]
    and [w2], nor between [w2] and [w3]. *)
Lemma extends_calm w1 w2 w3 :
  extends w1 w2 -> extends w2 w3 -> invoked w3 = invoked w1 ->
  invoked w2 = invoked w1 /\ invoked w3 = invoked w2.
Proof.
  intros ([l1 H1] & _) ([l2 H2] & _) H3.
  rewrite H2, H1, <- app_assoc in H3.
  rewrite <- (app_nil_r (invoked w1)) in H3 at 2.
  apply app_inv_head in H3. apply app_eq_nil in H3 as [-> ->].
  rewrite app_nil_r in H1, H2. split; assumption.
Qed.

Lemma invoked_do_call_inline w k :
  both_handlers w ->
  invoked (do_call (main_context (client w)) w k) <> invoked w.
Proof.
  intros [[h Hh] [h' Hh']]. unfold do_call.
  case_bool_decide as E; [contradiction|].
  unfold actually_do_call. destruct k; [rewrite Hh|rewrite Hh']; cbn;
    intros H; rewrite <- (app_nil_r (invoked w)) in H at 2;
    apply app_inv_head in H; discriminate H.
Qed.

(** A delivery decision on the watcher's own context that invokes nothing
    was suppressed: the kind was the previous one, or the watcher is
    cancelled. *)
Lemma calm_call_appeared thr w :
  thr = main_context (client w) ->
  both_handlers w /\ paced w ->
  invoked (call_appeared_handler thr w) = invoked w ->
  both_handlers (call_appeared_handler thr w) /\ paced (call_appeared_handler thr w).
Proof.
  intros -> [Hh [Halt Hlast]]. unfold call_appeared_handler.
  case_bool_decide as Hprev; [|intros _; split; [exact Hh|split; assumption]].
  cbn [client on_client cancelled set_previous_call name_appeared_handler].
  destruct (cancelled (client w)) eqn:Hc; cbn [negb andb].
  - intros _. split; [exact Hh|]. split; [exact Halt|]. cbn. rewrite Hc. discriminate.
  - case_bool_decide as Hnull; [|destruct Hh as [[h Hh] _]; congruence].
    intros H. exfalso.
    apply (invoked_do_call_inline
             (on_client (set_previous_call PREVIOUS_CALL_APPEARED) w)
             CALL_TYPE_NAME_APPEARED Hh H).
Qed.

Lemma calm_call_vanished thr w :
  thr = main_context (client w) ->
  both_handlers w /\ paced w ->
  invoked (call_vanished_handler thr w false) = invoked w ->
  both_handlers (call_vanished_handler thr w false) /\
  paced (call_vanished_handler thr w false).
Proof.
  intros -> [Hh [Halt Hlast]]. unfold call_vanished_handler.
  case_bool_decide as Hprev; [|intros _; split; [exact Hh|split; assumption]].
  cbn [client on_client cancelled set_previous_call name_vanished_handler].
  rewrite orb_false_r.
  destruct (cancelled (client w)) eqn:Hc; cbn [negb andb].
  - intros _. split; [exact Hh|]. split; [exact Halt|]. cbn. rewrite Hc. discriminate.
  - case_bool_decide as Hnull; [|destruct Hh as [_ [h Hh]]; congruence].
    intros H. exfalso.
    apply (invoked_do_call_inline
             (on_client (set_previous_call PREVIOUS_CALL_VANISHED) w)
             CALL_TYPE_NAME_VANISHED Hh H).
Qed.

Lemma pace_same_view w w' :
  same_view w w' -> both_handlers w /\ paced w -> both_handlers w' /\ paced w'.
Proof.
  intros (Hi & Hq & Hp & Hc & Ha & Hv & Hm) ((Hap & Hva) & (Halt & Hlast)).
  unfold both_handlers, paced, delivered, queued.
  rewrite Hi, Hq, Hp, Hc, Ha, Hv. repeat split; assumption.
Qed.

Lemma invoked_same_view w w' : same_view w w' -> invoked w' = invoked w.
Proof. now intros (Hi & _). Qed.

Lemma calm_on_connection_disconnected thr w :
  thr = main_context (client w) ->
  both_handlers w /\ paced w ->
  invoked (on_connection_disconnected thr w) = invoked w ->
  both_handlers (on_connection_disconnected thr w) /\
  paced (on_connection_disconnected thr w).
Proof.
  intros Hthr Hp. unfold on_connection_disconnected. intros Hcalm.
  apply calm_call_vanished; [exact Hthr| |exact Hcalm].
  revert Hp. apply pace_same_view. repeat split.
Qed.

Lemma calm_on_name_owner_changed thr sender path iface n old new w :
  thr = main_context (client w) ->
  both_handlers w /\ paced w ->
  invoked (on_name_owner_changed thr sender path iface n old new w) = invoked w ->
  both_handlers (on_name_owner_changed thr sender path iface n old new w) /\
  paced (on_name_owner_changed thr sender path iface n old new w).
Proof.
  intros Hthr Hp. unfold on_name_owner_changed.
  destruct (negb (initialized (client w))); [intros _; assumption|].
  destruct (_ || _); [intros _; assumption|].
  destruct (negb (String.eqb n _)); [intros _; assumption|].
  set (w0 := on_client (set_name_owner None) w).
  set (w1 := if nonempty old && bool_decide (name_owner (client w) <> None)
             then call_vanished_handler thr w0 false else w).
  assert (Hext1 : extends w w1).
  { subst w1. destruct (_ && _); [|apply extends_same_view, same_view_refl].
    eapply extends_trans; [|apply extends_call_vanished]. subst w0. same_invoked. }
  assert (H1 : invoked w1 = invoked w -> both_handlers w1 /\ paced w1).
  { subst w1. destruct (_ && _); [|intros _; assumption]. intros Hcalm.
    apply calm_call_vanished; [exact Hthr| |exact Hcalm].
    revert Hp. apply pace_same_view. repeat split. }
  destruct (nonempty new); [|exact H1].
  set (w2 := on_client (set_name_owner (Some new))
               (if bool_decide (name_owner (client w1) = None) then w1
                else effect [WarnIfFail "client->name_owner == NULL"] w1)).
  assert (Hv2 : same_view w1 w2).
  { subst w2. destruct (bool_decide (name_owner (client w1) = None)); repeat split. }
  intros Hcalm.
  destruct (extends_calm w w2 (call_appeared_handler thr w2)) as [E2 E3].
  { eapply extends_trans; [exact Hext1|]. now apply extends_same_view. }
  { apply extends_call_appeared. }
  { exact Hcalm. }
  apply calm_call_appeared.
  - destruct Hv2 as (_&_&_&_&_&_&Hm). destruct Hext1 as (_&_&_&Hm'). congruence.
  - apply (pace_same_view w1 w2 Hv2). apply H1.
    rewrite <- (invoked_same_view _ _ Hv2). exact E2.
  - exact E3.
Qed.

Lemma calm_get_name_owner_cb thr res w :
  thr = main_context (client w) ->
  both_handlers w /\ paced w ->
  invoked (get_name_owner_cb thr res w) = invoked w ->
  both_handlers (get_name_owner_cb thr res w) /\ paced (get_name_owner_cb thr res w).
Proof.
  intros Hthr Hp. unfold get_name_owner_cb.
  rewrite (invoked_same_view _ _ (view_client_unref _)). cbn [invoked on_client].
  intros Hcalm.
  eapply pace_same_view; [apply view_client_unref|].
  destruct res as [owner|].
  - eapply pace_same_view with (w := call_appeared_handler thr _); [repeat split|].
    set (w1 := on_client (set_name_owner (Some owner)) _) in *.
    assert (Hv : same_view w w1).
    { subst w1. destruct (bool_decide (name_owner (client w) = None)); repeat split. }
    apply calm_call_appeared.
    + destruct Hv as (_&_&_&_&_&_&Hm). congruence.
    + now apply (pace_same_view w w1 Hv).
    + now rewrite (invoked_same_view _ _ Hv).
  - eapply pace_same_view with (w := call_vanished_handler thr w false); [repeat split|].
    now apply calm_call_vanished.
Qed.

Lemma calm_start_service_by_name_cb thr res w :
  thr = main_context (client w) ->
  both_handlers w /\ paced w ->
  invoked (start_service_by_name_cb thr res w) = invoked w ->
  both_handlers (start_service_by_name_cb thr res w) /\
  paced (start_service_by_name_cb thr res w).
Proof.
  intros Hthr Hp. unfold start_service_by_name_cb.
  rewrite (invoked_same_view _ _ (view_client_unref _)).
  intros Hcalm.
  eapply pace_same_view; [apply view_client_unref|].
  destruct res as [r|].
  - destruct (r =? 1); [|destruct (r =? 2)].
    + revert Hp. apply pace_same_view, view_invoke_get_name_owner.
    + revert Hp. apply pace_same_view, view_invoke_get_name_owner.
    + cbn [invoked on_client] in Hcalm.
      eapply pace_same_view with (w := call_vanished_handler thr _ false); [repeat split|].
      apply calm_call_vanished; [exact Hthr| |exact Hcalm].
      revert Hp. apply pace_same_view, view_effect.
  - revert Hp. apply pace_same_view, view_invoke_get_name_owner.
Qed.

(** *** Reference counting *)

Lemma keeps_refl w : keeps w w.
Proof. split; [reflexivity|lia]. Qed.

Lemma keeps_trans w1 w2 w3 : keeps w1 w2 -> keeps w2 w3 -> keeps w1 w3.
Proof. intros (F1 & S1 & R1) (F2 & S2 & R2). split; [congruence|lia]. Qed.

Ltac keeps_by_computation :=
  split; [reflexivity | unfold slack, holders; cbn; rewrite ?length_app; cbn; lia].

Lemma counted_keeps w w' : counted w -> freed w = false -> keeps w w' -> counted w'.
Proof.
  unfold counted. intros Hc Hf (Hf' & Hs & Hr). rewrite Hf in Hc. rewrite Hf', Hf. lia.
Qed.

Lemma keeps_do_call thr w k : keeps w (do_call thr w k).
Proof.
  unfold do_call. case_bool_decide.
  - keeps_by_computation.
  - unfold actually_do_call.
    destruct k, (name_appeared_handler (client w)), (name_vanished_handler (client w));
      keeps_by_computation.
Qed.

Lemma keeps_call_appeared thr w : keeps w (call_appeared_handler thr w).
Proof.
  unfold call_appeared_handler. case_bool_decide; [|apply keeps_refl].
  destruct (_ && _); [|keeps_by_computation].
  eapply keeps_trans; [|apply keeps_do_call]. keeps_by_computation.
Qed.

Lemma keeps_call_vanished thr w b : keeps w (call_vanished_handler thr w b).
Proof.
  unfold call_vanished_handler. case_bool_decide; [|apply keeps_refl].
  destruct (_ && _); [|keeps_by_computation].
  eapply keeps_trans; [|apply keeps_do_call]. keeps_by_computation.
Qed.

Lemma keeps_invoke_get_name_owner w : keeps w (invoke_get_name_owner w).
Proof. unfold invoke_get_name_owner. keeps_by_computation. Qed.

Lemma keeps_on_connection_disconnected thr w :
  keeps w (on_connection_disconnected thr w).
Proof.
  unfold on_connection_disconnected.
  eapply keeps_trans; [|apply keeps_call_vanished]. keeps_by_computation.
Qed.

Lemma keeps_on_name_owner_changed thr sender path iface n old new w :
  keeps w (on_name_owner_changed thr sender path iface n old new w).
Proof.
  unfold on_name_owner_changed.
  destruct (negb (initialized (client w))); [apply keeps_refl|].
  destruct (_ || _); [apply keeps_refl|].
  destruct (negb (String.eqb n _)); [apply keeps_refl|].
  set (w1 := if nonempty old && bool_decide (name_owner (client w) <> None)
             then call_vanished_handler thr (on_client (set_name_owner None) w) false
             else w).
  assert (H1 : keeps w w1).
  { subst w1. destruct (_ && _); [|apply keeps_refl].
    eapply keeps_trans; [|apply keeps_call_vanished]. keeps_by_computation. }
  destruct (nonempty new); [|exact H1].
  eapply keeps_trans; [exact H1|].
  eapply keeps_trans; [|apply keeps_call_appeared].
  destruct (bool_decide (name_owner (client w1) = None)); keeps_by_computation.
Qed.

(** Dropping a reference that was to spare. *)
Lemma counted_client_unref w :
  freed w = false -> 1 <= slack w -> counted (client_unref w).
Proof.
  intros Hf Hs. unfold client_unref.
  set (w1 := on_client (set_ref_count (ref_count (client w) - 1)) w).
  assert (H1 : freed w1 = false /\ slack w1 = slack w - 1 /\
               ref_count (client w1) = ref_count (client w) - 1 /\ holders w1 = holders w).
  { subst w1. repeat split; try exact Hf; unfold slack, holders; cbn; lia. }
  destruct H1 as (Hf1 & Hs1 & Hr1 & Hh1).
  assert (Hpos : 0 <= holders w).
  { unfold holders. destruct (cancelled (client w)); lia. }
  destruct (ref_count (client w1) =? 0) eqn:Hz.
  - apply Z.eqb_eq in Hz.
    assert (Hfin : freed (client_finalize w1) = true /\ holders (client_finalize w1) = holders w1).
    { unfold client_finalize.
      destruct (connection (client w1)), (user_data_free_func (client w1)); split; reflexivity. }
    destruct Hfin as [Hff Hhf]. unfold counted. rewrite Hff, Hhf, Hh1.
    unfold slack in Hs. lia.
  - apply Z.eqb_neq in Hz. unfold counted. rewrite Hf1. unfold slack in *. lia.
Qed.

Lemma complete_length call l l' :
  complete call l = Some l' -> length l = S (length l').
Proof.
  revert l'. induction l as [|c l IH]; intros l'; cbn; [discriminate|].
  case_bool_decide.
  - now intros [= ->].
  - destruct (complete call l) as [l0|]; cbn; [|discriminate].
    intros [= <-]. cbn. now rewrite (IH l0 eq_refl).
Qed.

Lemma counted_get_name_owner_cb thr res w l :
  counted w -> freed w = false -> complete CallGetNameOwner (in_flight w) = Some l ->
  counted (get_name_owner_cb thr res (set_in_flight l w)).
Proof.
  intros Hc Hf Hl. unfold counted in Hc. rewrite Hf in Hc.
  apply complete_length in Hl. unfold get_name_owner_cb.
  set (w0 := set_in_flight l w).
  assert (H0 : freed w0 = false /\ slack w + 1 <= slack w0).
  { subst w0. split; [exact Hf|]. unfold slack, holders. cbn. lia. }
  match goal with |- counted (client_unref ?x) => assert (Hk : keeps w0 x) end.
  { destruct res as [owner|].
    - eapply keeps_trans with (w2 := call_appeared_handler thr _); [|keeps_by_computation].
      eapply keeps_trans; [|apply keeps_call_appeared].
      destruct (bool_decide (name_owner (client w0) = None)); keeps_by_computation.
    - eapply keeps_trans with (w2 := call_vanished_handler thr w0 false);
        [apply keeps_call_vanished|keeps_by_computation]. }
  destruct Hk as (Hkf & Hks & _), H0 as [Hf0 Hs0].
  apply counted_client_unref; [congruence|lia].
Qed.

Lemma counted_start_service_by_name_cb thr res w l :
  counted w -> freed w = false -> complete CallStartServiceByName (in_flight w) = Some l ->
  counted (start_service_by_name_cb thr res (set_in_flight l w)).
Proof.
  intros Hc Hf Hl. unfold counted in Hc. rewrite Hf in Hc.
  apply complete_length in Hl. unfold start_service_by_name_cb.
  set (w0 := set_in_flight l w).
  assert (H0 : freed w0 = false /\ slack w + 1 <= slack w0).
  { subst w0. split; [exact Hf|]. unfold slack, holders. cbn. lia. }
  match goal with |- counted (client_unref ?x) => assert (Hk : keeps w0 x) end.
  { destruct res as [r|];
      [destruct (r =? 1); [|destruct (r =? 2)]|];
      try apply keeps_invoke_get_name_owner.
    eapply keeps_trans with (w2 := call_vanished_handler thr _ false); [|keeps_by_computation].
    eapply keeps_trans; [|apply keeps_call_vanished]. keeps_by_computation. }
  destruct Hk as (Hkf & Hks & _), H0 as [Hf0 Hs0].
  apply counted_client_unref; [congruence|lia].
Qed.

Lemma counted_dispatch_idle w : counted w -> counted (dispatch_idle w).
Proof.
  intros Hc. unfold dispatch_idle.
  destruct (idle_sources w) as [|data rest] eqn:Hq; [exact Hc|].
  unfold counted in Hc. destruct (freed w) eqn:Hf.
  { exfalso. unfold holders in Hc. rewrite Hq in Hc. cbn [length] in Hc.
    destruct (cancelled (client w)); lia. }
  set (w0 := set_idle_sources rest w).
  assert (H0 : freed w0 = false /\ slack w + 1 <= slack w0).
  { subst w0. split; [exact Hf|]. unfold slack, holders. cbn. rewrite Hq. cbn. lia. }
  unfold call_handler_data_free.
  match goal with |- counted (client_unref ?x) => assert (Hk : keeps w0 x) end.
  { unfold call_in_idle_cb, actually_do_call.
    destruct (call_type data), (name_appeared_handler (client w0)),
      (name_vanished_handler (client w0)), (data_connection data); keeps_by_computation. }
  destruct Hk as (Hkf & Hks & _), H0 as [Hf0 Hs0].
  apply counted_client_unref; [congruence|lia].
Qed.

Lemma counted_unwatch_client w :
  counted w -> freed w = false -> cancelled (client w) = false ->
  counted (unwatch_client w).
Proof.
  intros Hc Hf Hcan. unfold counted in Hc. rewrite Hf in Hc.
  unfold unwatch_client. apply counted_client_unref; [exact Hf|].
  unfold slack, holders in *. cbn. rewrite Hcan in Hc. lia.
Qed.

(** *** The first delivery decision *)

Lemma advances_refl w : advances w w.
Proof. repeat split; auto. Qed.

Lemma advances_trans w1 w2 w3 : advances w1 w2 -> advances w2 w3 -> advances w1 w3.
Proof.
  intros (A1 & V1 & P1 & C1) (A2 & V2 & P2 & C2).
  repeat split; [congruence|congruence|auto|auto].
Qed.

Lemma settled_first w : settled w -> first w.
Proof.
  intros (Hh & Hp & Hc). split; [exact Hh|]. split.
  - intros E. contradiction.
  - intros _. exact Hc.
Qed.

Lemma first_settled w :
  first w -> previous_call (client w) <> PREVIOUS_CALL_NONE -> settled w.
Proof. intros (Hh & _ & Hd) Hp. split; [exact Hh|]. split; [exact Hp|exact (Hd Hp)]. Qed.

Lemma settled_advances w w' : settled w -> advances w w' -> settled w'.
Proof.
  intros ((Ha & Hv) & Hp & Hc) (A & V & P & C).
  split; [split; congruence|]. split; auto.
Qed.

Ltac advances_by_computation :=
  repeat split; cbn; auto; try discriminate.

Lemma snoc_not_nil {A} (l l' : list A) x : l ++ x :: l' <> [].
Proof. destruct l; discriminate. Qed.

Lemma advances_do_call thr w k : advances w (do_call thr w k).
Proof.
  unfold do_call. case_bool_decide.
  - repeat split; auto. intros _. unfold calls, delivered, queued. cbn.
    rewrite map_app. cbn. rewrite app_assoc. apply snoc_not_nil.
  - unfold actually_do_call.
    destruct k; [destruct (name_appeared_handler (client w))
                |destruct (name_vanished_handler (client w))];
      try apply advances_refl;
      repeat split; auto; intros _; unfold calls, delivered, queued; cbn;
      rewrite map_app; cbn; rewrite <- app_assoc; apply snoc_not_nil.
Qed.

Lemma advances_call_appeared thr w : advances w (call_appeared_handler thr w).
Proof.
  unfold call_appeared_handler. case_bool_decide; [|apply advances_refl].
  destruct (_ && _).
  - eapply advances_trans; [|apply advances_do_call]. advances_by_computation.
  - advances_by_computation.
Qed.

Lemma advances_call_vanished thr w b : advances w (call_vanished_handler thr w b).
Proof.
  unfold call_vanished_handler. case_bool_decide; [|apply advances_refl].
  destruct (_ && _).
  - eapply advances_trans; [|apply advances_do_call]. advances_by_computation.
  - advances_by_computation.
Qed.

Lemma advances_client_unref w : advances w (client_unref w).
Proof.
  unfold client_unref. destruct (_ =? 0); [|advances_by_computation].
  unfold client_finalize.
  destruct (connection _), (user_data_free_func _); advances_by_computation.
Qed.

Lemma advances_invoke_get_name_owner w : advances w (invoke_get_name_owner w).
Proof. unfold invoke_get_name_owner. advances_by_computation. Qed.

Lemma advances_on_connection_disconnected thr w :
  advances w (on_connection_disconnected thr w).
Proof.
  unfold on_connection_disconnected.
  eapply advances_trans; [|apply advances_call_vanished]. advances_by_computation.
Qed.

Lemma advances_on_name_owner_changed thr sender path iface n old new w :
  advances w (on_name_owner_changed thr sender path iface n old new w).
Proof.
  unfold on_name_owner_changed.
  destruct (negb (initialized (client w))); [apply advances_refl|].
  destruct (_ || _); [apply advances_refl|].
  destruct (negb (String.eqb n _)); [apply advances_refl|].
  set (w1 := if nonempty old && bool_decide (name_owner (client w) <> None)
             then call_vanished_handler thr (on_client (set_name_owner None) w) false
             else w).
  assert (H1 : advances w w1).
  { subst w1. destruct (_ && _); [|apply advances_refl].
    eapply advances_trans; [|apply advances_call_vanished]. advances_by_computation. }
  destruct (nonempty new); [|exact H1].
  eapply advances_trans; [exact H1|].
  eapply advances_trans; [|apply advances_call_appeared].
  destruct (bool_decide (name_owner (client w1) = None)); advances_by_computation.
Qed.

Lemma advances_get_name_owner_cb thr res w :
  advances w (get_name_owner_cb thr res w).
Proof.
  unfold get_name_owner_cb.
  eapply advances_trans; [|apply advances_client_unref].
  destruct res as [owner|].
  - eapply advances_trans with (w2 := call_appeared_handler thr _);
      [|advances_by_computation].
    eapply advances_trans; [|apply advances_call_appeared].
    destruct (bool_decide (name_owner (client w) = None)); advances_by_computation.
  - eapply advances_trans with (w2 := call_vanished_handler thr w false);
      [apply advances_call_vanished|advances_by_computation].
Qed.

Lemma advances_start_service_by_name_cb thr res w :
  advances w (start_service_by_name_cb thr res w).
Proof.
  unfold start_service_by_name_cb.
  eapply advances_trans; [|apply advances_client_unref].
  destruct res as [r|];
    [destruct (r =? 1); [|destruct (r =? 2)]|];
    try apply advances_invoke_get_name_owner.
  eapply advances_trans with (w2 := call_vanished_handler thr _ false);
    [|advances_by_computation].
  eapply advances_trans; [|apply advances_call_vanished]. advances_by_computation.
Qed.

Lemma advances_dispatch_idle w : both_handlers w -> advances w (dispatch_idle w).
Proof.
  intros [[h Hh] [h' Hh']]. unfold dispatch_idle.
  destruct (idle_sources w) as [|data rest] eqn:Hq; [apply advances_refl|].
  unfold call_handler_data_free.
  eapply advances_trans; [|apply advances_client_unref].
  eapply advances_trans
    with (w2 := call_in_idle_cb data (set_idle_sources rest w)).
  - unfold call_in_idle_cb, actually_do_call. cbn [client set_idle_sources].
    rewrite Hh, Hh'.
    destruct (call_type data); repeat split; auto; intros _;
      unfold calls, delivered, queued; cbn; rewrite map_app; cbn;
      rewrite <- app_assoc; apply snoc_not_nil.
  - destruct (data_connection data); advances_by_computation.
Qed.

Lemma advances_unwatch_client w : advances w (unwatch_client w).
Proof.
  unfold unwatch_client.
  eapply advances_trans; [|apply advances_client_unref]. advances_by_computation.
Qed.

(** A delivery decision taken while the watcher is not cancelled, or after
    an earlier one, leaves a call delivered or queued. *)
Lemma settled_call_appeared thr w :
  both_handlers w -> decided w ->
  (previous_call (client w) = PREVIOUS_CALL_NONE -> cancelled (client w) = false) ->
  settled (call_appeared_handler thr w).
Proof.
  intros Hh Hd Hc.
  destruct (decide (previous_call (client w) = PREVIOUS_CALL_NONE)) as [Hp|Hp].
  - specialize (Hc Hp). unfold call_appeared_handler. rewrite Hp.
    rewrite bool_decide_eq_true_2 by discriminate.
    cbn [client on_client cancelled set_previous_call name_appeared_handler].
    rewrite Hc. cbn [negb andb].
    rewrite bool_decide_eq_true_2 by (destruct Hh as [[h ->] _]; discriminate).
    set (w1 := on_client (set_previous_call PREVIOUS_CALL_APPEARED) w).
    pose proof (advances_do_call thr w1 CALL_TYPE_NAME_APPEARED) as (A & V & P & _).
    split; [destruct Hh; split; unfold w1 in *; cbn in *; congruence|].
    split; [apply P; subst w1; cbn; discriminate|].
    unfold do_call. case_bool_decide.
    + unfold calls, delivered, queued. cbn. rewrite map_app. cbn.
      rewrite app_assoc. apply snoc_not_nil.
    + unfold actually_do_call. subst w1. cbn [client on_client name_appeared_handler
        set_previous_call]. destruct Hh as [[h ->] _].
      unfold calls, delivered, queued. cbn. rewrite map_app. cbn.
      rewrite <- app_assoc. apply snoc_not_nil.
  - apply settled_advances with (w := w); [|apply advances_call_appeared].
    split; [exact Hh|]. split; [exact Hp|exact (Hd Hp)].
Qed.

Lemma settled_call_vanished thr w :
  both_handlers w -> decided w ->
  (previous_call (client w) = PREVIOUS_CALL_NONE -> cancelled (client w) = false) ->
  settled (call_vanished_handler thr w false).
Proof.
  intros Hh Hd Hc.
  destruct (decide (previous_call (client w) = PREVIOUS_CALL_NONE)) as [Hp|Hp].
  - specialize (Hc Hp). unfold call_vanished_handler. rewrite Hp.
    rewrite bool_decide_eq_true_2 by discriminate.
    cbn [client on_client cancelled set_previous_call name_vanished_handler].
    rewrite Hc. cbn [negb andb orb].
    rewrite bool_decide_eq_true_2 by (destruct Hh as [_ [h ->]]; discriminate).
    set (w1 := on_client (set_previous_call PREVIOUS_CALL_VANISHED) w).
    pose proof (advances_do_call thr w1 CALL_TYPE_NAME_VANISHED) as (A & V & P & _).
    split; [destruct Hh; split; unfold w1 in *; cbn in *; congruence|].
    split; [apply P; subst w1; cbn; discriminate|].
    unfold do_call. case_bool_decide.
    + unfold calls, delivered, queued. cbn. rewrite map_app. cbn.
      rewrite app_assoc. apply snoc_not_nil.
    + unfold actually_do_call. subst w1. cbn [client on_client name_vanished_handler
        set_previous_call]. destruct Hh as [_ [h ->]].
      unfold calls, delivered, queued. cbn. rewrite map_app. cbn.
      rewrite <- app_assoc. apply snoc_not_nil.
  - apply settled_advances with (w := w); [|apply advances_call_vanished].
    split; [exact Hh|]. split; [exact Hp|exact (Hd Hp)].
Qed.

(** *** A request for Vanished *)

Lemma call_vanished_when_cancelled thr w :
  cancelled (client w) = true ->
  invoked (call_vanished_handler thr w false) = invoked w /\
  idle_sources (call_vanished_handler thr w false) = idle_sources w.
Proof.
  intros Hc. unfold call_vanished_handler.
  case_bool_decide; [|split; reflexivity].
  change (cancelled (client (on_client (set_previous_call PREVIOUS_CALL_VANISHED) w)))
    with (cancelled (client w)).
  rewrite Hc. cbn [negb orb andb]. split; reflexivity.
Qed.

Lemma call_vanished_when_watching thr w :
  cancelled (client w) = false ->
  previous_call (client w) <> PREVIOUS_CALL_VANISHED ->
  is_Some (name_vanished_handler (client w)) ->
  let w' := call_vanished_handler thr w false in
  (thr = main_context (client w) ->
     delivered w' = delivered w ++ [CALL_TYPE_NAME_VANISHED] /\ queued w' = queued w) /\
  (thr <> main_context (client w) ->
     delivered w' = delivered w /\ queued w' = queued w ++ [CALL_TYPE_NAME_VANISHED]).
Proof.
  intros Hc Hp [h Hh]. unfold call_vanished_handler.
  rewrite bool_decide_eq_true_2 by exact Hp.
  set (w1 := on_client (set_previous_call PREVIOUS_CALL_VANISHED) w).
  change (cancelled (client w1)) with (cancelled (client w)).
  change (name_vanished_handler (client w1)) with (name_vanished_handler (client w)).
  rewrite Hc, Hh. cbn [negb orb andb].
  rewrite bool_decide_eq_true_2 by discriminate.
  unfold do_call. change (main_context (client w1)) with (main_context (client w)).
  split.
  - intros E. rewrite bool_decide_eq_false_2 by (intros H; now apply H).
    unfold actually_do_call.
    change (name_vanished_handler (client w1)) with (name_vanished_handler (client w)).
    rewrite Hh. unfold delivered, queued, invoke. cbn [invoked idle_sources].
    rewrite map_app. split; reflexivity.
  - intros E. rewrite bool_decide_eq_true_2 by exact E.
    unfold schedule_call_in_idle, delivered, queued, set_idle_sources.
    cbn [invoked idle_sources]. rewrite map_app. split; reflexivity.
Qed.

Lemma signal_ids_call_vanished thr w b :
  disconnected_signal_handler_id (client (call_vanished_handler thr w b))
  = disconnected_signal_handler_id (client w).
Proof.
  unfold call_vanished_handler. case_bool_decide; [|reflexivity].
  destruct (_ && _); [|reflexivity].
  unfold do_call. case_bool_decide; [reflexivity|].
  unfold actually_do_call.
  destruct (name_vanished_handler
              (client (on_client (set_previous_call PREVIOUS_CALL_VANISHED) w)));
    reflexivity.
Qed.

(** *** What no callback changes *)

Lemma fixed_refl w : fixed w w.
Proof. repeat split. Qed.

Lemma fixed_trans w1 w2 w3 : fixed w1 w2 -> fixed w2 w3 -> fixed w1 w3.
Proof. intros (A1 & V1 & C1) (A2 & V2 & C2). repeat split; congruence. Qed.

Lemma fixed_do_call thr w k : fixed w (do_call thr w k).
Proof.
  unfold do_call. case_bool_decide; [repeat split|].
  unfold actually_do_call.
  destruct k, (name_appeared_handler (client w)), (name_vanished_handler (client w));
    repeat split.
Qed.

Lemma fixed_call_appeared thr w : fixed w (call_appeared_handler thr w).
Proof.
  unfold call_appeared_handler. case_bool_decide; [|apply fixed_refl].
  destruct (_ && _); [|repeat split].
  eapply fixed_trans; [|apply fixed_do_call]. repeat split.
Qed.

Lemma fixed_call_vanished thr w b : fixed w (call_vanished_handler thr w b).
Proof.
  unfold call_vanished_handler. case_bool_decide; [|apply fixed_refl].
  destruct (_ && _); [|repeat split].
  eapply fixed_trans; [|apply fixed_do_call]. repeat split.
Qed.

Lemma fixed_client_unref w : fixed w (client_unref w).
Proof.
  unfold client_unref. destruct (_ =? 0); [|repeat split].
  unfold client_finalize.
  destruct (connection _), (user_data_free_func _); repeat split.
Qed.

Lemma fixed_on_connection_disconnected thr w : fixed w (on_connection_disconnected thr w).
Proof.
  unfold on_connection_disconnected.
  eapply fixed_trans; [|apply fixed_call_vanished]. repeat split.
Qed.

Lemma fixed_on_name_owner_changed thr sender path iface n old new w :
  fixed w (on_name_owner_changed thr sender path iface n old new w).
Proof.
  unfold on_name_owner_changed.
  destruct (negb (initialized (client w))); [apply fixed_refl|].
  destruct (_ || _); [apply fixed_refl|].
  destruct (negb (String.eqb n _)); [apply fixed_refl|].
  set (w1 := if nonempty old && bool_decide (name_owner (client w) <> None)
             then call_vanished_handler thr (on_client (set_name_owner None) w) false
             else w).
  assert (H1 : fixed w w1).
  { subst w1. destruct (_ && _); [|apply fixed_refl].
    eapply fixed_trans; [|apply fixed_call_vanished]. repeat split. }
  destruct (nonempty new); [|exact H1].
  eapply fixed_trans; [exact H1|].
  eapply fixed_trans; [|apply fixed_call_appeared].
  destruct (bool_decide (name_owner (client w1) = None)); repeat split.
Qed.

Lemma fixed_get_name_owner_cb thr res w : fixed w (get_name_owner_cb thr res w).
Proof.
  unfold get_name_owner_cb.
  eapply fixed_trans; [|apply fixed_client_unref].
  destruct res as [owner|].
  - eapply fixed_trans with (w2 := call_appeared_handler thr _); [|repeat split].
    eapply fixed_trans; [|apply fixed_call_appeared].
    destruct (bool_decide (name_owner (client w) = None)); repeat split.
  - eapply fixed_trans with (w2 := call_vanished_handler thr w false);
      [apply fixed_call_vanished|repeat split].
Qed.

Lemma fixed_start_service_by_name_cb thr res w :
  fixed w (start_service_by_name_cb thr res w).
Proof.
  unfold start_service_by_name_cb.
  eapply fixed_trans; [|apply fixed_client_unref].
  destruct res as [r|]; [destruct (r =? 1); [|destruct (r =? 2)]|];
    try (repeat split; fail).
  eapply fixed_trans with (w2 := call_vanished_handler thr _ false); [|repeat split].
  eapply fixed_trans; [|apply fixed_call_vanished]. repeat split.
Qed.

Lemma fixed_dispatch_idle w : fixed w (dispatch_idle w).
Proof.
  unfold dispatch_idle.
  destruct (idle_sources w) as [|data rest]; [apply fixed_refl|].
  unfold call_handler_data_free.
  eapply fixed_trans; [|apply fixed_client_unref].
  unfold call_in_idle_cb, actually_do_call. cbn [client set_idle_sources].
  destruct (call_type data), (name_appeared_handler (client w)),
    (name_vanished_handler (client w)), (data_connection data); repeat split.
Qed.

(** *** Callbacks on the watcher's own context *)

Lemma inline_refl thr w : inline thr w w.
Proof. split; [reflexivity|intros _; reflexivity]. Qed.

Lemma inline_trans thr w1 w2 w3 : inline thr w1 w2 -> inline thr w2 w3 -> inline thr w1 w3.
Proof.
  intros [M1 I1] [M2 I2]. split; [congruence|].
  intros E. rewrite I2 by congruence. now apply I1.
Qed.

Ltac inline_by_computation := split; [reflexivity|intros _; reflexivity].

Lemma inline_do_call thr w k : inline thr w (do_call thr w k).
Proof.
  unfold do_call. case_bool_decide as E.
  - split; [reflexivity|]. intros E'. contradiction.
  - unfold actually_do_call.
    destruct k, (name_appeared_handler (client w)), (name_vanished_handler (client w));
      inline_by_computation.
Qed.

Lemma inline_call_appeared thr w : inline thr w (call_appeared_handler thr w).
Proof.
  unfold call_appeared_handler. case_bool_decide; [|apply inline_refl].
  destruct (_ && _); [|inline_by_computation].
  eapply inline_trans; [|apply inline_do_call]. inline_by_computation.
Qed.

Lemma inline_call_vanished thr w b : inline thr w (call_vanished_handler thr w b).
Proof.
  unfold call_vanished_handler. case_bool_decide; [|apply inline_refl].
  destruct (_ && _); [|inline_by_computation].
  eapply inline_trans; [|apply inline_do_call]. inline_by_computation.
Qed.

Lemma inline_client_unref thr w : inline thr w (client_unref w).
Proof.
  unfold client_unref. destruct (_ =? 0); [|inline_by_computation].
  unfold client_finalize.
  destruct (connection _), (user_data_free_func _); inline_by_computation.
Qed.

Lemma inline_on_connection_disconnected thr w :
  inline thr w (on_connection_disconnected thr w).
Proof.
  unfold on_connection_disconnected.
  eapply inline_trans; [|apply inline_call_vanished]. inline_by_computation.
Qed.

Lemma inline_on_name_owner_changed thr sender path iface n old new w :
  inline thr w (on_name_owner_changed thr sender path iface n old new w).
Proof.
  unfold on_name_owner_changed.
  destruct (negb (initialized (client w))); [apply inline_refl|].
  destruct (_ || _); [apply inline_refl|].
  destruct (negb (String.eqb n _)); [apply inline_refl|].
  set (w1 := if nonempty old && bool_decide (name_owner (client w) <> None)
             then call_vanished_handler thr (on_client (set_name_owner None) w) false
             else w).
  assert (H1 : inline thr w w1).
  { subst w1. destruct (_ && _); [|apply inline_refl].
    eapply inline_trans; [|apply inline_call_vanished]. inline_by_computation. }
  destruct (nonempty new); [|exact H1].
  eapply inline_trans; [exact H1|].
  eapply inline_trans; [|apply inline_call_appeared].
  destruct (bool_decide (name_owner (client w1) = None)); inline_by_computation.
Qed.

Lemma inline_get_name_owner_cb thr res w : inline thr w (get_name_owner_cb thr res w).
Proof.
  unfold get_name_owner_cb.
  eapply inline_trans; [|apply inline_client_unref].
  destruct res as [owner|].
  - eapply inline_trans with (w2 := call_appeared_handler thr _); [|inline_by_computation].
    eapply inline_trans; [|apply inline_call_appeared].
    destruct (bool_decide (name_owner (client w) = None)); inline_by_computation.
  - eapply inline_trans with (w2 := call_vanished_handler thr w false);
      [apply inline_call_vanished|inline_by_computation].
Qed.

Lemma inline_start_service_by_name_cb thr res w :
  inline thr w (start_service_by_name_cb thr res w).
Proof.
  unfold start_service_by_name_cb.
  eapply inline_trans; [|apply inline_client_unref].
  destruct res as [r|]; [destruct (r =? 1); [|destruct (r =? 2)]|];
    try (inline_by_computation; fail).
  eapply inline_trans with (w2 := call_vanished_handler thr _ false);
    [|inline_by_computation].
  eapply inline_trans; [|apply inline_call_vanished]. inline_by_computation.
Qed.

Section OneWatcher.
Variable G_BUS_NAME_WATCHER_FLAGS_AUTO_START : Z.

Abbreviation step := (NameWatching.step G_BUS_NAME_WATCHER_FLAGS_AUTO_START).
Abbreviation run := (NameWatching.run G_BUS_NAME_WATCHER_FLAGS_AUTO_START).
Abbreviation has_connection :=
  (NameWatching.has_connection G_BUS_NAME_WATCHER_FLAGS_AUTO_START).
Abbreviation connection_get_cb :=
  (NameWatching.connection_get_cb G_BUS_NAME_WATCHER_FLAGS_AUTO_START).
Abbreviation watched := (NameWatching.watched G_BUS_NAME_WATCHER_FLAGS_AUTO_START).
Abbreviation calls_in_order :=
  (NameWatching.calls_in_order G_BUS_NAME_WATCHER_FLAGS_AUTO_START).
Abbreviation in_order := (NameWatching.in_order G_BUS_NAME_WATCHER_FLAGS_AUTO_START).

Lemma view_has_connection w : same_view w (has_connection w).
Proof.
  unfold NameWatching.has_connection.
  destruct (connection (client w)) as [conn|]; [|apply same_view_refl].
  destruct (negb _).
  - repeat split.
  - eapply same_view_trans; [|apply view_invoke_get_name_owner]. repeat split.
Qed.

Lemma good_connection_get_cb thr res w :
  good thr w -> good thr (connection_get_cb thr res w).
Proof.
  intros H. unfold NameWatching.connection_get_cb.
  eapply good_same_view; [apply view_client_unref|].
  destruct (connection (client (on_client (set_connection res) w))).
  - eapply good_same_view; [apply view_has_connection|].
    revert H. apply good_same_view. repeat split.
  - apply good_call_vanished. revert H. apply good_same_view. repeat split.
Qed.

(** An idle source that fires moves its call from the queue to the
    delivered ones. *)
Lemma pace_dispatch_idle w :
  both_handlers w /\ paced w -> both_handlers (dispatch_idle w) /\ paced (dispatch_idle w).
Proof.
  intros [Hh Hp]. unfold dispatch_idle.
  destruct (idle_sources w) as [|data rest] eqn:Hq; [split; assumption|].
  apply pace_same_view with (w := call_in_idle_cb data (set_idle_sources rest w)).
  { unfold call_handler_data_free.
    eapply same_view_trans; [|apply view_client_unref].
    destruct (data_connection data); repeat split. }
  assert (Hinv : exists c, kind c = call_type data /\
            call_in_idle_cb data (set_idle_sources rest w)
            = invoke c (set_idle_sources rest w)).
  { unfold call_in_idle_cb, actually_do_call. destruct Hh as [[h Hh] [h' Hh']].
    destruct (call_type data); cbn [client set_idle_sources];
      [rewrite Hh|rewrite Hh']; eexists; (split; [|reflexivity]); reflexivity. }
  destruct Hinv as (c & Hk & ->).
  split; [exact Hh|]. destruct Hp as [Halt Hlast].
  unfold paced, delivered, queued in *. cbn. rewrite Hq in *. cbn [map] in *.
  rewrite map_app. cbn [map]. rewrite Hk, <- app_assoc. cbn [app].
  split; assumption.
Qed.

Lemma pace_unwatch_client w :
  both_handlers w /\ paced w ->
  both_handlers (unwatch_client w) /\ paced (unwatch_client w).
Proof.
  intros [Hh [Halt _]]. unfold unwatch_client.
  destruct (view_client_unref (on_client (set_cancelled true) w))
    as (Hi & Hq & Hp & Hc & Ha & Hv & Hm).
  unfold both_handlers, paced, delivered, queued.
  rewrite Hi, Hq, Hp, Hc, Ha, Hv. split; [exact Hh|].
  split; [exact Halt|]. cbn. discriminate.
Qed.

Lemma keeps_has_connection w : keeps w (has_connection w).
Proof.
  unfold NameWatching.has_connection.
  destruct (connection (client w)) as [conn|]; [|apply keeps_refl].
  destruct (negb _).
  - keeps_by_computation.
  - eapply keeps_trans; [|apply keeps_invoke_get_name_owner]. keeps_by_computation.
Qed.

Lemma counted_connection_get_cb thr res w l :
  counted w -> freed w = false -> complete CallBusGet (in_flight w) = Some l ->
  counted (connection_get_cb thr res (set_in_flight l w)).
Proof.
  intros Hc Hf Hl. unfold counted in Hc. rewrite Hf in Hc.
  apply complete_length in Hl. unfold NameWatching.connection_get_cb.
  set (w0 := set_in_flight l w).
  assert (H0 : freed w0 = false /\ slack w + 1 <= slack w0).
  { subst w0. split; [exact Hf|]. unfold slack, holders. cbn. lia. }
  match goal with |- counted (client_unref ?x) => assert (Hk : keeps w0 x) end.
  { destruct (connection (client (on_client (set_connection res) w0))).
    - eapply keeps_trans; [|apply keeps_has_connection]. keeps_by_computation.
    - eapply keeps_trans; [|apply keeps_call_vanished]. keeps_by_computation. }
  destruct Hk as (Hkf & Hks & _), H0 as [Hf0 Hs0].
  apply counted_client_unref; [congruence|lia].
Qed.

(** A freed client has nothing in flight. *)
Lemma freed_nothing_in_flight w call l :
  counted w -> complete call (in_flight w) = Some l -> freed w = false.
Proof.
  intros Hc Hl. apply complete_length in Hl. unfold counted in Hc.
  destruct (freed w); [|reflexivity]. unfold holders in Hc.
  destruct (cancelled (client w)); lia.
Qed.

Lemma counted_step w e : counted w -> counted (step w e).
Proof.
  intros Hc.
  destruct e as [thr res|thr res|thr res|thr sender path iface n old new|thr| |];
    cbn [NameWatching.step].
  - destruct (complete _ _) eqn:Hl; [|assumption].
    eapply counted_connection_get_cb; eauto using freed_nothing_in_flight.
  - destruct (complete _ _) eqn:Hl; [|assumption].
    eapply counted_start_service_by_name_cb; eauto using freed_nothing_in_flight.
  - destruct (complete _ _) eqn:Hl; [|assumption].
    eapply counted_get_name_owner_cb; eauto using freed_nothing_in_flight.
  - destruct (freed w) eqn:Hf; cbn [negb andb]; [assumption|].
    destruct (0 <? _); [|assumption].
    eapply counted_keeps; [exact Hc|exact Hf|apply keeps_on_name_owner_changed].
  - destruct (freed w) eqn:Hf; cbn [negb andb]; [assumption|].
    destruct (0 <? _); [|assumption].
    eapply counted_keeps; [exact Hc|exact Hf|apply keeps_on_connection_disconnected].
  - now apply counted_dispatch_idle.
  - destruct (freed w) eqn:Hf; cbn [orb]; [assumption|].
    destruct (cancelled (client w)) eqn:Hcan; [assumption|].
    now apply counted_unwatch_client.
Qed.

Lemma counted_run events : forall w, counted w -> counted (run w events).
Proof.
  induction events as [|e events IH]; intros w Hc; [exact Hc|].
  unfold NameWatching.run. cbn [fold_left]. apply IH. now apply counted_step.
Qed.

Lemma counted_watched w : watched w -> counted w.
Proof.
  intros [thr next_id name flags appeared vanished user_data free_func
         |thr next_id conn name flags appeared vanished user_data free_func].
  - unfold counted, slack, holders. cbn. lia.
  - unfold watcher_on_connection.
    eapply counted_keeps; [| |apply keeps_has_connection].
    + unfold counted, slack, holders. cbn. lia.
    + reflexivity.
Qed.

Lemma advances_has_connection w : advances w (has_connection w).
Proof.
  unfold NameWatching.has_connection.
  destruct (connection (client w)) as [conn|]; [|apply advances_refl].
  destruct (negb _).
  - advances_by_computation.
  - eapply advances_trans; [|apply advances_invoke_get_name_owner].
    advances_by_computation.
Qed.

Lemma advances_connection_get_cb thr res w : advances w (connection_get_cb thr res w).
Proof.
  unfold NameWatching.connection_get_cb.
  eapply advances_trans; [|apply advances_client_unref].
  destruct (connection (client (on_client (set_connection res) w))).
  - eapply advances_trans; [|apply advances_has_connection]. advances_by_computation.
  - eapply advances_trans; [|apply advances_call_vanished]. advances_by_computation.
Qed.

Lemma advances_step w e : both_handlers w -> advances w (step w e).
Proof.
  intros Hh.
  destruct e as [thr res|thr res|thr res|thr sender path iface n old new|thr| |];
    cbn [NameWatching.step].
  - destruct (complete _ _); [|apply advances_refl].
    eapply advances_trans; [|apply advances_connection_get_cb]. advances_by_computation.
  - destruct (complete _ _); [|apply advances_refl].
    eapply advances_trans; [|apply advances_start_service_by_name_cb].
    advances_by_computation.
  - destruct (complete _ _); [|apply advances_refl].
    eapply advances_trans; [|apply advances_get_name_owner_cb]. advances_by_computation.
  - destruct (_ && _); [|apply advances_refl]. apply advances_on_name_owner_changed.
  - destruct (_ && _); [|apply advances_refl]. apply advances_on_connection_disconnected.
  - now apply advances_dispatch_idle.
  - destruct (_ || _); [apply advances_refl|]. apply advances_unwatch_client.
Qed.

(** What [client_unref] leaves alone. *)
Lemma chain_client_unref w :
  in_flight (client_unref w) = in_flight w /\
  previous_call (client (client_unref w)) = previous_call (client w) /\
  cancelled (client (client_unref w)) = cancelled (client w) /\
  initialized (client (client_unref w)) = initialized (client w).
Proof.
  unfold client_unref. destruct (_ =? 0); [|repeat split].
  unfold client_finalize. cbn.
  destruct (connection (client w)), (user_data_free_func (client w)); repeat split.
Qed.

Lemma first_chain w' :
  both_handlers w' ->
  previous_call (client w') = PREVIOUS_CALL_NONE ->
  cancelled (client w') = false ->
  initialized (client w') = false ->
  in_flight w' = [CallStartServiceByName] \/ in_flight w' = [CallGetNameOwner] ->
  first w'.
Proof.
  intros Hh Hp Hc Hi Hf. split; [exact Hh|]. split.
  - intros _. split; [exact Hc|]. split; [exact Hi|]. right. exact Hf.
  - intros H. contradiction.
Qed.

Lemma both_handlers_advances w w' : both_handlers w -> advances w w' -> both_handlers w'.
Proof. intros [Ha Hv] (A & V & _). split; congruence. Qed.

(** The bus arrives while nothing has been decided. *)
Lemma first_connection_get_cb thr res w :
  both_handlers w ->
  previous_call (client w) = PREVIOUS_CALL_NONE ->
  cancelled (client w) = false ->
  initialized (client w) = false ->
  first (connection_get_cb thr res (set_in_flight [] w)).
Proof.
  intros Hh Hp Hc Hi. unfold NameWatching.connection_get_cb.
  set (w0 := on_client (set_connection res) (set_in_flight [] w)).
  destruct res as [conn|]; cbn [connection client on_client set_connection w0].
  - destruct (chain_client_unref (has_connection w0)) as (Ef & Ep & Ec & Ei).
    apply first_chain.
    + eapply both_handlers_advances; [exact Hh|].
      eapply advances_trans; [|apply advances_client_unref].
      eapply advances_trans; [|apply advances_has_connection].
      subst w0. advances_by_computation.
    + rewrite Ep. unfold NameWatching.has_connection. subst w0. cbn.
      destruct (negb _); cbn; exact Hp.
    + rewrite Ec. unfold NameWatching.has_connection. subst w0. cbn.
      destruct (negb _); cbn; exact Hc.
    + rewrite Ei. unfold NameWatching.has_connection. subst w0. cbn.
      destruct (negb _); cbn; exact Hi.
    + rewrite Ef. unfold NameWatching.has_connection. subst w0. cbn.
      destruct (negb _); cbn; [left|right]; reflexivity.
  - apply settled_first.
    eapply settled_advances; [|apply advances_client_unref].
    apply settled_call_vanished.
    + exact Hh.
    + intros H. contradiction.
    + intros _. exact Hc.
Qed.

Lemma first_start_service_by_name_cb thr res w :
  both_handlers w ->
  previous_call (client w) = PREVIOUS_CALL_NONE ->
  cancelled (client w) = false ->
  initialized (client w) = false ->
  first (start_service_by_name_cb thr res (set_in_flight [] w)).
Proof.
  intros Hh Hp Hc Hi. unfold start_service_by_name_cb.
  assert (Hgno : first (client_unref (invoke_get_name_owner (set_in_flight [] w)))).
  { destruct (chain_client_unref (invoke_get_name_owner (set_in_flight [] w)))
      as (Ef & Ep & Ec & Ei).
    apply first_chain.
    - eapply both_handlers_advances; [exact Hh|].
      eapply advances_trans; [|apply advances_client_unref]. advances_by_computation.
    - rewrite Ep. exact Hp.
    - rewrite Ec. exact Hc.
    - rewrite Ei. exact Hi.
    - rewrite Ef. right. reflexivity. }
  destruct res as [r|]; [|exact Hgno].
  destruct (r =? 1); [exact Hgno|]. destruct (r =? 2); [exact Hgno|].
  apply settled_first.
  eapply settled_advances; [|apply advances_client_unref].
  eapply settled_advances with (w := call_vanished_handler thr _ false);
    [|advances_by_computation].
  apply settled_call_vanished.
  - exact Hh.
  - intros H. contradiction.
  - intros _. exact Hc.
Qed.

Lemma first_get_name_owner_cb thr res w :
  both_handlers w ->
  previous_call (client w) = PREVIOUS_CALL_NONE ->
  cancelled (client w) = false ->
  first (get_name_owner_cb thr res (set_in_flight [] w)).
Proof.
  intros Hh Hp Hc. unfold get_name_owner_cb. apply settled_first.
  eapply settled_advances; [|apply advances_client_unref].
  destruct res as [owner|].
  - eapply settled_advances with (w := call_appeared_handler thr _);
      [|advances_by_computation].
    apply settled_call_appeared.
    + destruct (bool_decide _); exact Hh.
    + intros H. exfalso. apply H. destruct (bool_decide _); exact Hp.
    + intros _. destruct (bool_decide _); exact Hc.
  - eapply settled_advances with (w := call_vanished_handler thr _ false);
      [|advances_by_computation].
    apply settled_call_vanished.
    + exact Hh.
    + intros H. contradiction.
    + intros _. exact Hc.
Qed.

(** One event keeps the start-up chain going or settles the first call,
    unless it is an unwatch that comes before any decision. *)
Lemma first_step w e :
  first w ->
  (e = Unwatch -> previous_call (client w) <> PREVIOUS_CALL_NONE) ->
  first (step w e).
Proof.
  intros Hfirst Hlate.
  destruct (decide (previous_call (client w) = PREVIOUS_CALL_NONE)) as [Hp|Hp].
  2:{ apply settled_first. apply settled_advances with (w := w).
      - apply first_settled; assumption.
      - apply advances_step. apply Hfirst. }
  destruct Hfirst as (Hh & Hpend & Hd).
  destruct (Hpend Hp) as (Hc & Hi & Hchain).
  assert (Hsame : first w) by (split; [exact Hh|split; assumption]).
  destruct e as [thr res|thr res|thr res|thr sender path iface n old new|thr| |];
    cbn [NameWatching.step].
  - destruct Hchain as [-> | [-> | ->]]; cbn; try exact Hsame.
    now apply first_connection_get_cb.
  - destruct Hchain as [-> | [-> | ->]]; cbn; try exact Hsame.
    now apply first_start_service_by_name_cb.
  - destruct Hchain as [-> | [-> | ->]]; cbn; try exact Hsame.
    now apply first_get_name_owner_cb.
  - destruct (_ && _); [|exact Hsame].
    unfold on_name_owner_changed. rewrite Hi. exact Hsame.
  - destruct (_ && _); [|exact Hsame].
    apply settled_first. unfold on_connection_disconnected.
    apply settled_call_vanished.
    + exact Hh.
    + intros H. contradiction.
    + intros _. exact Hc.
  - unfold dispatch_idle.
    destruct (idle_sources w) as [|data rest] eqn:Hq; [exact Hsame|].
    set (w1 := call_in_idle_cb data (set_idle_sources rest w)).
    assert (Hw1 : in_flight w1 = in_flight w /\
                  client w1 = client w).
    { subst w1. unfold call_in_idle_cb, actually_do_call.
      cbn [client set_idle_sources].
      destruct (call_type data), (name_appeared_handler (client w)),
        (name_vanished_handler (client w)); split; reflexivity. }
    destruct Hw1 as [Ef1 Ec1].
    destruct (chain_client_unref
                (match data_connection data with
                 | Some _ => effect [ConnectionUnref] w1
                 | None => w1
                 end)) as (Ef & Ep' & Ec & Ei).
    assert (Hfr : forall A (f : Watcher -> A),
               (forall e x, f (effect e x) = f x) ->
               f (match data_connection data with
                  | Some _ => effect [ConnectionUnref] w1
                  | None => w1
                  end) = f w1).
    { intros A f Hf. destruct (data_connection data); [apply Hf|reflexivity]. }
    unfold call_handler_data_free. fold w1.
    rewrite (Hfr _ in_flight) in Ef by reflexivity.
    rewrite (Hfr _ (fun x => previous_call (client x))) in Ep' by reflexivity.
    rewrite (Hfr _ (fun x => cancelled (client x))) in Ec by reflexivity.
    rewrite (Hfr _ (fun x => initialized (client x))) in Ei by reflexivity.
    rewrite Ec1 in *. rewrite Ef1 in Ef.
    split; [|split].
    + eapply both_handlers_advances; [exact Hh|].
      pose proof (advances_dispatch_idle w Hh) as H. unfold dispatch_idle in H.
      rewrite Hq in H. exact H.
    + intros _. rewrite Ec, Ei, Ef. split; [exact Hc|]. split; [exact Hi|exact Hchain].
    + intros H. exfalso. apply H. rewrite Ep'. exact Hp.
  - exfalso. now apply Hlate.
Qed.

Lemma calm_connection_get_cb thr res w :
  thr = main_context (client w) ->
  both_handlers w /\ paced w ->
  invoked (connection_get_cb thr res w) = invoked w ->
  both_handlers (connection_get_cb thr res w) /\ paced (connection_get_cb thr res w).
Proof.
  intros Hthr Hp. unfold NameWatching.connection_get_cb.
  rewrite (invoked_same_view _ _ (view_client_unref _)).
  intros Hcalm.
  eapply pace_same_view; [apply view_client_unref|].
  destruct (connection (client (on_client (set_connection res) w))).
  - eapply pace_same_view; [apply view_has_connection|].
    revert Hp. apply pace_same_view. repeat split.
  - apply calm_call_vanished; [exact Hthr| |exact Hcalm].
    revert Hp. apply pace_same_view. repeat split.
Qed.

Lemma in_order_cases w e thr :
  event_thread e = Some thr -> in_order w e = true ->
  idle_ok thr w \/
  (thr = main_context (client w) /\ invoked (step w e) = invoked w).
Proof.
  unfold NameWatching.in_order. intros ->. intros H.
  destruct (decide (thr = main_context (client w))) as [E|E];
    [|left; intros E'; contradiction].
  apply orb_true_iff in H as [H|H]; [apply orb_true_iff in H as [H|H]|].
  - apply bool_decide_eq_true in H. contradiction.
  - left. intros _. now apply bool_decide_eq_true in H.
  - right. split; [exact E|]. now apply bool_decide_eq_true in H.
Qed.

(** One event, taken in order, keeps the calls decided alternating. *)
Lemma pace_step w e :
  both_handlers w /\ paced w -> in_order w e = true ->
  both_handlers (step w e) /\ paced (step w e).
Proof.
  intros Hw Ho.
  assert (Hcases : forall thr, event_thread e = Some thr ->
            good thr w \/
            (thr = main_context (client w) /\ invoked (step w e) = invoked w)).
  { intros thr Hthr. destruct (in_order_cases w e thr Hthr Ho) as [H|H]; [left|now right].
    destruct Hw. split; [assumption|]. split; assumption. }
  assert (Hset : forall thr l, good thr w -> good thr (set_in_flight l w)).
  { intros thr l. apply good_same_view, view_set_in_flight. }
  assert (Hset' : forall l, both_handlers (set_in_flight l w) /\ paced (set_in_flight l w)).
  { intros l. revert Hw. apply pace_same_view, view_set_in_flight. }
  assert (Hout : forall thr w', good thr w' -> both_handlers w' /\ paced w').
  { intros thr w' (? & ? & _). split; assumption. }
  destruct e as [thr res|thr res|thr res|thr sender path iface n old new|thr| |];
    cbn [NameWatching.step] in *.
  - destruct (Hcases thr eq_refl) as [Hg|[Hthr Hcalm]];
      (destruct (complete _ _); [|assumption]).
    + apply (Hout thr), good_connection_get_cb, Hset, Hg.
    + now apply calm_connection_get_cb.
  - destruct (Hcases thr eq_refl) as [Hg|[Hthr Hcalm]];
      (destruct (complete _ _); [|assumption]).
    + apply (Hout thr), good_start_service_by_name_cb, Hset, Hg.
    + now apply calm_start_service_by_name_cb.
  - destruct (Hcases thr eq_refl) as [Hg|[Hthr Hcalm]];
      (destruct (complete _ _); [|assumption]).
    + apply (Hout thr), good_get_name_owner_cb, Hset, Hg.
    + now apply calm_get_name_owner_cb.
  - destruct (Hcases thr eq_refl) as [Hg|[Hthr Hcalm]];
      (destruct (_ && _); [|assumption]).
    + apply (Hout thr), good_on_name_owner_changed, Hg.
    + now apply calm_on_name_owner_changed.
  - destruct (Hcases thr eq_refl) as [Hg|[Hthr Hcalm]];
      (destruct (_ && _); [|assumption]).
    + apply (Hout thr), good_on_connection_disconnected, Hg.
    + now apply calm_on_connection_disconnected.
  - now apply pace_dispatch_idle.
  - destruct (_ || _); [assumption|]. now apply pace_unwatch_client.
Qed.

Lemma pace_run events : forall w,
  both_handlers w /\ paced w -> calls_in_order w events = true ->
  both_handlers (run w events) /\ paced (run w events).
Proof.
  induction events as [|e events IH]; intros w Hw Ho; [exact Hw|].
  cbn [NameWatching.calls_in_order] in Ho. apply andb_true_iff in Ho as [Ho Hrest].
  unfold NameWatching.run. cbn [fold_left]. apply IH; [|exact Hrest].
  now apply pace_step.
Qed.

Lemma view_new_client_on_bus thr next_id name flags appeared vanished user_data free_func :
  same_view (new_client thr next_id name flags appeared vanished user_data free_func)
            (watcher_on_bus thr next_id name flags appeared vanished user_data free_func).
Proof. repeat split. Qed.

Lemma view_new_client_on_connection
    thr next_id conn name flags appeared vanished user_data free_func :
  same_view (new_client thr next_id name flags appeared vanished user_data free_func)
            (watcher_on_connection G_BUS_NAME_WATCHER_FLAGS_AUTO_START
               thr next_id conn name flags appeared vanished user_data free_func).
Proof.
  unfold watcher_on_connection.
  eapply same_view_trans; [|apply view_has_connection]. repeat split.
Qed.

Lemma view_watched w :
  watched w ->
  exists thr next_id name flags appeared vanished user_data free_func,
    same_view (new_client thr next_id name flags appeared vanished user_data free_func) w.
Proof.
  intros [thr next_id name flags appeared vanished user_data free_func
         |thr next_id conn name flags appeared vanished user_data free_func];
    exists thr, next_id, name, flags, appeared, vanished, user_data, free_func.
  - apply view_new_client_on_bus.
  - apply view_new_client_on_connection.
Qed.

Lemma paced_watched w : watched w -> paced w.
Proof.
  intros H. destruct (view_watched w H)
    as (thr & next_id & name & flags & appeared & vanished & user_data & free_func & Hv).
  destruct Hv as (Hi & Hq & Hp & Hc & _).
  unfold paced, delivered, queued. rewrite Hi, Hq, Hp, Hc. cbn. split; [exact I|reflexivity].
Qed.

Lemma alternates_app_l l l' : alternates (l ++ l') -> alternates l.
Proof.
  induction l as [|a l IH]; intros H; [exact I|].
  destruct l as [|b l]; [exact I|].
  destruct H as [Hab H]. split; [exact Hab|]. apply IH. exact H.
Qed.

(** One watcher registered with both handlers, under whatever events reach
    it and in whatever order, provided no handler is invoked directly while
    an idle source of the watcher is still pending: the callbacks delivered
    to it alternate, and so do they followed by the callbacks still queued. *)
Theorem delivered_callbacks_alternate w events :
  watched w ->
  both_handlers w ->
  calls_in_order w events = true ->
  alternates (delivered (run w events)) /\
  alternates (delivered (run w events) ++ queued (run w events)).
Proof.
  intros Hw Hh Ho.
  destruct (pace_run events w (conj Hh (paced_watched w Hw)) Ho) as [_ [Halt _]].
  split; [|exact Halt]. eapply alternates_app_l. exact Halt.
Qed.

Lemma first_run events : forall w,
  first w ->
  NameWatching.unwatch_after_first_call G_BUS_NAME_WATCHER_FLAGS_AUTO_START w events = true ->
  first (run w events).
Proof.
  induction events as [|e events IH]; intros w Hw Hl; [exact Hw|].
  cbn [NameWatching.unwatch_after_first_call] in Hl.
  apply andb_true_iff in Hl as [He Hrest].
  unfold NameWatching.run. cbn [fold_left]. apply IH; [|exact Hrest].
  apply first_step; [exact Hw|].
  intros ->. now apply bool_decide_eq_true in He.
Qed.

Lemma first_watched w : watched w -> both_handlers w -> first w.
Proof.
  intros [thr next_id name flags appeared vanished user_data free_func
         |thr next_id conn name flags appeared vanished user_data free_func] Hh.
  - split; [exact Hh|]. split.
    + intros _. split; [reflexivity|]. split; [reflexivity|]. left. reflexivity.
    + intros H. exfalso. now apply H.
  - unfold watcher_on_connection, NameWatching.has_connection in *. cbn in *.
    destruct (negb _); cbn in *; (apply first_chain; cbn;
      [exact Hh|reflexivity|reflexivity|reflexivity|]);
      [left|right]; reflexivity.
Qed.

(** One watcher registered with both handlers, on which
    [g_bus_unwatch_name] is not called before the first delivery decision,
    has had a callback delivered by the time its last reference is dropped. *)
Theorem callback_before_last_unref w events :
  watched w ->
  both_handlers w ->
  NameWatching.unwatch_after_first_call G_BUS_NAME_WATCHER_FLAGS_AUTO_START w events = true ->
  freed (run w events) = true ->
  delivered (run w events) <> [].
Proof.
  intros Hw Hh Hlate Hfreed.
  pose proof (counted_run events w (counted_watched w Hw)) as Hc.
  pose proof (first_run events w (first_watched w Hw Hh) Hlate) as (_ & Hpend & Hd).
  unfold counted in Hc. rewrite Hfreed in Hc. unfold holders in Hc.
  assert (Hnone : in_flight (run w events) = [] /\ idle_sources (run w events) = []).
  { destruct (cancelled _), (in_flight (run w events)), (idle_sources (run w events));
      cbn in Hc; try lia. split; reflexivity. }
  destruct Hnone as [Hfl Hidle].
  assert (Hp : previous_call (client (run w events)) <> PREVIOUS_CALL_NONE).
  { intros Hp. destruct (Hpend Hp) as (_ & _ & [E|[E|E]]);
      rewrite Hfl in E; discriminate E. }
  specialize (Hd Hp). unfold calls, queued in Hd. rewrite Hidle in Hd.
  cbn in Hd. now rewrite app_nil_r in Hd.
Qed.

Lemma fixed_has_connection w : fixed w (has_connection w).
Proof.
  unfold NameWatching.has_connection.
  destruct (connection (client w)) as [conn|]; [|apply fixed_refl].
  destruct (negb _); repeat split.
Qed.

Lemma fixed_connection_get_cb thr res w : fixed w (connection_get_cb thr res w).
Proof.
  unfold NameWatching.connection_get_cb.
  eapply fixed_trans; [|apply fixed_client_unref].
  destruct (connection (client (on_client (set_connection res) w))).
  - eapply fixed_trans; [|apply fixed_has_connection]. repeat split.
  - eapply fixed_trans; [|apply fixed_call_vanished]. repeat split.
Qed.

(** Every event but the unwatch leaves the handlers and the cancelled flag
    as they are. *)
Lemma fixed_step w e : e <> Unwatch -> fixed w (step w e).
Proof.
  intros He.
  destruct e as [thr res|thr res|thr res|thr sender path iface n old new|thr| |];
    cbn [NameWatching.step]; try contradiction.
  - destruct (complete _ _); [|apply fixed_refl].
    eapply fixed_trans; [|apply fixed_connection_get_cb]. repeat split.
  - destruct (complete _ _); [|apply fixed_refl].
    eapply fixed_trans; [|apply fixed_start_service_by_name_cb]. repeat split.
  - destruct (complete _ _); [|apply fixed_refl].
    eapply fixed_trans; [|apply fixed_get_name_owner_cb]. repeat split.
  - destruct (_ && _); [|apply fixed_refl]. apply fixed_on_name_owner_changed.
  - destruct (_ && _); [|apply fixed_refl]. apply fixed_on_connection_disconnected.
  - apply fixed_dispatch_idle.
Qed.

(** *** Executions on one context *)

Lemma inline_connection_get_cb thr res w : inline thr w (connection_get_cb thr res w).
Proof.
  unfold NameWatching.connection_get_cb.
  eapply inline_trans; [|apply inline_client_unref].
  destruct (connection (client (on_client (set_connection res) w))) eqn:E.
  - unfold NameWatching.has_connection. rewrite E.
    destruct (negb _); inline_by_computation.
  - eapply inline_trans; [|apply inline_call_vanished]. inline_by_computation.
Qed.

(** On its own context a callback leaves the idle queue empty. *)
Lemma idle_empty_step w e :
  idle_sources w = [] ->
  NameWatching.on_own_context w e ->
  idle_sources (step w e) = [] /\
  main_context (client (step w e)) = main_context (client w).
Proof.
  intros Hidle Hown.
  assert (Hin : forall thr w', thr = main_context (client w) -> inline thr w w' ->
                  idle_sources w' = [] /\ main_context (client w') = main_context (client w)).
  { intros thr w' E [M I]. split; [|exact M]. rewrite (I E). exact Hidle. }
  destruct e as [thr res|thr res|thr res|thr sender path iface n old new|thr| |];
    cbn [NameWatching.step]; cbn in Hown.
  - destruct (complete _ _); [|split; [exact Hidle|reflexivity]].
    apply (Hin thr); [exact Hown|].
    eapply inline_trans; [|apply inline_connection_get_cb]. inline_by_computation.
  - destruct (complete _ _); [|split; [exact Hidle|reflexivity]].
    apply (Hin thr); [exact Hown|].
    eapply inline_trans; [|apply inline_start_service_by_name_cb]. inline_by_computation.
  - destruct (complete _ _); [|split; [exact Hidle|reflexivity]].
    apply (Hin thr); [exact Hown|].
    eapply inline_trans; [|apply inline_get_name_owner_cb]. inline_by_computation.
  - destruct (_ && _); [|split; [exact Hidle|reflexivity]].
    apply (Hin thr); [exact Hown|]. apply inline_on_name_owner_changed.
  - destruct (_ && _); [|split; [exact Hidle|reflexivity]].
    apply (Hin thr); [exact Hown|]. apply inline_on_connection_disconnected.
  - unfold dispatch_idle. rewrite Hidle. split; [exact Hidle|reflexivity].
  - destruct (_ || _); [split; [exact Hidle|reflexivity]|].
    apply (Hin (main_context (client w))); [reflexivity|].
    unfold unwatch_client.
    eapply inline_trans; [|apply inline_client_unref]. inline_by_computation.
Qed.

Lemma own_context_in_order events : forall w,
  idle_sources w = [] ->
  Forall (NameWatching.on_own_context w) events ->
  calls_in_order w events = true.
Proof.
  induction events as [|e events IH]; intros w Hidle Hown; [reflexivity|].
  apply Forall_cons in Hown as [He Hrest].
  cbn [NameWatching.calls_in_order]. apply andb_true_iff. split.
  - unfold NameWatching.in_order. destruct (event_thread e); [|reflexivity].
    rewrite (bool_decide_eq_true_2 _ Hidle). now rewrite orb_true_r.
  - destruct (idle_empty_step w e Hidle He) as [Hidle' Hctx].
    apply IH; [exact Hidle'|].
    eapply Forall_impl; [exact Hrest|].
    intros e'. unfold NameWatching.on_own_context. now rewrite Hctx.
Qed.

(** X14.  When every callback runs on the watcher's own context, as it does for
    replies and signals asked for from the thread that registered the
    watcher, nothing is ever queued and the callbacks alternate. *)
Theorem own_context_callbacks_alternate w events :
  watched w ->
  both_handlers w ->
  Forall (NameWatching.on_own_context w) events ->
  alternates (delivered (run w events)) /\ queued (run w events) = [].
Proof.
  intros Hw Hh Hown.
  assert (Hidle : idle_sources w = []).
  { destruct (view_watched w Hw) as (?&?&?&?&?&?&?&?&Hv).
    destruct Hv as (_ & -> & _). reflexivity. }
  split.
  - apply delivered_callbacks_alternate; [exact Hw|exact Hh|].
    now apply own_context_in_order.
  - clear Hw Hh. revert w Hidle Hown.
    induction events as [|e events IH]; intros w Hidle Hown.
    + unfold queued. cbn. now rewrite Hidle.
    + apply Forall_cons in Hown as [He Hrest].
      destruct (idle_empty_step w e Hidle He) as [Hidle' Hctx].
      unfold NameWatching.run. cbn [fold_left]. apply IH; [exact Hidle'|].
      eapply Forall_impl; [exact Hrest|].
      intros e'. unfold NameWatching.on_own_context. now rewrite Hctx.
Qed.

(** *** Closure of the connection *)

(** C3, as amended.  When the connection closes and the closed handler is
    still connected, Vanished is requested with cancellation honoured: a
    watcher cancelled beforehand gets nothing, neither invoked nor queued;
    a watcher that is not cancelled, whose previous call is not Vanished and
    which has a vanished handler, gets exactly one Vanished, invoked at once
    on its own context or queued from another, and a further closure changes
    nothing. *)
Theorem closure_honours_cancellation thr w :
  freed w = false ->
  0 < disconnected_signal_handler_id (client w) ->
  let w' := step w (ConnectionClosed thr) in
  (cancelled (client w) = true ->
     invoked w' = invoked w /\ idle_sources w' = idle_sources w) /\
  (cancelled (client w) = false ->
   previous_call (client w) <> PREVIOUS_CALL_VANISHED ->
   is_Some (name_vanished_handler (client w)) ->
     (thr = main_context (client w) ->
        delivered w' = delivered w ++ [CALL_TYPE_NAME_VANISHED] /\ queued w' = queued w) /\
     (thr <> main_context (client w) ->
        delivered w' = delivered w /\ queued w' = queued w ++ [CALL_TYPE_NAME_VANISHED])) /\
  (forall thr', step w' (ConnectionClosed thr') = w').
Proof.
  intros Hf Hid. cbn [NameWatching.step]. rewrite Hf.
  apply Z.ltb_lt in Hid. rewrite Hid. cbn [negb andb].
  unfold on_connection_disconnected.
  match goal with
  | |- context [call_vanished_handler thr ?x false] => set (w0 := x)
  end.
  split; [|split].
  - intros Hc. apply (call_vanished_when_cancelled thr w0). exact Hc.
  - intros Hc Hp Hh. apply (call_vanished_when_watching thr w0 Hc Hp Hh).
  - intros thr'. rewrite signal_ids_call_vanished.
    change (disconnected_signal_handler_id (client w0)) with 0.
    now rewrite andb_false_r.
Qed.

End OneWatcher.

(** *** A whole execution *)

Section Whole.
Variable G_BUS_NAME_WATCHER_FLAGS_AUTO_START : Z.
Variable g_dbus_is_name : string -> bool.

Abbreviation act :=
  (NameWatching.act G_BUS_NAME_WATCHER_FLAGS_AUTO_START g_dbus_is_name).
Abbreviation execute :=
  (NameWatching.execute G_BUS_NAME_WATCHER_FLAGS_AUTO_START g_dbus_is_name).
Abbreviation step := (NameWatching.step G_BUS_NAME_WATCHER_FLAGS_AUTO_START).

Lemma every_heap P wd wd' : heap wd' = heap wd -> every P wd -> every P wd'.
Proof. intros E H address w. rewrite E. apply H. Qed.

Lemma every_register P wd key w :
  every P wd -> P w -> every P (register_client key (length (heap wd)) wd w).
Proof.
  intros H Hw address x Hx. cbn in Hx.
  apply lookup_app_Some in Hx as [Hx|[_ Hx]]; [exact (H address x Hx)|].
  apply list_lookup_singleton_Some in Hx as [_ <-]. exact Hw.
Qed.

Lemma every_alter P (h : list Watcher) f (target : nat) :
  (forall (address : nat) w, h !! address = Some w -> P w) ->
  (forall w, h !! target = Some w -> P w -> P (f w)) ->
  forall (address : nat) w, alter f target h !! address = Some w -> P w.
Proof.
  intros H Hf address w Hw. rewrite list_lookup_alter in Hw.
  case_decide as E; [subst address|exact (H address w Hw)].
  destruct (h !! target) as [w0|] eqn:Hw0; [|discriminate Hw].
  cbn in Hw. injection Hw as <-. apply Hf; [reflexivity|]. exact (H target w0 Hw0).
Qed.

Lemma lookup_client_register key address wd w watcher_id :
  lookup_client (register_client key address wd w) watcher_id
  = if decide (key = watcher_id) then Some address else lookup_client wd watcher_id.
Proof.
  unfold lookup_client, register_client. cbn [map_id_to_client].
  rewrite lookup_insert. case_decide; [reflexivity|].
  destruct (map_id_to_client wd); [reflexivity|apply lookup_empty].
Qed.

Lemma counted_not_cancelled w : counted w -> cancelled (client w) = false -> freed w = false.
Proof.
  unfold counted, holders. intros Hc Hcan. destruct (freed w); [|reflexivity].
  rewrite Hcan in Hc. lia.
Qed.

Lemma sound_initial : sound initial_world.
Proof.
  split; [|split].
  - intros watcher_id address H. discriminate H.
  - intros id1 id2 address H. discriminate H.
  - intros address w H. discriminate H.
Qed.

Lemma sound_heap_log wd e : sound wd -> sound (add_log e wd).
Proof. intros H. exact H. Qed.

Lemma sound_register wd key w :
  sound wd -> counted w -> cancelled (client w) = false ->
  sound (register_client key (length (heap wd)) wd w).
Proof.
  intros (Hreg & Hinj & Hcount) Hc Hcan.
  assert (Hold : forall watcher_id address,
             lookup_client wd watcher_id = Some address ->
             (address < length (heap wd))%nat).
  { intros watcher_id address H. destruct (Hreg _ _ H) as (w0 & Hw0 & _).
    eapply lookup_lt_Some. exact Hw0. }
  split; [|split].
  - intros watcher_id address. rewrite lookup_client_register.
    case_decide.
    + intros [= <-]. exists w. split; [|exact Hcan]. cbn [heap register_client].
      now apply list_lookup_middle.
    + intros H'. destruct (Hreg _ _ H') as (w0 & Hw0 & Hc0).
      exists w0. split; [|exact Hc0]. cbn [heap register_client].
      now apply lookup_app_l_Some.
  - intros id1 id2 address. rewrite !lookup_client_register.
    repeat case_decide; try congruence.
    + intros [= <-] H2. apply Hold in H2. lia.
    + intros H1 [= <-]. apply Hold in H1. lia.
    + apply Hinj.
  - now apply every_register.
Qed.

Lemma sound_unwatch wd watcher_id : sound wd -> sound (g_bus_unwatch_name watcher_id wd).
Proof.
  intros Hs. unfold g_bus_unwatch_name.
  destruct (negb (0 <? watcher_id)); [exact Hs|].
  destruct (map_id_to_client wd) as [table|] eqn:Hmap; [|exact Hs].
  destruct (table !! watcher_id) as [target|] eqn:Hid; [|exact Hs].
  destruct Hs as (Hreg & Hinj & Hcount).
  assert (Hlook : forall i, lookup_client wd i = table !! i).
  { intros i. unfold lookup_client. now rewrite Hmap. }
  split; [|split].
  - intros i address. unfold lookup_client. cbn [map_id_to_client].
    rewrite lookup_delete_Some. intros [Hne Hi].
    rewrite <- Hlook in Hi. destruct (Hreg _ _ Hi) as (w0 & Hw0 & Hc0).
    exists w0. split; [|exact Hc0]. cbn [heap].
    rewrite list_lookup_alter_ne; [exact Hw0|].
    intros ->. apply Hne. apply (Hinj watcher_id i address); [|exact Hi].
    now rewrite Hlook.
  - intros id1 id2 address. unfold lookup_client. cbn [map_id_to_client].
    rewrite !lookup_delete_Some. intros [_ H1] [_ H2].
    apply (Hinj id1 id2 address); now rewrite Hlook.
  - unfold every. cbn [heap]. apply every_alter; [exact Hcount|].
    intros w Hw Hc.
    destruct (Hreg watcher_id target) as (w0 & Hw0 & Hc0); [now rewrite Hlook|].
    rewrite Hw in Hw0. injection Hw0 as <-.
    apply counted_unwatch_client; [exact Hc| |exact Hc0].
    now apply counted_not_cancelled.
Qed.

Lemma sound_deliver wd address e :
  e <> Unwatch -> sound wd ->
  sound (deliver G_BUS_NAME_WATCHER_FLAGS_AUTO_START address e wd).
Proof.
  intros He (Hreg & Hinj & Hcount). split; [|split].
  - intros watcher_id a H. destruct (Hreg _ _ H) as (w0 & Hw0 & Hc0).
    cbn [heap deliver]. rewrite list_lookup_alter.
    case_decide as E; [subst a|exists w0; split; assumption].
    exists (step w0 e). rewrite Hw0. split; [reflexivity|].
    destruct (fixed_step G_BUS_NAME_WATCHER_FLAGS_AUTO_START w0 e He) as (_ & _ & ->).
    exact Hc0.
  - exact Hinj.
  - unfold every. cbn [heap deliver]. apply every_alter; [exact Hcount|].
    intros w _ Hc. now apply counted_step.
Qed.

Lemma counted_new_client thr next_id name flags appeared vanished user_data free_func :
  counted (watcher_on_bus thr next_id name flags appeared vanished user_data free_func).
Proof. apply (counted_watched G_BUS_NAME_WATCHER_FLAGS_AUTO_START). constructor. Qed.

Lemma cancelled_watched w :
  NameWatching.watched G_BUS_NAME_WATCHER_FLAGS_AUTO_START w -> cancelled (client w) = false.
Proof.
  intros H. destruct (view_watched _ _ H) as (?&?&?&?&?&?&?&?&Hv).
  destruct Hv as (_ & _ & _ & -> & _). reflexivity.
Qed.

Lemma sound_act wd a : sound wd -> sound (act wd a).
Proof.
  intros Hs.
  destruct a as [thr bus_type name flags appeared vanished user_data free_func
                |thr conn name flags appeared vanished user_data free_func
                |watcher_id|address e]; cbn [NameWatching.act].
  - unfold g_bus_watch_name. destruct (negb _); cbn [snd]; [exact Hs|].
    apply sound_register; [exact Hs|apply counted_new_client|reflexivity].
  - unfold g_bus_watch_name_on_connection. destruct conn as [conn|]; cbn [snd]; [|exact Hs].
    destruct (negb _); cbn [snd]; [exact Hs|].
    apply sound_register; [exact Hs| |].
    + apply (counted_watched G_BUS_NAME_WATCHER_FLAGS_AUTO_START). constructor.
    + apply cancelled_watched. constructor.
  - now apply sound_unwatch.
  - destruct e; try (apply sound_deliver; [discriminate|exact Hs]). exact Hs.
Qed.

Lemma handlers_unwatch_client w : both_handlers (unwatch_client w) -> both_handlers w.
Proof.
  destruct (advances_unwatch_client w) as (A & V & _).
  unfold both_handlers. now rewrite A, V.
Qed.

Lemma handlers_step w e : e <> Unwatch -> both_handlers (step w e) -> both_handlers w.
Proof.
  intros He. destruct (fixed_step G_BUS_NAME_WATCHER_FLAGS_AUTO_START w e He) as (A & V & _).
  unfold both_handlers. now rewrite A, V.
Qed.

(** A property of every client that registration establishes and that an
    unwatch and an event keep, survives an action. *)
Lemma every_act P wd a :
  every P wd ->
  (forall w, NameWatching.watched G_BUS_NAME_WATCHER_FLAGS_AUTO_START w -> P w) ->
  (forall watcher_id target w,
      a = UnwatchName watcher_id -> 0 < watcher_id ->
      lookup_client wd watcher_id = Some target -> heap wd !! target = Some w ->
      P w -> P (unwatch_client w)) ->
  (forall address e w,
      a = Reach address e -> e <> Unwatch -> heap wd !! address = Some w ->
      P w -> P (step w e)) ->
  every P (act wd a).
Proof.
  intros Hp Hnew Hunwatch Hevent.
  destruct a as [thr bus_type name flags appeared vanished user_data free_func
                |thr conn name flags appeared vanished user_data free_func
                |watcher_id|address e]; cbn [NameWatching.act].
  - unfold g_bus_watch_name. destruct (negb _); cbn [snd]; [exact Hp|].
    apply every_register; [exact Hp|]. apply Hnew. constructor.
  - unfold g_bus_watch_name_on_connection. destruct conn as [conn|]; cbn [snd]; [|exact Hp].
    destruct (negb _); cbn [snd]; [exact Hp|].
    apply every_register; [exact Hp|]. apply Hnew. constructor.
  - unfold g_bus_unwatch_name. destruct (0 <? watcher_id) eqn:Hpos; cbn [negb]; [|exact Hp].
    destruct (map_id_to_client wd) as [table|] eqn:Hmap; [|exact Hp].
    destruct (table !! watcher_id) as [target|] eqn:Hid; [|exact Hp].
    unfold every. cbn [heap]. apply every_alter; [exact Hp|].
    intros w Hw. apply (Hunwatch watcher_id target w eq_refl); [now apply Z.ltb_lt| |exact Hw].
    unfold lookup_client. now rewrite Hmap.
  - assert (H : e <> Unwatch ->
                every P (deliver G_BUS_NAME_WATCHER_FLAGS_AUTO_START address e wd)).
    { intros He. unfold every. cbn [heap deliver]. apply every_alter; [exact Hp|].
      intros w Hw. now apply (Hevent address e w eq_refl). }
    destruct e; try (apply H; discriminate). exact Hp.
Qed.

(** The same for the client at one address, whatever happens to the
    others. *)
Lemma at_act P (target : nat) wd a :
  at_address target P wd ->
  (forall w, NameWatching.watched G_BUS_NAME_WATCHER_FLAGS_AUTO_START w -> P w) ->
  (forall watcher_id w,
      a = UnwatchName watcher_id -> 0 < watcher_id ->
      lookup_client wd watcher_id = Some target -> heap wd !! target = Some w ->
      P w -> P (unwatch_client w)) ->
  (forall e w,
      a = Reach target e -> e <> Unwatch -> heap wd !! target = Some w ->
      P w -> P (step w e)) ->
  at_address target P (act wd a).
Proof.
  intros Hp Hnew Hunwatch Hevent.
  assert (Hregister : forall key w,
             P w -> at_address target P (register_client key (length (heap wd)) wd w)).
  { intros key w Hw x Hx. cbn in Hx.
    apply lookup_app_Some in Hx as [Hx|[_ Hx]]; [exact (Hp x Hx)|].
    apply list_lookup_singleton_Some in Hx as [_ <-]. exact Hw. }
  assert (Halter : forall f (address : nat),
             (address = target -> forall w, heap wd !! target = Some w -> P w -> P (f w)) ->
             forall x, alter f address (heap wd) !! target = Some x -> P x).
  { intros f address Hf x Hx. rewrite list_lookup_alter in Hx.
    case_decide as E; [subst address|exact (Hp x Hx)].
    destruct (heap wd !! target) as [w0|] eqn:Hw0; [|discriminate Hx].
    cbn in Hx. injection Hx as <-. apply (Hf eq_refl w0 eq_refl). exact (Hp w0 Hw0). }
  destruct a as [thr bus_type name flags appeared vanished user_data free_func
                |thr conn name flags appeared vanished user_data free_func
                |watcher_id|address e]; cbn [NameWatching.act].
  - unfold g_bus_watch_name. destruct (negb _); cbn [snd]; [exact Hp|].
    apply Hregister, Hnew. constructor.
  - unfold g_bus_watch_name_on_connection. destruct conn as [conn|]; cbn [snd]; [|exact Hp].
    destruct (negb _); cbn [snd]; [exact Hp|].
    apply Hregister, Hnew. constructor.
  - unfold g_bus_unwatch_name. destruct (0 <? watcher_id) eqn:Hpos; cbn [negb]; [|exact Hp].
    destruct (map_id_to_client wd) as [table|] eqn:Hmap; [|exact Hp].
    destruct (table !! watcher_id) as [address|] eqn:Hid; [|exact Hp].
    unfold at_address. cbn [heap]. apply Halter. intros -> w Hw.
    apply (Hunwatch watcher_id w eq_refl); [now apply Z.ltb_lt| |exact Hw].
    unfold lookup_client. now rewrite Hmap.
  - assert (H : e <> Unwatch ->
                at_address target P (deliver G_BUS_NAME_WATCHER_FLAGS_AUTO_START address e wd)).
    { intros He. unfold at_address. cbn [heap deliver]. apply Halter. intros -> w Hw.
      now apply (Hevent e w eq_refl). }
    destruct e; try (apply H; discriminate). exact Hp.
Qed.

Lemma paces_act (target : nat) wd a :
  at_address target paces wd ->
  NameWatching.action_in_order_at G_BUS_NAME_WATCHER_FLAGS_AUTO_START target wd a = true ->
  at_address target paces (act wd a).
Proof.
  intros Hp Ho. apply at_act; [exact Hp| | |].
  - intros w Hw _. now apply (paced_watched G_BUS_NAME_WATCHER_FLAGS_AUTO_START).
  - intros watcher_id w _ _ _ _ Hw Hh. apply pace_unwatch_client.
    split; [now apply handlers_unwatch_client|].
    apply Hw. now apply handlers_unwatch_client.
  - intros e w -> He Hlook Hw Hh.
    cbn [NameWatching.action_in_order_at NameWatching.action_in_order] in Ho.
    rewrite bool_decide_eq_true_2 in Ho by reflexivity. rewrite Hlook in Ho.
    apply (pace_step G_BUS_NAME_WATCHER_FLAGS_AUTO_START w e); [|exact Ho].
    pose proof (handlers_step w e He Hh) as Hh'. split; [exact Hh'|now apply Hw].
Qed.

Lemma paces_execute (target : nat) actions : forall wd,
  at_address target paces wd ->
  NameWatching.actions_in_order_at G_BUS_NAME_WATCHER_FLAGS_AUTO_START g_dbus_is_name
    target wd actions = true ->
  at_address target paces (execute wd actions).
Proof.
  induction actions as [|a actions IH]; intros wd Hp Ho; [exact Hp|].
  cbn [NameWatching.actions_in_order_at] in Ho. apply andb_true_iff in Ho as [Ha Hrest].
  unfold NameWatching.execute. cbn [fold_left]. apply IH; [|exact Hrest].
  now apply paces_act.
Qed.

(** On its own context a client never has an idle source pending, so the
    proviso holds. *)
Lemma own_context_in_order_at (target : nat) actions : forall wd,
  at_address target (fun w => idle_sources w = []) wd ->
  NameWatching.actions_on_own_context_at G_BUS_NAME_WATCHER_FLAGS_AUTO_START g_dbus_is_name
    target wd actions ->
  NameWatching.actions_in_order_at G_BUS_NAME_WATCHER_FLAGS_AUTO_START g_dbus_is_name
    target wd actions = true.
Proof.
  induction actions as [|a actions IH]; intros wd Hidle Hown; [reflexivity|].
  cbn [NameWatching.actions_on_own_context_at] in Hown. destruct Hown as [Ha Hrest].
  cbn [NameWatching.actions_in_order_at]. apply andb_true_iff. split.
  - destruct a as [| | |address e]; try reflexivity.
    cbn [NameWatching.action_in_order_at NameWatching.action_in_order].
    case_bool_decide as E; [subst address|reflexivity].
    destruct (heap wd !! target) as [w|] eqn:Hw; [|reflexivity].
    unfold NameWatching.in_order. destruct (event_thread e); [|reflexivity].
    rewrite (bool_decide_eq_true_2 _ (Hidle w Hw)). now rewrite orb_true_r.
  - apply IH; [|exact Hrest]. apply at_act; [exact Hidle| | |].
    + intros w Hw. destruct (view_watched _ w Hw) as (?&?&?&?&?&?&?&?&Hv).
      destruct Hv as (_ & -> & _). reflexivity.
    + intros watcher_id w _ _ _ _ Hq. unfold NameWatching.unwatch_client. cbv zeta.
      destruct (view_client_unref (on_client (set_cancelled true) w)) as (_ & -> & _).
      exact Hq.
    + intros e w -> _ Hw Hq.
      cbn [NameWatching.action_on_own_context_at] in Ha.
      exact (proj1 (idle_empty_step G_BUS_NAME_WATCHER_FLAGS_AUTO_START w e Hq
                      (Ha eq_refl w Hw))).
Qed.



Lemma sound_execute actions : forall wd, sound wd -> sound (execute wd actions).
Proof.
  induction actions as [|a actions IH]; intros wd Hs; [exact Hs|].
  unfold NameWatching.execute. cbn [fold_left]. apply IH. now apply sound_act.
Qed.

(** C1, as amended.  From the initial state, whatever the entry points are
    called with and whatever events reach the clients, in whatever order: a
    watcher registered with both handlers has its delivered callbacks
    alternate (and so do they followed by the callbacks still queued),
    provided no handler of that watcher is invoked directly while one of its
    own idle sources is pending, whatever happens to the other watchers; in
    particular whenever all the callbacks that reach that watcher run on its
    own context. *)
Theorem every_watcher_alternates actions (address : nat) w :
  NameWatching.actions_in_order_at G_BUS_NAME_WATCHER_FLAGS_AUTO_START g_dbus_is_name
    address initial_world actions = true \/
  NameWatching.actions_on_own_context_at G_BUS_NAME_WATCHER_FLAGS_AUTO_START g_dbus_is_name
    address initial_world actions ->
  heap (execute initial_world actions) !! address = Some w ->
  both_handlers w ->
  alternates (delivered w) /\ alternates (delivered w ++ queued w).
Proof.
  intros Hproviso Hw Hh.
  assert (Ho : NameWatching.actions_in_order_at G_BUS_NAME_WATCHER_FLAGS_AUTO_START
                 g_dbus_is_name address initial_world actions = true).
  { destruct Hproviso as [Ho|Hown]; [exact Ho|].
    apply own_context_in_order_at; [|exact Hown]. intros x H. discriminate H. }
  assert (Hinit : at_address address paces initial_world) by (intros x H; discriminate H).
  destruct (paces_execute address actions initial_world Hinit Ho w Hw Hh) as [Halt _].
  split; [|exact Halt]. eapply alternates_app_l. exact Halt.
Qed.


End Whole.

(** *** Scenarios *)

Example scenario_5_delivered :
  delivered (NameWatching.run AUTO_START (watcher_of (Some 1%nat) (Some 2%nat)) scenario_5)
  = [CALL_TYPE_NAME_APPEARED; CALL_TYPE_NAME_VANISHED; CALL_TYPE_NAME_APPEARED].
Proof. vm_compute. reflexivity. Qed.

Example execution_5_heap :
  heap (NameWatching.execute AUTO_START any_name initial_world execution_5)
  = [watcher_5].
Proof. vm_compute. reflexivity. Qed.

(** The proviso is asked of the watcher alone: in this execution the first
    watcher has a direct call overtake its idle source, and the second, served
    on its own context, alternates. *)
Lemma every_watcher_alternates_witness :
  alternates (delivered second_watcher) /\
  alternates (delivered second_watcher ++ queued second_watcher).
Proof.
  apply (every_watcher_alternates AUTO_START any_name execution_two_contexts 1
           second_watcher).
  - left. vm_compute. reflexivity.
  - vm_compute. reflexivity.
  - split; eexists; vm_compute; reflexivity.
Defined.

Example execution_two_contexts_provisos :
  NameWatching.actions_in_order AUTO_START any_name initial_world execution_two_contexts
  = false /\
  NameWatching.actions_in_order_at AUTO_START any_name 1 initial_world execution_two_contexts
  = true /\
  delivered second_watcher = [CALL_TYPE_NAME_APPEARED; CALL_TYPE_NAME_VANISHED].
Proof. vm_compute. repeat split. Qed.

(** There the callbacks of the second watcher all run on its own context,
    which those of the first do not. *)
Example execution_two_contexts_own_context :
  NameWatching.actions_on_own_context_at AUTO_START any_name 1 initial_world
    execution_two_contexts.
Proof.
  unfold execution_two_contexts.
  cbn [NameWatching.actions_on_own_context_at NameWatching.action_on_own_context_at].
  repeat split; try (intros E; discriminate E);
    intros _ w Hw; vm_compute in Hw; inversion Hw; reflexivity.
Qed.

(** C1, counterexample.  A watcher is registered without an appeared
    handler, and all its callbacks run on its own context: the name has no
    owner, gets one, and loses it.  The two callbacks delivered are both
    Vanished. *)
Lemma vanished_delivered_twice_in_a_row :
  let actions :=
    Watch None 0 "n" 0 None (Some 2%nat) 0 None
    :: reach_all 0 [BusGetFinished None (Some bus);
                    GetNameOwnerFinished None None;
                    owner_changed None "n" "" ":1.6";
                    owner_changed None "n" ":1.6" ""] in
  let wd := NameWatching.execute AUTO_START any_name initial_world actions in
  NameWatching.actions_in_order AUTO_START any_name initial_world actions = true /\
  exists w, heap wd !! 0%nat = Some w /\
            delivered w = [CALL_TYPE_NAME_VANISHED; CALL_TYPE_NAME_VANISHED] /\
            ~ alternates (delivered w).
Proof.
  vm_compute. split; [reflexivity|]. eexists. split; [reflexivity|].
  split; [reflexivity|]. intros [H _]. now apply H.
Qed.

(** With both handlers, a call queued from another thread can be overtaken
    by calls made directly on the watcher's context: Appeared is queued,
    Vanished and Appeared are delivered, and then the idle source fires. *)
Example direct_call_overtakes_idle_source :
  let events := [BusGetFinished None (Some bus);
                 GetNameOwnerFinished (Some 7%nat) (Some ":1.5"%string);
                 owner_changed None "n" ":1.5" "";
                 owner_changed None "n" "" ":1.6";
                 IdleDispatch] in
  let w := NameWatching.run AUTO_START (watcher_of (Some 1%nat) (Some 2%nat)) events in
  delivered w = [CALL_TYPE_NAME_VANISHED; CALL_TYPE_NAME_APPEARED; CALL_TYPE_NAME_APPEARED] /\
  NameWatching.calls_in_order AUTO_START (watcher_of (Some 1%nat) (Some 2%nat)) events = false.
Proof. vm_compute. split; reflexivity. Qed.


Example execution_early_and_late_heap :
  exists early,
    heap (NameWatching.execute AUTO_START any_name initial_world execution_early_and_late)
    = [early; late_watcher] /\
    freed early = true /\ delivered early = [] /\
    freed late_watcher = true /\ delivered late_watcher = [CALL_TYPE_NAME_APPEARED].
Proof. eexists. vm_compute. repeat split. Qed.


Lemma closure_honours_cancellation_witness :
  let w' := NameWatching.step AUTO_START appeared_watcher (ConnectionClosed None) in
  (cancelled (client appeared_watcher) = true ->
     invoked w' = invoked appeared_watcher /\
     idle_sources w' = idle_sources appeared_watcher) /\
  (cancelled (client appeared_watcher) = false ->
   previous_call (client appeared_watcher) <> PREVIOUS_CALL_VANISHED ->
   is_Some (name_vanished_handler (client appeared_watcher)) ->
     (None = main_context (client appeared_watcher) ->
        delivered w' = delivered appeared_watcher ++ [CALL_TYPE_NAME_VANISHED] /\
        queued w' = queued appeared_watcher) /\
     (None <> main_context (client appeared_watcher) ->
        delivered w' = delivered appeared_watcher /\
        queued w' = queued appeared_watcher ++ [CALL_TYPE_NAME_VANISHED])) /\
  (forall thr', NameWatching.step AUTO_START w' (ConnectionClosed thr') = w').
Proof.
  apply (closure_honours_cancellation AUTO_START None appeared_watcher).
  - vm_compute. reflexivity.
  - vm_compute. reflexivity.
Defined.

(** The seventh scenario, without cancellation: one Vanished. *)
Example scenario_7 :
  delivered (NameWatching.step AUTO_START appeared_watcher (ConnectionClosed None))
  = [CALL_TYPE_NAME_APPEARED; CALL_TYPE_NAME_VANISHED].
Proof. vm_compute. reflexivity. Qed.

(** C3, counterexample.  A watcher is registered with both handlers and
    reaches the Appeared state; [g_bus_unwatch_name] cancels it, which drops
    the last reference and disconnects the closed handler; the connection
    then closes.  Appeared is the only callback ever delivered. *)
Lemma cancelled_watcher_gets_no_vanished :
  let '(watcher_id, wd) :=
    g_bus_watch_name any_name None 0 "n" 0 (Some 1%nat) (Some 2%nat) 0 None initial_world in
  let wd := deliver AUTO_START 0 (BusGetFinished None (Some bus)) wd in
  let wd := deliver AUTO_START 0 (GetNameOwnerFinished None (Some ":1.5"%string)) wd in
  let appeared := wd in
  let wd := g_bus_unwatch_name watcher_id wd in
  let wd := deliver AUTO_START 0 (ConnectionClosed None) wd in
  (exists w, heap appeared !! 0%nat = Some w /\
             previous_call (client w) = PREVIOUS_CALL_APPEARED /\
             delivered w = [CALL_TYPE_NAME_APPEARED]) /\
  (exists w, heap wd !! 0%nat = Some w /\
             cancelled (client w) = true /\
             delivered w = [CALL_TYPE_NAME_APPEARED] /\ queued w = []).
Proof.
  vm_compute. split; eexists; repeat split.
Qed.

(** The same when the cancelled client is still alive as the connection
    closes, kept by an idle source queued from another thread: the closed
    handler runs, [previous_call] becomes Vanished, and the handler is not
    invoked. *)
Example live_cancelled_watcher_gets_no_vanished :
  let w := NameWatching.run AUTO_START (watcher_of (Some 1%nat) (Some 2%nat))
             [BusGetFinished None (Some bus);
              GetNameOwnerFinished (Some 7%nat) (Some ":1.5"%string);
              Unwatch] in
  let w' := NameWatching.step AUTO_START w (ConnectionClosed None) in
  freed w = false /\ cancelled (client w) = true /\
  previous_call (client w) = PREVIOUS_CALL_APPEARED /\
  previous_call (client w') = PREVIOUS_CALL_VANISHED /\
  invoked w' = invoked w /\ idle_sources w' = idle_sources w /\
  delivered (NameWatching.step AUTO_START w' IdleDispatch) = [CALL_TYPE_NAME_APPEARED].
Proof. vm_compute. repeat split. Qed.

(** *** The registry *)

Lemma cancelled_unwatch_client w : cancelled (client (unwatch_client w)) = true.
Proof.
  unfold unwatch_client, client_unref. destruct (_ =? 0); [|reflexivity].
  unfold client_finalize.
  destruct (connection _), (user_data_free_func _); reflexivity.
Qed.

(** C9.  For a nonzero id that the table maps to a client,
    [g_bus_unwatch_name] removes the mapping, leaves the other mappings and
    the log alone, and sets the client's cancelled flag; calling it again
    with the same id logs the invalid-id warning and changes neither the
    table, nor the counter, nor any client.  So does a call with a nonzero id
    that the table does not hold; a call with the reserved id 0 logs a
    critical message and changes nothing either. *)
Theorem unwatch_removes_then_warns wd table watcher_id address w :
  map_id_to_client wd = Some table ->
  table !! watcher_id = Some address ->
  heap wd !! address = Some w ->
  0 < watcher_id ->
  let wd' := g_bus_unwatch_name watcher_id wd in
  let wd'' := g_bus_unwatch_name watcher_id wd' in
  (map_id_to_client wd' = Some (delete watcher_id table) /\
   delete watcher_id table !! watcher_id = None /\
   (forall other, other <> watcher_id -> delete watcher_id table !! other = table !! other) /\
   heap wd' !! address = Some (unwatch_client w) /\
   cancelled (client (unwatch_client w)) = true /\
   log wd' = log wd /\ next_global_id wd' = next_global_id wd) /\
  (log wd'' = log wd' ++ [WarnInvalidId watcher_id] /\
   map_id_to_client wd'' = map_id_to_client wd' /\
   heap wd'' = heap wd' /\ next_global_id wd'' = next_global_id wd') /\
  (forall unknown wd0,
     0 < unknown ->
     (forall t, map_id_to_client wd0 = Some t -> t !! unknown = None) ->
     g_bus_unwatch_name unknown wd0 = add_log (WarnInvalidId unknown) wd0) /\
  (forall wd0, g_bus_unwatch_name 0 wd0 = add_log (Critical "watcher_id > 0") wd0).
Proof.
  intros Hmap Hid Hw Hpos wd' wd''.
  assert (Hpos' : negb (0 <? watcher_id) = false) by (apply Z.ltb_lt in Hpos; now rewrite Hpos).
  assert (E' : wd' = {| next_global_id := next_global_id wd;
                        map_id_to_client := Some (delete watcher_id table);
                        heap := alter unwatch_client address (heap wd);
                        log := log wd |}).
  { subst wd'. unfold g_bus_unwatch_name. now rewrite Hpos', Hmap, Hid. }
  split; [|split; [|split; [|reflexivity]]].
  - rewrite E'. cbn [map_id_to_client heap log next_global_id].
    split; [reflexivity|]. split; [apply lookup_delete_eq|].
    split; [intros other Hne; now apply lookup_delete_ne|].
    split; [rewrite list_lookup_alter_eq, Hw; reflexivity|].
    split; [apply cancelled_unwatch_client|]. split; reflexivity.
  - assert (Hmap' : map_id_to_client wd' = Some (delete watcher_id table))
      by (rewrite E'; reflexivity).
    subst wd''. unfold g_bus_unwatch_name. rewrite Hpos', Hmap', lookup_delete_eq.
    repeat split. exact Hmap'.
  - intros unknown wd0 Hu Hnone. unfold g_bus_unwatch_name.
    apply Z.ltb_lt in Hu. rewrite Hu. cbn [negb].
    destruct (map_id_to_client wd0) as [t|]; [|reflexivity].
    now rewrite (Hnone t eq_refl).
Qed.

Lemma unwatch_removes_then_warns_witness :
  let wd' := g_bus_unwatch_name 1 one_watcher in
  let wd'' := g_bus_unwatch_name 1 wd' in
  (map_id_to_client wd' = Some (delete 1 {[1 := 0%nat]}) /\
   delete 1 ({[1 := 0%nat]} : gmap Z nat) !! 1 = None /\
   (forall other, other <> 1 ->
      delete 1 ({[1 := 0%nat]} : gmap Z nat) !! other
      = ({[1 := 0%nat]} : gmap Z nat) !! other) /\
   heap wd' !! 0%nat = Some (unwatch_client (watcher_of (Some 1%nat) (Some 2%nat))) /\
   cancelled (client (unwatch_client (watcher_of (Some 1%nat) (Some 2%nat)))) = true /\
   log wd' = log one_watcher /\ next_global_id wd' = next_global_id one_watcher) /\
  (log wd'' = log wd' ++ [WarnInvalidId 1] /\
   map_id_to_client wd'' = map_id_to_client wd' /\
   heap wd'' = heap wd' /\ next_global_id wd'' = next_global_id wd') /\
  (forall unknown wd0,
     0 < unknown ->
     (forall t, map_id_to_client wd0 = Some t -> t !! unknown = None) ->
     g_bus_unwatch_name unknown wd0 = add_log (WarnInvalidId unknown) wd0) /\
  (forall wd0, g_bus_unwatch_name 0 wd0 = add_log (Critical "watcher_id > 0") wd0).
Proof.
  apply (unwatch_removes_then_warns one_watcher {[1 := 0%nat]} 1 0%nat
           (watcher_of (Some 1%nat) (Some 2%nat))).
  - reflexivity.
  - reflexivity.
  - reflexivity.
  - lia.
Defined.

(** The counter is a [guint] that is never checked ("TODO: uh oh, handle
    overflow"): the registration after the one that got 2^32 - 1 gets 0, the
    id [g_bus_unwatch_name] refuses. *)
Example id_wraps_to_zero :
  let wd := {| next_global_id := 2 ^ 32 - 1; map_id_to_client := None;
               heap := []; log := [] |} in
  let '(id1, wd) := g_bus_watch_name any_name None 0 "n" 0 None None 0 None wd in
  let '(id2, wd) := g_bus_watch_name any_name None 0 "n" 0 None None 0 None wd in
  id1 = 2 ^ 32 - 1 /\ id2 = 0 /\ lookup_client wd 0 = Some 1%nat /\
  lookup_client (g_bus_unwatch_name 0 wd) 0 = Some 1%nat.
Proof. vm_compute. repeat split. Qed.

Section Names.
Variable g_dbus_is_name : string -> bool.

(** C10.  With a name that is not a bus name, either entry point returns 0
    and leaves the table, the counter and the clients as they were: no
    client is created, so there is none a callback could be delivered to. *)
Theorem watch_invalid_name_returns_zero
    thr bus_type conn name flags appeared vanished user_data free_func wd :
  g_dbus_is_name name = false ->
  let r1 := g_bus_watch_name g_dbus_is_name thr bus_type name flags appeared vanished
              user_data free_func wd in
  let r2 := g_bus_watch_name_on_connection AUTO_START g_dbus_is_name thr conn name flags
              appeared vanished user_data free_func wd in
  (fst r1 = 0 /\ map_id_to_client (snd r1) = map_id_to_client wd /\
   heap (snd r1) = heap wd /\ next_global_id (snd r1) = next_global_id wd) /\
  (fst r2 = 0 /\ map_id_to_client (snd r2) = map_id_to_client wd /\
   heap (snd r2) = heap wd /\ next_global_id (snd r2) = next_global_id wd).
Proof.
  intros Hname r1 r2. subst r1 r2.
  unfold g_bus_watch_name, g_bus_watch_name_on_connection. rewrite Hname.
  cbn [negb]. split; [repeat split|]. destruct conn; repeat split.
Qed.

(** A valid name is registered under the value of the counter, at a fresh
    address, and the counter moves on, wrapping at 2^32. *)
Lemma watch_valid_name thr bus_type name flags appeared vanished user_data free_func wd :
  g_dbus_is_name name = true ->
  let r := g_bus_watch_name g_dbus_is_name thr bus_type name flags appeared vanished
             user_data free_func wd in
  fst r = next_global_id wd /\
  next_global_id (snd r) = (next_global_id wd + 1) `mod` 2 ^ 32 /\
  heap (snd r) = heap wd ++ [watcher_on_bus thr (next_global_id wd) name flags
                               appeared vanished user_data free_func] /\
  (exists table, map_id_to_client (snd r) = Some table /\
                 table !! next_global_id wd = Some (length (heap wd))).
Proof.
  intros Hname r. subst r. unfold g_bus_watch_name. rewrite Hname. cbn [negb fst snd].
  unfold register_client. cbn. repeat split.
  eexists. split; [reflexivity|]. apply lookup_insert_eq.
Qed.

End Names.

Lemma watch_invalid_name_returns_zero_witness :
  let invalid (name : string) := negb (String.eqb name "") in
  let r1 := g_bus_watch_name invalid None 0 "" 0 (Some 1%nat) (Some 2%nat) 0 None
              one_watcher in
  let r2 := g_bus_watch_name_on_connection AUTO_START invalid None (Some bus) "" 0
              (Some 1%nat) (Some 2%nat) 0 None one_watcher in
  (fst r1 = 0 /\ map_id_to_client (snd r1) = map_id_to_client one_watcher /\
   heap (snd r1) = heap one_watcher /\ next_global_id (snd r1) = next_global_id one_watcher) /\
  (fst r2 = 0 /\ map_id_to_client (snd r2) = map_id_to_client one_watcher /\
   heap (snd r2) = heap one_watcher /\ next_global_id (snd r2) = next_global_id one_watcher).
Proof.
  intros invalid.
  apply (watch_invalid_name_returns_zero invalid None 0 (Some bus) "" 0
           (Some 1%nat) (Some 2%nat) 0%nat None one_watcher).
  reflexivity.
Defined.

(** *** What every callback is made of *)

(** A relation between the watcher before and after that is kept by the
    steps the callbacks are made of is kept by the callbacks; those that
    release a reference do so last. *)
Section Shape.
Variable G_BUS_NAME_WATCHER_FLAGS_AUTO_START : Z.
Variable R : Watcher -> Watcher -> Prop.
Hypothesis R_refl : forall w, R w w.
Hypothesis R_trans : forall w1 w2 w3, R w1 w2 -> R w2 w3 -> R w1 w3.
Hypothesis R_effect : forall l w,
  forallb (fun e => negb (is_user_data_free e)) l = true -> R w (effect l w).
Hypothesis R_in_flight : forall l w, R w (set_in_flight l w).
Hypothesis R_ref : forall w, R w (client_ref w).
Hypothesis R_owner : forall v w, R w (on_client (set_name_owner v) w).
Hypothesis R_connection : forall v w, R w (on_client (set_connection v) w).
Hypothesis R_ids : forall a b w, R w (on_client (set_signal_ids a b) w).
Hypothesis R_initialized : forall v w, R w (on_client (set_initialized v) w).
Hypothesis R_appeared : forall thr w,
  is_Some (name_owner (client w)) -> R w (call_appeared_handler thr w).
Hypothesis R_vanished : forall thr w, R w (call_vanished_handler thr w false).

Abbreviation step := (NameWatching.step G_BUS_NAME_WATCHER_FLAGS_AUTO_START).
Abbreviation has_connection :=
  (NameWatching.has_connection G_BUS_NAME_WATCHER_FLAGS_AUTO_START).
Abbreviation connection_get_cb :=
  (NameWatching.connection_get_cb G_BUS_NAME_WATCHER_FLAGS_AUTO_START).

Lemma shape_on_connection_disconnected thr w : R w (on_connection_disconnected thr w).
Proof.
  unfold on_connection_disconnected. cbv zeta.
  eapply R_trans; [|apply R_vanished].
  eapply R_trans; [|apply R_connection].
  eapply R_trans; [|apply R_ids].
  apply R_effect. destruct (0 <? _), (0 <? _); reflexivity.
Qed.

Lemma shape_owner_then_appeared thr owner w :
  R w (call_appeared_handler thr
         (on_client (set_name_owner (Some owner))
            (if bool_decide (name_owner (client w) = None) then w
             else effect [WarnIfFail "client->name_owner == NULL"] w))).
Proof.
  eapply R_trans; [|apply R_appeared; eexists; reflexivity].
  eapply R_trans; [|apply R_owner].
  destruct (bool_decide _); [apply R_refl|apply R_effect; reflexivity].
Qed.

Lemma shape_on_name_owner_changed thr sender path iface n old new w :
  R w (on_name_owner_changed thr sender path iface n old new w).
Proof.
  unfold on_name_owner_changed.
  destruct (negb (initialized (client w))); [apply R_refl|].
  destruct (_ || _); [apply R_refl|].
  destruct (negb (String.eqb n _)); [apply R_refl|].
  set (w1 := if nonempty old && bool_decide (name_owner (client w) <> None)
             then call_vanished_handler thr (on_client (set_name_owner None) w) false
             else w).
  assert (H1 : R w w1).
  { subst w1. destruct (_ && _); [|apply R_refl].
    eapply R_trans; [apply R_owner|apply R_vanished]. }
  destruct (nonempty new); [|exact H1].
  eapply R_trans; [exact H1|apply shape_owner_then_appeared].
Qed.

Lemma shape_invoke_get_name_owner w : R w (invoke_get_name_owner w).
Proof.
  unfold invoke_get_name_owner. cbv zeta.
  eapply R_trans; [apply R_ref|apply R_in_flight].
Qed.

Lemma shape_has_connection w : R w (has_connection w).
Proof.
  unfold NameWatching.has_connection.
  destruct (connection (client w)); [|apply R_refl]. cbv zeta.
  eapply R_trans; [apply R_ids|].
  destruct (negb _); [|apply shape_invoke_get_name_owner].
  eapply R_trans; [apply R_ref|apply R_in_flight].
Qed.

Lemma shape_get_name_owner_cb thr res w :
  exists b, R w b /\ get_name_owner_cb thr res w = client_unref b.
Proof.
  unfold get_name_owner_cb. cbv zeta. eexists. split; revgoals; [reflexivity|].
  eapply R_trans; [|apply R_initialized].
  destruct res as [owner|]; [apply shape_owner_then_appeared|apply R_vanished].
Qed.

Lemma shape_start_service_by_name_cb thr res w :
  exists b, R w b /\ start_service_by_name_cb thr res w = client_unref b.
Proof.
  unfold start_service_by_name_cb. cbv zeta. eexists. split; revgoals; [reflexivity|].
  destruct res as [r|]; [destruct (r =? 1); [|destruct (r =? 2)]|];
    try apply shape_invoke_get_name_owner.
  eapply R_trans; [|apply R_initialized].
  eapply R_trans; [|apply R_vanished].
  apply R_effect. reflexivity.
Qed.

Lemma shape_connection_get_cb thr res w :
  exists b, R w b /\ connection_get_cb thr res w = client_unref b.
Proof.
  unfold NameWatching.connection_get_cb. cbv zeta.
  eexists. split; revgoals; [reflexivity|].
  eapply R_trans; [apply R_connection|].
  destruct (connection _); [apply shape_has_connection|apply R_vanished].
Qed.

(** A callback of the connection. *)
Lemma shape_step w e :
  e <> IdleDispatch -> e <> Unwatch ->
  R w (step w e) \/ exists b, R w b /\ step w e = client_unref b.
Proof.
  intros Hidle Hunwatch.
  destruct e as [thr res|thr res|thr res|thr sender path iface n old new|thr| |];
    try contradiction; cbn [NameWatching.step].
  - destruct (complete _ _) as [l|]; [right|left; apply R_refl].
    destruct (shape_connection_get_cb thr res (set_in_flight l w)) as (b & Hb & E).
    exists b. split; [eapply R_trans; [apply R_in_flight|exact Hb]|exact E].
  - destruct (complete _ _) as [l|]; [right|left; apply R_refl].
    destruct (shape_start_service_by_name_cb thr res (set_in_flight l w)) as (b & Hb & E).
    exists b. split; [eapply R_trans; [apply R_in_flight|exact Hb]|exact E].
  - destruct (complete _ _) as [l|]; [right|left; apply R_refl].
    destruct (shape_get_name_owner_cb thr res (set_in_flight l w)) as (b & Hb & E).
    exists b. split; [eapply R_trans; [apply R_in_flight|exact Hb]|exact E].
  - left. destruct (_ && _); [apply shape_on_name_owner_changed|apply R_refl].
  - left. destruct (_ && _); [apply shape_on_connection_disconnected|apply R_refl].
Qed.

(** Any event, for a relation that the dispatch of an idle source and the
    cancellation keep as well. *)
Lemma shape_any_step w e :
  (forall w data rest, idle_sources w = data :: rest ->
                       R w (call_in_idle_cb data (set_idle_sources rest w))) ->
  (forall w, R w (on_client (set_cancelled true) w)) ->
  R w (step w e) \/ exists b, R w b /\ step w e = client_unref b.
Proof.
  intros Hidle Hcancel.
  destruct e; try (apply shape_step; discriminate); cbn [NameWatching.step].
  - unfold NameWatching.dispatch_idle.
    destruct (idle_sources w) as [|data rest] eqn:Hq; [left; apply R_refl|right].
    unfold call_handler_data_free. cbv zeta. eexists. split; revgoals; [reflexivity|].
    eapply R_trans; [apply (Hidle w data rest Hq)|].
    destruct (data_connection data); [apply R_effect; reflexivity|apply R_refl].
  - destruct (_ || _); [left; apply R_refl|right].
    unfold NameWatching.unwatch_client. cbv zeta.
    eexists. split; [apply Hcancel|reflexivity].
Qed.

End Shape.

(** *** The user's free function *)

Lemma filter_none {A} (f : A -> bool) l :
  forallb (fun x => negb (f x)) l = true -> List.filter f l = [].
Proof.
  induction l as [|x l IH]; cbn; [reflexivity|].
  intros H. apply andb_true_iff in H as [Hx Hl].
  destruct (f x); [discriminate Hx|now apply IH].
Qed.

Lemma unfreed_refl w : unfreed w w.
Proof. split; reflexivity. Qed.

Lemma unfreed_trans w1 w2 w3 : unfreed w1 w2 -> unfreed w2 w3 -> unfreed w1 w3.
Proof. intros [F1 U1] [F2 U2]. split; congruence. Qed.

Lemma unfreed_effect l w :
  forallb (fun e => negb (is_user_data_free e)) l = true -> unfreed w (effect l w).
Proof.
  intros H. split; [reflexivity|]. unfold user_data_frees. cbn [effects effect].
  now rewrite List.filter_app, (filter_none _ _ H), app_nil_r.
Qed.

Lemma unfreed_in_flight l w : unfreed w (set_in_flight l w).
Proof. split; reflexivity. Qed.

Lemma unfreed_client f w : unfreed w (on_client f w).
Proof. split; reflexivity. Qed.

Lemma unfreed_do_call thr w k : unfreed w (do_call thr w k).
Proof.
  unfold do_call. case_bool_decide; [split; reflexivity|].
  unfold actually_do_call.
  destruct k, (name_appeared_handler (client w)), (name_vanished_handler (client w));
    split; reflexivity.
Qed.

Lemma unfreed_call_appeared thr w :
  is_Some (name_owner (client w)) -> unfreed w (call_appeared_handler thr w).
Proof.
  intros _. unfold call_appeared_handler. case_bool_decide; [|apply unfreed_refl].
  destruct (_ && _); [|split; reflexivity].
  eapply unfreed_trans; [|apply unfreed_do_call]. split; reflexivity.
Qed.

Lemma unfreed_call_vanished thr w : unfreed w (call_vanished_handler thr w false).
Proof.
  unfold call_vanished_handler. case_bool_decide; [|apply unfreed_refl].
  destruct (_ && _); [|split; reflexivity].
  eapply unfreed_trans; [|apply unfreed_do_call]. split; reflexivity.
Qed.

Lemma unfreed_idle w data rest :
  idle_sources w = data :: rest ->
  unfreed w (call_in_idle_cb data (set_idle_sources rest w)).
Proof.
  intros _. unfold call_in_idle_cb, actually_do_call.
  cbn [client set_idle_sources].
  destruct (call_type data), (name_appeared_handler (client w)),
    (name_vanished_handler (client w)); split; reflexivity.
Qed.

Ltac unfreed_shape :=
  first [ exact unfreed_refl | exact unfreed_trans | exact unfreed_effect
        | exact unfreed_in_flight | exact unfreed_call_appeared
        | exact unfreed_call_vanished | exact unfreed_idle
        | intros; apply unfreed_client ].

(** The release of a reference calls the free function when it is the last,
    and then once. *)
Lemma freed_once_client_unref b :
  freed b = false -> user_data_frees b = [] -> freed_once (client_unref b).
Proof.
  intros Hf Hu. unfold client_unref. cbv zeta.
  set (b1 := on_client (set_ref_count (ref_count (client b) - 1)) b).
  assert (H1 : freed b1 = false /\ user_data_frees b1 = []) by (split; assumption).
  destruct H1 as [Hf1 Hu1].
  destruct (ref_count (client b1) =? 0).
  - unfold freed_once, client_finalize, user_data_frees in *.
    destruct (connection (client b1)), (user_data_free_func (client b1)) eqn:Hfree;
      cbn [freed set_freed effect effects client]; rewrite ?Hfree, ?List.filter_app, ?Hu1;
      destruct (0 <? name_owner_changed_subscription_id (client b1)),
               (0 <? disconnected_signal_handler_id (client b1)); reflexivity.
  - unfold freed_once. now rewrite Hf1, Hu1.
Qed.

Section FreeingFacts.
Variable G_BUS_NAME_WATCHER_FLAGS_AUTO_START : Z.
Variable g_dbus_is_name : string -> bool.

Abbreviation act :=
  (NameWatching.act G_BUS_NAME_WATCHER_FLAGS_AUTO_START g_dbus_is_name).
Abbreviation execute :=
  (NameWatching.execute G_BUS_NAME_WATCHER_FLAGS_AUTO_START g_dbus_is_name).
Abbreviation step := (NameWatching.step G_BUS_NAME_WATCHER_FLAGS_AUTO_START).

Lemma freed_holds_nothing w :
  counted w -> freed w = true ->
  cancelled (client w) = true /\ in_flight w = [] /\ idle_sources w = [].
Proof.
  unfold counted, holders. intros Hc Hf. rewrite Hf in Hc.
  destruct (cancelled (client w)), (in_flight w), (idle_sources w);
    cbn [length] in Hc; try lia. repeat split.
Qed.

(** [step] has nothing to deliver to a freed client: its calls are finished,
    its subscriptions are gone and the table does not hold it. *)
Lemma freed_steps_nowhere w e : counted w -> freed w = true -> step w e = w.
Proof.
  intros Hc Hf. destruct (freed_holds_nothing w Hc Hf) as (Hcan & Hfl & Hq).
  destruct e; cbn [NameWatching.step]; rewrite ?Hfl, ?Hf; try reflexivity.
  unfold NameWatching.dispatch_idle. now rewrite Hq.
Qed.

Lemma freed_once_step w e : counted w -> freed_once w -> freed_once (step w e).
Proof.
  intros Hc Hw. destruct (freed w) eqn:Hf.
  { now rewrite freed_steps_nowhere. }
  assert (Hu : user_data_frees w = []) by (unfold freed_once in Hw; now rewrite Hf in Hw).
  destruct (shape_any_step G_BUS_NAME_WATCHER_FLAGS_AUTO_START unfreed) with (w := w) (e := e)
    as [[F U]|(b & [F U] & ->)]; try unfreed_shape.
  - unfold freed_once. now rewrite F, U, Hf.
  - apply freed_once_client_unref; congruence.
Qed.

Lemma freed_once_watched w :
  NameWatching.watched G_BUS_NAME_WATCHER_FLAGS_AUTO_START w -> freed_once w.
Proof.
  intros [thr next_id name flags appeared vanished user_data free_func
         |thr next_id conn name flags appeared vanished user_data free_func].
  - reflexivity.
  - unfold watcher_on_connection. cbv zeta.
    match goal with |- freed_once (NameWatching.has_connection _ ?x) =>
      destruct (shape_has_connection G_BUS_NAME_WATCHER_FLAGS_AUTO_START unfreed) with (w := x)
        as [F U]; try unfreed_shape
    end.
    unfold freed_once. rewrite F, U. reflexivity.
Qed.

Lemma freed_once_act wd a :
  sound wd -> every freed_once wd -> every freed_once (act wd a).
Proof.
  intros (Hreg & _ & Hcount) Hevery. apply every_act; [exact Hevery| | |].
  - exact freed_once_watched.
  - intros watcher_id target w _ _ Hid Hw Hfo.
    destruct (Hreg watcher_id target Hid) as (w' & Hw' & Hcan).
    assert (w' = w) by congruence. subst w'.
    pose proof (counted_not_cancelled w (Hcount target w Hw) Hcan) as Hf.
    unfold NameWatching.unwatch_client. cbv zeta.
    apply freed_once_client_unref; [exact Hf|].
    unfold freed_once in Hfo. now rewrite Hf in Hfo.
  - intros address e w _ _ Hw Hfo. apply freed_once_step; [|exact Hfo].
    exact (Hcount address w Hw).
Qed.

Lemma freed_once_execute actions : forall wd,
  sound wd -> every freed_once wd -> every freed_once (execute wd actions).
Proof.
  induction actions as [|a actions IH]; intros wd Hs He; [exact He|].
  unfold NameWatching.execute. cbn [fold_left].
  apply IH; [now apply sound_act|now apply freed_once_act].
Qed.

(** X9.  From the initial state, whatever the entry points are called with
    and whatever events reach the clients: an id in the table refers to a
    client that has been allocated, is not cancelled, is not freed and counts
    at least one reference, and no other id refers to the same client. *)
Theorem registered_clients_are_live actions watcher_id (address : nat) :
  lookup_client (execute initial_world actions) watcher_id = Some address ->
  exists w,
    heap (execute initial_world actions) !! address = Some w /\
    cancelled (client w) = false /\
    freed w = false /\
    1 <= ref_count (client w) /\
    (forall other, lookup_client (execute initial_world actions) other = Some address ->
                   other = watcher_id).
Proof.
  intros Hid.
  destruct (sound_execute G_BUS_NAME_WATCHER_FLAGS_AUTO_START g_dbus_is_name
              actions initial_world sound_initial) as (Hreg & Hinj & Hcount).
  destruct (Hreg watcher_id address Hid) as (w & Hw & Hcan).
  exists w. split; [exact Hw|]. split; [exact Hcan|].
  pose proof (Hcount address w Hw) as Hc.
  pose proof (counted_not_cancelled w Hc Hcan) as Hf.
  split; [exact Hf|]. split.
  - unfold counted in Hc. rewrite Hf in Hc. lia.
  - intros other Hother. exact (Hinj other watcher_id address Hother Hid).
Qed.

(** X10.  From the initial state, whatever the entry points are called with
    and whatever events reach the clients, the handlers returning without a
    call into the module: a client that has been freed has none of the
    holders of a reference left.  It was cancelled first, no operation is in
    flight for it, no idle source is pending for it, and it is under no id in
    the table.  What a handler that does call [g_bus_unwatch_name] leads to
    is the subject of X15. *)
Theorem freed_client_has_no_holder actions (address : nat) w :
  heap (execute initial_world actions) !! address = Some w ->
  freed w = true ->
  cancelled (client w) = true /\
  in_flight w = [] /\
  idle_sources w = [] /\
  (forall watcher_id,
      lookup_client (execute initial_world actions) watcher_id <> Some address).
Proof.
  intros Hw Hf.
  destruct (sound_execute G_BUS_NAME_WATCHER_FLAGS_AUTO_START g_dbus_is_name
              actions initial_world sound_initial) as (Hreg & _ & Hcount).
  pose proof (Hcount address w Hw) as Hc.
  destruct (freed_holds_nothing w Hc Hf) as (Hcan & Hfl & Hq).
  repeat split; try assumption.
  intros watcher_id Hid. destruct (Hreg watcher_id address Hid) as (w' & Hw' & Hcan').
  congruence.
Qed.

(** X11.  From the initial state, whatever the entry points are called with
    and whatever events reach the clients: the user's free function has been
    called exactly once, on the user data given, for every client that has
    been freed with one, and never for a client that is still allocated. *)
Theorem user_data_is_freed_once actions (address : nat) w :
  heap (execute initial_world actions) !! address = Some w ->
  List.filter is_user_data_free (effects w)
  = if freed w
    then match user_data_free_func (client w) with
         | Some f => [UserDataFree f (user_data (client w))]
         | None => []
         end
    else [].
Proof.
  intros Hw.
  assert (Hinit : every freed_once initial_world) by (intros a x H; discriminate H).
  exact (freed_once_execute actions initial_world sound_initial Hinit address w Hw).
Qed.

End FreeingFacts.

(** *** After the cancellation *)

Lemma undecided_refl w : undecided w w.
Proof. split; [reflexivity|intros _; split; reflexivity]. Qed.

Lemma undecided_trans w1 w2 w3 : undecided w1 w2 -> undecided w2 w3 -> undecided w1 w3.
Proof.
  intros [C1 H1] [C2 H2]. split; [congruence|]. intros Hc.
  destruct (H1 Hc) as [I1 Q1]. rewrite <- C1 in Hc. destruct (H2 Hc) as [I2 Q2].
  split; congruence.
Qed.

Ltac undecided_by_computation := split; [reflexivity|intros _; split; reflexivity].

Lemma undecided_effect l w :
  forallb (fun e => negb (is_user_data_free e)) l = true -> undecided w (effect l w).
Proof. intros _. undecided_by_computation. Qed.

Lemma undecided_in_flight l w : undecided w (set_in_flight l w).
Proof. undecided_by_computation. Qed.

Lemma undecided_ref w : undecided w (client_ref w).
Proof. undecided_by_computation. Qed.

Lemma undecided_owner v w : undecided w (on_client (set_name_owner v) w).
Proof. undecided_by_computation. Qed.

Lemma undecided_connection v w : undecided w (on_client (set_connection v) w).
Proof. undecided_by_computation. Qed.

Lemma undecided_ids a b w : undecided w (on_client (set_signal_ids a b) w).
Proof. undecided_by_computation. Qed.

Lemma undecided_initialized v w : undecided w (on_client (set_initialized v) w).
Proof. undecided_by_computation. Qed.

Lemma call_appeared_when_cancelled thr w :
  cancelled (client w) = true ->
  invoked (call_appeared_handler thr w) = invoked w /\
  idle_sources (call_appeared_handler thr w) = idle_sources w.
Proof.
  intros Hc. unfold call_appeared_handler.
  case_bool_decide; [|split; reflexivity].
  change (cancelled (client (on_client (set_previous_call PREVIOUS_CALL_APPEARED) w)))
    with (cancelled (client w)).
  rewrite Hc. cbn [negb andb]. split; reflexivity.
Qed.

Lemma undecided_call_appeared thr w :
  is_Some (name_owner (client w)) -> undecided w (call_appeared_handler thr w).
Proof.
  intros _. split.
  - now destruct (fixed_call_appeared thr w) as (_ & _ & ->).
  - now apply call_appeared_when_cancelled.
Qed.

Lemma undecided_call_vanished thr w : undecided w (call_vanished_handler thr w false).
Proof.
  split.
  - now destruct (fixed_call_vanished thr w false) as (_ & _ & ->).
  - now apply call_vanished_when_cancelled.
Qed.

Lemma undecided_client_unref w : undecided w (client_unref w).
Proof.
  split.
  - now destruct (fixed_client_unref w) as (_ & _ & ->).
  - intros _. destruct (view_client_unref w) as (I & Q & _). split; assumption.
Qed.

Ltac undecided_shape :=
  first [ exact undecided_refl | exact undecided_trans | exact undecided_effect
        | exact undecided_in_flight | exact undecided_ref | exact undecided_owner
        | exact undecided_connection | exact undecided_ids | exact undecided_initialized
        | exact undecided_call_appeared | exact undecided_call_vanished ].

Section CancelledFacts.
Variable G_BUS_NAME_WATCHER_FLAGS_AUTO_START : Z.

Abbreviation step := (NameWatching.step G_BUS_NAME_WATCHER_FLAGS_AUTO_START).
Abbreviation run := (NameWatching.run G_BUS_NAME_WATCHER_FLAGS_AUTO_START).

Lemma undecided_step w e :
  e <> IdleDispatch -> e <> Unwatch -> undecided w (step w e).
Proof.
  intros Hi Hu.
  destruct (shape_step G_BUS_NAME_WATCHER_FLAGS_AUTO_START undecided) with (w := w) (e := e)
    as [H|(b & Hb & ->)]; try undecided_shape; try assumption.
  eapply undecided_trans; [exact Hb|apply undecided_client_unref].
Qed.

(** On a cancelled watcher no event invokes or queues anything, except that
    the dispatch of an idle source takes the source off the queue and invokes
    the handler it names, if there is one. *)
Lemma cancelled_step w e :
  cancelled (client w) = true ->
  cancelled (client (step w e)) = true /\
  exists (k : nat) l,
    idle_sources (step w e) = drop k (idle_sources w) /\
    invoked (step w e) = invoked w ++ l /\
    sublist (map kind l) (take k (queued w)).
Proof.
  intros Hc.
  assert (Hsame : forall w',
             undecided w w' ->
             cancelled (client w') = true /\
             exists (k : nat) l,
               idle_sources w' = drop k (idle_sources w) /\
               invoked w' = invoked w ++ l /\
               sublist (map kind l) (take k (queued w))).
  { intros w' [C H]. destruct (H Hc) as [I Q]. split; [congruence|].
    exists 0%nat, []. rewrite drop_0, app_nil_r. repeat split; try assumption.
    constructor. }
  destruct e; try (apply Hsame, undecided_step; discriminate); cbn [NameWatching.step].
  - unfold NameWatching.dispatch_idle.
    destruct (idle_sources w) as [|data rest] eqn:Hq; [apply Hsame, undecided_refl|].
    unfold call_handler_data_free. cbv zeta.
    set (x := call_in_idle_cb data (set_idle_sources rest w)).
    set (y := match data_connection data with
              | Some _ => effect [ConnectionUnref] x
              | None => x
              end).
    assert (Hx : cancelled (client x) = true /\ idle_sources x = rest /\
                 exists l, invoked x = invoked w ++ l /\
                           sublist (map kind l) [call_type data]).
    { subst x. unfold call_in_idle_cb, actually_do_call. cbn [client set_idle_sources].
      destruct (call_type data), (name_appeared_handler (client w)),
        (name_vanished_handler (client w));
        (split; [exact Hc|]); (split; [reflexivity|]);
        first [ eexists [_]; split; [reflexivity|apply sublist_skip, sublist_nil_l]
              | exists []; split; [now rewrite app_nil_r|apply sublist_nil_l] ]. }
    assert (Hy : cancelled (client y) = cancelled (client x) /\
                 idle_sources y = idle_sources x /\ invoked y = invoked x)
      by (subst y; destruct (data_connection data); repeat split).
    destruct Hx as (Cx & Qx & l & Ix & Sx), Hy as (Cy & Qy & Iy).
    destruct (view_client_unref y) as (I & Q & _ & C & _).
    split; [congruence|]. exists 1%nat, l.
    split; [rewrite Q, Qy, Qx; reflexivity|].
    split; [congruence|]. unfold queued. rewrite Hq. exact Sx.
  - rewrite Hc, orb_true_r. apply Hsame, undecided_refl.
Qed.

(** X12.  Once a watcher is cancelled, whatever events reach it afterwards:
    it stays cancelled, nothing more is queued, and the only handlers invoked
    are those of idle sources that were already queued, taken from the front
    of the queue in order. *)
Theorem after_cancellation_only_queued_calls w events :
  cancelled (client w) = true ->
  cancelled (client (run w events)) = true /\
  exists (k : nat) l,
    idle_sources (run w events) = drop k (idle_sources w) /\
    invoked (run w events) = invoked w ++ l /\
    sublist (map kind l) (take k (queued w)).
Proof.
  revert w. induction events as [|e events IH]; intros w Hc.
  - split; [exact Hc|]. exists 0%nat, []. cbn. rewrite app_nil_r, drop_0.
    repeat split. constructor.
  - unfold NameWatching.run. cbn [fold_left].
    destruct (cancelled_step w e Hc) as (Hc1 & k1 & l1 & Q1 & I1 & S1).
    destruct (IH (step w e) Hc1) as (Hc2 & k2 & l2 & Q2 & I2 & S2).
    split; [exact Hc2|]. exists (k1 + k2)%nat, (l1 ++ l2).
    split; [unfold NameWatching.run in Q2; rewrite Q2, Q1; apply drop_drop|].
    split; [unfold NameWatching.run in I2; rewrite I2, I1; now rewrite app_assoc|].
    rewrite map_app, <- take_take_drop.
    apply sublist_app; [exact S1|].
    unfold queued in *. rewrite Q1 in S2. now rewrite skipn_map.
Qed.

End CancelledFacts.

(** *** What the handlers are invoked with *)

Lemma same_registration_refl w : same_registration w w.
Proof. repeat split. Qed.

Lemma same_registration_trans w1 w2 w3 :
  same_registration w1 w2 -> same_registration w2 w3 -> same_registration w1 w3.
Proof. intros (?&?&?&?) (?&?&?&?). repeat split; congruence. Qed.

Lemma well_formed_call_same w w' call :
  same_registration w w' ->
  well_formed_call (client w) call -> well_formed_call (client w') call.
Proof.
  intros (N & U & A & V). destruct call; cbn; rewrite N, U, ?A, ?V; exact (fun H => H).
Qed.

(** A step that invokes and queues nothing. *)
Lemma stays_well_formed_same w w' :
  same_registration w w' -> invoked w' = invoked w -> idle_sources w' = idle_sources w ->
  stays_well_formed w w'.
Proof.
  intros Hs Hi Hq. split; [exact Hs|]. intros [Hinv Hidle]. split.
  - rewrite Hi. eapply Forall_impl; [exact Hinv|].
    intros call. now apply well_formed_call_same.
  - now rewrite Hq.
Qed.

Ltac well_formed_by_computation :=
  apply stays_well_formed_same; [repeat split|reflexivity|reflexivity].

Lemma stays_well_formed_refl w : stays_well_formed w w.
Proof. well_formed_by_computation. Qed.

Lemma stays_well_formed_trans w1 w2 w3 :
  stays_well_formed w1 w2 -> stays_well_formed w2 w3 -> stays_well_formed w1 w3.
Proof.
  intros [S1 H1] [S2 H2]. split; [now apply same_registration_trans with w2|auto].
Qed.

Lemma stays_well_formed_effect l w :
  forallb (fun e => negb (is_user_data_free e)) l = true -> stays_well_formed w (effect l w).
Proof. intros _. well_formed_by_computation. Qed.

Lemma stays_well_formed_in_flight l w : stays_well_formed w (set_in_flight l w).
Proof. well_formed_by_computation. Qed.

Lemma stays_well_formed_ref w : stays_well_formed w (client_ref w).
Proof. well_formed_by_computation. Qed.

Lemma stays_well_formed_owner v w : stays_well_formed w (on_client (set_name_owner v) w).
Proof. well_formed_by_computation. Qed.

Lemma stays_well_formed_connection v w :
  stays_well_formed w (on_client (set_connection v) w).
Proof. well_formed_by_computation. Qed.

Lemma stays_well_formed_ids a b w : stays_well_formed w (on_client (set_signal_ids a b) w).
Proof. well_formed_by_computation. Qed.

Lemma stays_well_formed_initialized v w :
  stays_well_formed w (on_client (set_initialized v) w).
Proof. well_formed_by_computation. Qed.

Lemma stays_well_formed_cancelled w : stays_well_formed w (on_client (set_cancelled true) w).
Proof. well_formed_by_computation. Qed.

Lemma stays_well_formed_client_unref w : stays_well_formed w (client_unref w).
Proof.
  destruct (view_client_unref w) as (I & Q & _).
  apply stays_well_formed_same; [|exact I|exact Q].
  unfold client_unref. cbv zeta. destruct (_ =? 0); [|repeat split].
  unfold client_finalize.
  destruct (connection _), (user_data_free_func _); repeat split.
Qed.

(** The invocation [actually_do_call] makes is what the registration asked
    for, given an owner when it is for Appeared. *)
Lemma stays_well_formed_actually_do_call w conn owner k :
  (k = CALL_TYPE_NAME_APPEARED -> is_Some owner) ->
  stays_well_formed w (actually_do_call w conn owner k).
Proof.
  intros Howner. unfold actually_do_call.
  destruct k.
  - destruct (name_appeared_handler (client w)) as [h|] eqn:Hh;
      [|apply stays_well_formed_refl].
    split; [repeat split|]. intros [Hinv Hidle]. split; [|exact Hidle].
    cbn [invoked invoke client]. apply Forall_app. split; [exact Hinv|].
    constructor; [|constructor]. cbn. repeat split; auto.
  - destruct (name_vanished_handler (client w)) as [h|] eqn:Hh;
      [|apply stays_well_formed_refl].
    split; [repeat split|]. intros [Hinv Hidle]. split; [|exact Hidle].
    cbn [invoked invoke client]. apply Forall_app. split; [exact Hinv|].
    constructor; [|constructor]. cbn. repeat split; auto.
Qed.

Lemma stays_well_formed_do_call thr w k :
  (k = CALL_TYPE_NAME_APPEARED -> is_Some (name_owner (client w))) ->
  stays_well_formed w (do_call thr w k).
Proof.
  intros Howner. unfold do_call. case_bool_decide.
  - unfold schedule_call_in_idle. cbv zeta.
    split; [repeat split|]. intros [Hinv Hidle]. split.
    + cbn [invoked set_idle_sources client_ref on_client].
      eapply Forall_impl; [exact Hinv|]. intros call.
      apply well_formed_call_same. repeat split.
    + cbn [idle_sources set_idle_sources client_ref on_client].
      apply Forall_app. split; [exact Hidle|].
      constructor; [|constructor]. exact Howner.
  - now apply stays_well_formed_actually_do_call.
Qed.

Lemma stays_well_formed_call_appeared thr w :
  is_Some (name_owner (client w)) -> stays_well_formed w (call_appeared_handler thr w).
Proof.
  intros Howner. unfold call_appeared_handler.
  case_bool_decide; [|apply stays_well_formed_refl]. cbv zeta.
  destruct (_ && _); [|well_formed_by_computation].
  eapply stays_well_formed_trans; [|apply stays_well_formed_do_call; intros _; exact Howner].
  well_formed_by_computation.
Qed.

Lemma stays_well_formed_call_vanished thr w :
  stays_well_formed w (call_vanished_handler thr w false).
Proof.
  unfold call_vanished_handler.
  case_bool_decide; [|apply stays_well_formed_refl]. cbv zeta.
  destruct (_ && _); [|well_formed_by_computation].
  eapply stays_well_formed_trans; [|apply stays_well_formed_do_call; discriminate].
  well_formed_by_computation.
Qed.

Lemma stays_well_formed_idle w data rest :
  idle_sources w = data :: rest ->
  stays_well_formed w (call_in_idle_cb data (set_idle_sources rest w)).
Proof.
  intros Hq. split.
  - unfold call_in_idle_cb, actually_do_call. cbn [client set_idle_sources].
    destruct (call_type data), (name_appeared_handler (client w)),
      (name_vanished_handler (client w)); repeat split.
  - intros [Hinv Hidle]. rewrite Hq in Hidle. apply Forall_cons in Hidle as [Hdata Hrest].
    unfold call_in_idle_cb.
    apply (stays_well_formed_actually_do_call (set_idle_sources rest w)); [exact Hdata|].
    split; [exact Hinv|exact Hrest].
Qed.

Ltac well_formed_shape :=
  first [ exact stays_well_formed_refl | exact stays_well_formed_trans
        | exact stays_well_formed_effect | exact stays_well_formed_in_flight
        | exact stays_well_formed_ref | exact stays_well_formed_owner
        | exact stays_well_formed_connection | exact stays_well_formed_ids
        | exact stays_well_formed_initialized | exact stays_well_formed_call_appeared
        | exact stays_well_formed_call_vanished | exact stays_well_formed_idle
        | exact stays_well_formed_cancelled ].

Section InvocationFacts.
Variable G_BUS_NAME_WATCHER_FLAGS_AUTO_START : Z.

Abbreviation step := (NameWatching.step G_BUS_NAME_WATCHER_FLAGS_AUTO_START).
Abbreviation run := (NameWatching.run G_BUS_NAME_WATCHER_FLAGS_AUTO_START).
Abbreviation watched := (NameWatching.watched G_BUS_NAME_WATCHER_FLAGS_AUTO_START).

Lemma stays_well_formed_step w e : stays_well_formed w (step w e).
Proof.
  destruct (shape_any_step G_BUS_NAME_WATCHER_FLAGS_AUTO_START stays_well_formed)
    with (w := w) (e := e) as [H|(b & Hb & ->)]; try well_formed_shape.
  - exact H.
  - eapply stays_well_formed_trans; [exact Hb|apply stays_well_formed_client_unref].
Qed.

Lemma stays_well_formed_run events : forall w, stays_well_formed w (run w events).
Proof.
  induction events as [|e events IH]; intros w; [apply stays_well_formed_refl|].
  unfold NameWatching.run. cbn [fold_left].
  eapply stays_well_formed_trans; [apply stays_well_formed_step|apply IH].
Qed.

Lemma well_formed_watched w : watched w -> well_formed w.
Proof.
  intros [thr next_id name flags appeared vanished user_data free_func
         |thr next_id conn name flags appeared vanished user_data free_func].
  - split; constructor.
  - unfold watcher_on_connection. cbv zeta.
    match goal with |- well_formed (NameWatching.has_connection _ ?x) =>
      destruct (shape_has_connection G_BUS_NAME_WATCHER_FLAGS_AUTO_START stays_well_formed)
        with (w := x) as [_ H]; try well_formed_shape
    end.
    apply H. split; constructor.
Qed.

(** X13.  Whatever events reach a watcher after its registration: its name,
    user data and handlers stay those given at registration, and every
    invocation made was of the handler given, with the name watched and the
    user data given; an invocation of the appeared handler carried an owner,
    and so will those still queued. *)
Theorem handlers_get_what_was_registered w events :
  watched w ->
  same_registration w (run w events) /\
  Forall (well_formed_call (client w)) (invoked (run w events)) /\
  Forall well_formed_source (idle_sources (run w events)).
Proof.
  intros Hw. destruct (stays_well_formed_run events w) as [Hs H].
  destruct (H (well_formed_watched w Hw)) as [Hinv Hidle].
  split; [exact Hs|]. split; [|exact Hidle].
  eapply Forall_impl; [exact Hinv|]. intros call.
  apply well_formed_call_same.
  destruct Hs as (?&?&?&?). repeat split; congruence.
Qed.

End InvocationFacts.

(** *** The counter and the table *)

Section RegistryFacts.
Variable G_BUS_NAME_WATCHER_FLAGS_AUTO_START : Z.
Variable g_dbus_is_name : string -> bool.

Abbreviation act :=
  (NameWatching.act G_BUS_NAME_WATCHER_FLAGS_AUTO_START g_dbus_is_name).
Abbreviation execute :=
  (NameWatching.execute G_BUS_NAME_WATCHER_FLAGS_AUTO_START g_dbus_is_name).

(** Only a registration moves the counter and allocates a client. *)
Lemma counter_act wd a :
  next_global_id (act wd a)
  = (if registers g_dbus_is_name a then (next_global_id wd + 1) `mod` guint_max
     else next_global_id wd) /\
  length (heap (act wd a))
  = (length (heap wd) + if registers g_dbus_is_name a then 1 else 0)%nat.
Proof.
  destruct a as [thr bus_type name flags appeared vanished user_data free_func
                |thr conn name flags appeared vanished user_data free_func
                |watcher_id|address e]; cbn [NameWatching.act registers].
  - unfold g_bus_watch_name. destruct (g_dbus_is_name name); cbn; rewrite ?length_app; cbn;
      split; try reflexivity; lia.
  - unfold g_bus_watch_name_on_connection. destruct conn as [conn|]; [|cbn; split; [reflexivity|lia]].
    destruct (g_dbus_is_name name); cbn; rewrite ?length_app; cbn;
      split; try reflexivity; lia.
  - unfold g_bus_unwatch_name. destruct (negb _); [cbn; split; [reflexivity|lia]|].
    destruct (map_id_to_client wd) as [table|]; [|cbn; split; [reflexivity|lia]].
    destruct (table !! watcher_id); cbn; rewrite ?length_alter; split; try reflexivity; lia.
  - destruct e; cbn; rewrite ?length_alter; split; try reflexivity; lia.
Qed.

Lemma counter_execute actions : forall wd,
  0 <= next_global_id wd < guint_max ->
  next_global_id (execute wd actions)
  = (next_global_id wd + Z.of_nat (registrations g_dbus_is_name actions)) `mod` guint_max /\
  length (heap (execute wd actions))
  = (length (heap wd) + registrations g_dbus_is_name actions)%nat.
Proof.
  unfold registrations.
  induction actions as [|a actions IH]; intros wd Hrange.
  - cbn. rewrite Z.add_0_r, Z.mod_small by exact Hrange. split; [reflexivity|lia].
  - unfold NameWatching.execute. cbn [fold_left List.filter].
    destruct (counter_act wd a) as [Hn Hh].
    assert (Hrange' : 0 <= next_global_id (act wd a) < guint_max).
    { rewrite Hn. destruct (registers g_dbus_is_name a); [|exact Hrange].
      apply Z.mod_pos_bound. reflexivity. }
    destruct (IH (act wd a) Hrange') as [IHn IHh].
    unfold NameWatching.execute in IHn, IHh. rewrite IHn, IHh, Hn, Hh.
    destruct (registers g_dbus_is_name a); cbn [length].
    + rewrite Zplus_mod_idemp_l. split; [f_equal; lia|lia].
    + split; [reflexivity|lia].
Qed.

(** X16.  From the initial state, whatever happened before: a registration
    with a valid name returns one plus the number of registrations made so
    far, wrapped at 2^32, and so a nonzero id as long as fewer than 2^32 - 1
    were made; the client is allocated at the address that equals that
    number, and the table maps the id to it. *)
Theorem watch_ids_count_up
    actions thr bus_type name flags appeared vanished user_data free_func :
  g_dbus_is_name name = true ->
  fst (g_bus_watch_name g_dbus_is_name thr bus_type name flags appeared vanished
         user_data free_func (execute initial_world actions))
  = (1 + Z.of_nat (registrations g_dbus_is_name actions)) `mod` 2 ^ 32 /\
  (Z.of_nat (registrations g_dbus_is_name actions) < 2 ^ 32 - 1 ->
   fst (g_bus_watch_name g_dbus_is_name thr bus_type name flags appeared vanished
          user_data free_func (execute initial_world actions))
   = 1 + Z.of_nat (registrations g_dbus_is_name actions)) /\
  lookup_client
    (snd (g_bus_watch_name g_dbus_is_name thr bus_type name flags appeared vanished
            user_data free_func (execute initial_world actions)))
    (fst (g_bus_watch_name g_dbus_is_name thr bus_type name flags appeared vanished
            user_data free_func (execute initial_world actions)))
  = Some (registrations g_dbus_is_name actions) /\
  heap (snd (g_bus_watch_name g_dbus_is_name thr bus_type name flags appeared vanished
               user_data free_func (execute initial_world actions)))
    !! registrations g_dbus_is_name actions
  = Some (watcher_on_bus thr
            ((1 + Z.of_nat (registrations g_dbus_is_name actions)) `mod` 2 ^ 32)
            name flags appeared vanished user_data free_func).
Proof.
  intros Hname.
  destruct (counter_execute actions initial_world) as [Hn Hh].
  { cbn. unfold guint_max. lia. }
  change (next_global_id initial_world) with 1 in Hn.
  change (length (heap initial_world)) with 0%nat in Hh.
  change guint_max with (2 ^ 32) in Hn. cbn [Nat.add] in Hh.
  unfold g_bus_watch_name. rewrite Hname. cbn [negb fst snd].
  change (id (client (watcher_on_bus ?t ?n ?a ?b ?c ?d ?e ?f))) with n.
  rewrite Hn, Hh.
  split; [reflexivity|]. split; [intros Hfew; apply Z.mod_small; lia|]. split.
  - unfold lookup_client, register_client. cbn [map_id_to_client].
    apply lookup_insert_eq.
  - unfold register_client. cbn [heap]. rewrite <- Hh. apply list_lookup_middle. reflexivity.
Qed.

(** X17.  A registration with a valid name followed by the removal of the
    id it returned, when that id is not 0: the id is no longer in the table,
    every other id maps to what it mapped to before, nothing is logged, and
    the client, now cancelled, stays allocated with the one reference that
    the acquisition of the bus holds. *)
Theorem watch_then_unwatch
    thr bus_type name flags appeared vanished user_data free_func wd :
  g_dbus_is_name name = true ->
  0 < next_global_id wd ->
  fst (g_bus_watch_name g_dbus_is_name thr bus_type name flags appeared vanished
         user_data free_func wd) = next_global_id wd /\
  lookup_client
    (g_bus_unwatch_name (next_global_id wd)
       (snd (g_bus_watch_name g_dbus_is_name thr bus_type name flags appeared vanished
               user_data free_func wd)))
    (next_global_id wd) = None /\
  (forall other,
      other <> next_global_id wd ->
      lookup_client
        (g_bus_unwatch_name (next_global_id wd)
           (snd (g_bus_watch_name g_dbus_is_name thr bus_type name flags appeared vanished
                   user_data free_func wd)))
        other = lookup_client wd other) /\
  log (g_bus_unwatch_name (next_global_id wd)
         (snd (g_bus_watch_name g_dbus_is_name thr bus_type name flags appeared vanished
                 user_data free_func wd))) = log wd /\
  exists w,
    heap (g_bus_unwatch_name (next_global_id wd)
            (snd (g_bus_watch_name g_dbus_is_name thr bus_type name flags appeared vanished
                    user_data free_func wd))) = heap wd ++ [w] /\
    cancelled (client w) = true /\ freed w = false /\
    ref_count (client w) = 1 /\ in_flight w = [CallBusGet] /\
    invoked w = [] /\ idle_sources w = [].
Proof.
  intros Hname Hpos.
  unfold g_bus_watch_name. rewrite Hname. cbn [negb fst snd].
  change (id (client (watcher_on_bus ?t ?n ?a ?b ?c ?d ?e ?f))) with n.
  split; [reflexivity|].
  unfold g_bus_unwatch_name. apply Z.ltb_lt in Hpos. rewrite Hpos. cbn [negb].
  unfold register_client. cbn [map_id_to_client heap log next_global_id].
  rewrite lookup_insert_eq. unfold lookup_client. cbn [map_id_to_client heap log].
  split; [apply lookup_delete_eq|]. split.
  - intros other Hother. rewrite lookup_delete_ne, lookup_insert_ne by congruence.
    destruct (map_id_to_client wd); [reflexivity|apply lookup_empty].
  - split; [reflexivity|]. eexists. split.
    + replace (length (heap wd)) with (length (heap wd) + 0)%nat by lia.
      rewrite alter_app_r. reflexivity.
    + cbn. repeat split.
Qed.

End RegistryFacts.

(** *** The operations of the start-up chain *)

Lemma steady_refl w : steady w w.
Proof. split; reflexivity. Qed.

Lemma steady_trans w1 w2 w3 : steady w1 w2 -> steady w2 w3 -> steady w1 w3.
Proof. intros [F1 I1] [F2 I2]. split; congruence. Qed.

Lemma steady_do_call thr w k : steady w (do_call thr w k).
Proof.
  unfold do_call. case_bool_decide; [split; reflexivity|].
  unfold actually_do_call.
  destruct k, (name_appeared_handler (client w)), (name_vanished_handler (client w));
    split; reflexivity.
Qed.

Lemma steady_call_appeared thr w :
  is_Some (name_owner (client w)) -> steady w (call_appeared_handler thr w).
Proof.
  intros _. unfold call_appeared_handler. case_bool_decide; [|apply steady_refl].
  destruct (_ && _); [|split; reflexivity].
  eapply steady_trans; [|apply steady_do_call]. split; reflexivity.
Qed.

Lemma steady_call_vanished thr w : steady w (call_vanished_handler thr w false).
Proof.
  unfold call_vanished_handler. case_bool_decide; [|apply steady_refl].
  destruct (_ && _); [|split; reflexivity].
  eapply steady_trans; [|apply steady_do_call]. split; reflexivity.
Qed.

Lemma steady_client_unref w : steady w (client_unref w).
Proof.
  unfold client_unref. cbv zeta. destruct (_ =? 0); [|split; reflexivity].
  unfold client_finalize.
  destruct (connection _), (user_data_free_func _); split; reflexivity.
Qed.

(** The steps that neither start an operation nor mark the watcher
    initialized. *)
Ltac steady_shape :=
  first [ exact steady_refl | exact steady_trans
        | exact steady_call_appeared | exact steady_call_vanished
        | solve [intros; split; reflexivity] ].

(** *** The connection and the signals *)

Lemma wired_refl w : wired w w.
Proof. repeat split. Qed.

Lemma wired_trans w1 w2 w3 : wired w1 w2 -> wired w2 w3 -> wired w1 w3.
Proof. intros (C1 & D1 & S1) (C2 & D2 & S2). repeat split; congruence. Qed.

Lemma wired_do_call thr w k : wired w (do_call thr w k).
Proof.
  unfold do_call. case_bool_decide; [repeat split|].
  unfold actually_do_call.
  destruct k, (name_appeared_handler (client w)), (name_vanished_handler (client w));
    repeat split.
Qed.

Lemma wired_call_appeared thr w :
  is_Some (name_owner (client w)) -> wired w (call_appeared_handler thr w).
Proof.
  intros _. unfold call_appeared_handler. case_bool_decide; [|apply wired_refl].
  destruct (_ && _); [|repeat split].
  eapply wired_trans; [|apply wired_do_call]. repeat split.
Qed.

Lemma wired_call_vanished thr w : wired w (call_vanished_handler thr w false).
Proof.
  unfold call_vanished_handler. case_bool_decide; [|apply wired_refl].
  destruct (_ && _); [|repeat split].
  eapply wired_trans; [|apply wired_do_call]. repeat split.
Qed.

Lemma wired_client_unref w : wired w (client_unref w).
Proof.
  unfold client_unref. cbv zeta. destruct (_ =? 0); [|repeat split].
  unfold client_finalize.
  destruct (connection _), (user_data_free_func _); repeat split.
Qed.

Ltac wired_shape :=
  first [ exact wired_refl | exact wired_trans
        | exact wired_call_appeared | exact wired_call_vanished
        | solve [intros; repeat split] ].

Lemma tied_same w w' : steady w w' -> wired w w' -> chain w' -> tied w -> tied w'.
Proof.
  intros [F _] (C & D & S) Hc (_ & Hids & Hbus). unfold tied.
  rewrite F, C, D, S. split; [exact Hc|]. split; assumption.
Qed.

(** A callback that leaves an operation other than the acquisition of the
    bus in flight, or none, and the connection and its tokens alone. *)
Lemma tied_moved w w' :
  wired w w' -> chain w' -> in_flight w' <> [CallBusGet] -> tied w -> tied w'.
Proof.
  intros (C & D & S) Hc Hne (_ & Hids & _). unfold tied.
  rewrite C, D, S. split; [exact Hc|]. split; [exact Hids|].
  intros E. contradiction.
Qed.

Section ChainFacts.
Variable G_BUS_NAME_WATCHER_FLAGS_AUTO_START : Z.
Variable g_dbus_is_name : string -> bool.

Abbreviation act :=
  (NameWatching.act G_BUS_NAME_WATCHER_FLAGS_AUTO_START g_dbus_is_name).
Abbreviation execute :=
  (NameWatching.execute G_BUS_NAME_WATCHER_FLAGS_AUTO_START g_dbus_is_name).
Abbreviation step := (NameWatching.step G_BUS_NAME_WATCHER_FLAGS_AUTO_START).
Abbreviation has_connection :=
  (NameWatching.has_connection G_BUS_NAME_WATCHER_FLAGS_AUTO_START).

Lemma chain_steady w w' : steady w w' -> chain w -> chain w'.
Proof. intros [F I] [Hone Hinit]. unfold chain. now rewrite F, I. Qed.

(** An operation started on a watcher that has none in flight. *)
Lemma chain_started w w' call :
  in_flight w = [] -> initialized (client w) = false ->
  in_flight w' = in_flight w ++ [call] ->
  initialized (client w') = initialized (client w) ->
  call <> CallBusGet ->
  chain w'.
Proof.
  intros Hnone Hinit F I Hcall. unfold chain. rewrite F, I, Hnone. cbn [app].
  split; [|intros _; exact Hinit].
  destruct call; [contradiction|tauto|tauto].
Qed.

Lemma chain_invoke_get_name_owner w :
  in_flight w = [] -> initialized (client w) = false ->
  chain (client_unref (invoke_get_name_owner w)).
Proof.
  intros Hnone Hinit. eapply chain_steady; [apply steady_client_unref|].
  now apply (chain_started w _ CallGetNameOwner).
Qed.

Lemma chain_has_connection w :
  in_flight w = [] -> initialized (client w) = false ->
  chain (client_unref (has_connection w)).
Proof.
  intros Hnone Hinit. eapply chain_steady; [apply steady_client_unref|].
  unfold NameWatching.has_connection.
  destruct (connection (client w)).
  - cbv zeta. destruct (negb _).
    + now apply (chain_started w _ CallStartServiceByName).
    + now apply (chain_started w _ CallGetNameOwner).
  - unfold chain. rewrite Hnone. split; [tauto|intros H; now contradiction H].
Qed.

(** With nothing in flight any more, whatever else the callback did. *)
Lemma chain_finished w : in_flight w = [] -> chain w.
Proof. intros H. unfold chain. rewrite H. split; [tauto|intros Hne; now contradiction Hne]. Qed.

Lemma chain_completes call w l :
  chain w -> complete call (in_flight w) = Some l ->
  in_flight w = [call] /\ l = [] /\ initialized (client w) = false.
Proof.
  intros [Hone Hinit] Hl.
  assert (Hne : in_flight w <> []) by (intros E; rewrite E in Hl; discriminate Hl).
  specialize (Hinit Hne).
  destruct Hone as [E|[E|[E|E]]]; [contradiction| | |];
    rewrite E in Hl |- *; destruct call; cbn in Hl; try discriminate Hl;
    injection Hl as <-; repeat split; assumption.
Qed.

Lemma chain_step w e : chain w -> chain (step w e).
Proof.
  intros Hc.
  destruct e as [thr res|thr res|thr res|thr sender path iface n old new|thr| |];
    cbn [NameWatching.step].
  - destruct (complete _ _) as [l|] eqn:Hl; [|exact Hc].
    destruct (chain_completes _ _ _ Hc Hl) as (_ & -> & Hinit).
    unfold NameWatching.connection_get_cb. cbv zeta.
    cbn [client on_client set_in_flight connection set_connection].
    destruct res as [conn|].
    + now apply chain_has_connection.
    + apply chain_finished.
      destruct (steady_client_unref
                  (call_vanished_handler thr
                     (on_client (set_connection None) (set_in_flight [] w)) false))
        as [-> _].
      now destruct (steady_call_vanished thr
                      (on_client (set_connection None) (set_in_flight [] w))) as [-> _].
  - destruct (complete _ _) as [l|] eqn:Hl; [|exact Hc].
    destruct (chain_completes _ _ _ Hc Hl) as (_ & -> & Hinit).
    unfold start_service_by_name_cb. cbv zeta.
    destruct res as [r|]; [destruct (r =? 1); [|destruct (r =? 2)]|];
      try (now apply chain_invoke_get_name_owner).
    apply chain_finished.
    match goal with |- in_flight (client_unref ?x) = _ =>
      destruct (steady_client_unref x) as [-> _] end.
    cbn [in_flight on_client].
    match goal with |- in_flight (call_vanished_handler ?t ?x false) = _ =>
      now destruct (steady_call_vanished t x) as [-> _] end.
  - destruct (complete _ _) as [l|] eqn:Hl; [|exact Hc].
    destruct (chain_completes _ _ _ Hc Hl) as (_ & -> & Hinit).
    apply chain_finished. unfold get_name_owner_cb. cbv zeta.
    match goal with |- in_flight (client_unref ?x) = _ =>
      destruct (steady_client_unref x) as [-> _] end.
    cbn [in_flight on_client].
    destruct res as [owner|].
    + match goal with |- in_flight ?x = _ =>
        assert (Hs : steady (set_in_flight [] w) x)
          by (apply shape_owner_then_appeared; steady_shape) end.
      now destruct Hs as [-> _].
    + now destruct (steady_call_vanished thr (set_in_flight [] w)) as [-> _].
  - destruct (_ && _); [|exact Hc].
    eapply chain_steady; [|exact Hc].
    apply shape_on_name_owner_changed; steady_shape.
  - destruct (_ && _); [|exact Hc].
    eapply chain_steady; [|exact Hc].
    apply shape_on_connection_disconnected; steady_shape.
  - unfold NameWatching.dispatch_idle.
    destruct (idle_sources w) as [|data rest]; [exact Hc|].
    eapply chain_steady; [|exact Hc]. unfold call_handler_data_free. cbv zeta.
    eapply steady_trans; [|apply steady_client_unref].
    unfold call_in_idle_cb, actually_do_call. cbn [client set_idle_sources].
    destruct (call_type data), (name_appeared_handler (client w)),
      (name_vanished_handler (client w)), (data_connection data); split; reflexivity.
  - destruct (_ || _); [exact Hc|].
    eapply chain_steady; [|exact Hc]. unfold NameWatching.unwatch_client. cbv zeta.
    eapply steady_trans; [|apply steady_client_unref]. split; reflexivity.
Qed.

Lemma chain_watched w :
  NameWatching.watched G_BUS_NAME_WATCHER_FLAGS_AUTO_START w -> chain w.
Proof.
  intros [thr next_id name flags appeared vanished user_data free_func
         |thr next_id conn name flags appeared vanished user_data free_func].
  - unfold chain. cbn. split; [tauto|reflexivity].
  - unfold watcher_on_connection. cbv zeta. unfold NameWatching.has_connection.
    cbn [client on_client connection set_connection]. cbv zeta.
    destruct (negb _).
    + unfold chain. cbn. split; [tauto|reflexivity].
    + unfold chain. cbn. split; [tauto|reflexivity].
Qed.

Lemma chain_act wd a : every chain wd -> every chain (act wd a).
Proof.
  intros Hevery. apply every_act; [exact Hevery| | |].
  - exact chain_watched.
  - intros watcher_id target w _ _ _ _ Hc.
    eapply chain_steady; [|exact Hc]. unfold NameWatching.unwatch_client. cbv zeta.
    eapply steady_trans; [|apply steady_client_unref]. split; reflexivity.
  - intros address e w _ _ _ Hc. now apply chain_step.
Qed.

(** X18.  From the initial state, whatever the entry points are called with
    and whatever events reach the clients: a client has at most one operation
    of the start-up chain in flight, the acquisition of the bus, the start of
    the service or the owner query, and as long as one is in flight the
    client is not initialized, so that NameOwnerChanged is still ignored;
    once it is initialized nothing is in flight any more. *)
Theorem startup_chain_is_sequential actions (address : nat) w :
  heap (execute initial_world actions) !! address = Some w ->
  (in_flight w = [] \/ in_flight w = [CallBusGet] \/
   in_flight w = [CallStartServiceByName] \/ in_flight w = [CallGetNameOwner]) /\
  (in_flight w <> [] -> initialized (client w) = false) /\
  (initialized (client w) = true -> in_flight w = []).
Proof.
  intros Hw.
  assert (Hall : forall actions wd, every chain wd -> every chain (execute wd actions)).
  { clear. induction actions as [|a actions IH]; intros wd He; [exact He|].
    unfold NameWatching.execute. cbn [fold_left]. apply IH. now apply chain_act. }
  assert (Hinit : every chain initial_world) by (intros a x H; discriminate H).
  destruct (Hall actions initial_world Hinit address w Hw) as [Hone Hflight].
  split; [exact Hone|]. split; [exact Hflight|].
  intros Hi. destruct (in_flight w) as [|call rest]; [reflexivity|].
  rewrite Hflight in Hi by discriminate. discriminate Hi.
Qed.

Lemma flight_get_name_owner_cb thr res w :
  in_flight (get_name_owner_cb thr res w) = in_flight w.
Proof.
  unfold get_name_owner_cb. cbv zeta.
  match goal with |- in_flight (client_unref ?x) = _ =>
    destruct (steady_client_unref x) as [-> _] end.
  cbn [in_flight on_client].
  destruct res as [owner|].
  - match goal with |- in_flight ?x = _ =>
      assert (Hs : steady w x) by (apply shape_owner_then_appeared; steady_shape) end.
    now destruct Hs as [-> _].
  - now destruct (steady_call_vanished thr w) as [-> _].
Qed.

Lemma flight_start_service_by_name_cb thr res w :
  in_flight (start_service_by_name_cb thr res w) = in_flight w \/
  in_flight (start_service_by_name_cb thr res w) = in_flight w ++ [CallGetNameOwner].
Proof.
  unfold start_service_by_name_cb. cbv zeta.
  match goal with |- in_flight (client_unref ?x) = _ \/ _ =>
    destruct (steady_client_unref x) as [-> _] end.
  destruct res as [r|]; [destruct (r =? 1); [|destruct (r =? 2)]|];
    try (right; reflexivity).
  left. cbn [in_flight on_client].
  match goal with |- in_flight (call_vanished_handler ?t ?x false) = _ =>
    now destruct (steady_call_vanished t x) as [-> _] end.
Qed.

Lemma tied_step w e : tied w -> tied (step w e).
Proof.
  intros Ht. pose proof Ht as (Hc & Hids & Hbus).
  pose proof (chain_step w e Hc) as Hc'.
  destruct e as [thr res|thr res|thr res|thr sender path iface n old new|thr| |];
    cbn [NameWatching.step] in *.
  - destruct (complete _ _) as [l|] eqn:Hl; [|exact Ht].
    destruct (chain_completes _ _ _ Hc Hl) as (Hfl & -> & Hinit).
    destruct (Hids (Hbus Hfl)) as [Hd Hs].
    unfold NameWatching.connection_get_cb in *. cbv zeta in *.
    match goal with |- tied (client_unref ?x) =>
      destruct (wired_client_unref x) as (C & D & S);
      destruct (steady_client_unref x) as [F _] end.
    unfold tied. rewrite C, D, S, F. split; [exact Hc'|].
    cbn [client on_client set_in_flight connection set_connection].
    destruct res as [conn|].
    + unfold NameWatching.has_connection.
      cbn [client on_client set_in_flight connection set_connection]. cbv zeta.
      destruct (negb _); cbn; (split; [discriminate|discriminate]).
    + destruct (wired_call_vanished thr
                  (on_client (set_connection None) (set_in_flight [] w)))
        as (C1 & D1 & S1).
      destruct (steady_call_vanished thr
                  (on_client (set_connection None) (set_in_flight [] w)))
        as [F1 _].
      rewrite C1, D1, S1, F1. cbn. split; [intros _; split; assumption|discriminate].
  - destruct (complete _ _) as [l|] eqn:Hl; [|exact Ht].
    destruct (chain_completes _ _ _ Hc Hl) as (Hfl & -> & Hinit).
    apply (tied_moved (set_in_flight [] w)).
    + destruct (shape_start_service_by_name_cb wired)
        with (thr := thr) (res := res) (w := set_in_flight [] w) as (b & Hb & ->);
        try wired_shape.
      eapply wired_trans; [exact Hb|apply wired_client_unref].
    + exact Hc'.
    + destruct (flight_start_service_by_name_cb thr res (set_in_flight [] w)) as [-> | ->];
        discriminate.
    + unfold tied. cbn [in_flight set_in_flight client].
      split; [now apply chain_finished|]. split; [exact Hids|discriminate].
  - destruct (complete _ _) as [l|] eqn:Hl; [|exact Ht].
    destruct (chain_completes _ _ _ Hc Hl) as (Hfl & -> & Hinit).
    apply (tied_moved (set_in_flight [] w)).
    + destruct (shape_get_name_owner_cb wired)
        with (thr := thr) (res := res) (w := set_in_flight [] w) as (b & Hb & ->);
        try wired_shape.
      eapply wired_trans; [exact Hb|apply wired_client_unref].
    + exact Hc'.
    + rewrite flight_get_name_owner_cb. discriminate.
    + unfold tied. cbn [in_flight set_in_flight client].
      split; [now apply chain_finished|]. split; [exact Hids|discriminate].
  - destruct (_ && _); [|exact Ht].
    apply (tied_same w); [| |exact Hc'|exact Ht].
    + apply shape_on_name_owner_changed; steady_shape.
    + apply shape_on_name_owner_changed; wired_shape.
  - destruct (_ && _); [|exact Ht].
    unfold tied. split; [exact Hc'|].
    unfold on_connection_disconnected in *. cbv zeta in *.
    match goal with |- context [call_vanished_handler ?t ?x false] =>
      destruct (wired_call_vanished t x) as (C & D & S) end.
    rewrite C, D, S. cbn. split; [intros _; split; reflexivity|reflexivity].
  - unfold NameWatching.dispatch_idle in *.
    destruct (idle_sources w) as [|data rest]; [exact Ht|].
    apply (tied_same w); [| |exact Hc'|exact Ht]; unfold call_handler_data_free; cbv zeta.
    + eapply steady_trans; [|apply steady_client_unref].
      unfold call_in_idle_cb, actually_do_call. cbn [client set_idle_sources].
      destruct (call_type data), (name_appeared_handler (client w)),
        (name_vanished_handler (client w)), (data_connection data); split; reflexivity.
    + eapply wired_trans; [|apply wired_client_unref].
      unfold call_in_idle_cb, actually_do_call. cbn [client set_idle_sources].
      destruct (call_type data), (name_appeared_handler (client w)),
        (name_vanished_handler (client w)), (data_connection data); repeat split.
  - destruct (_ || _); [exact Ht|].
    apply (tied_same w); [| |exact Hc'|exact Ht]; unfold NameWatching.unwatch_client; cbv zeta.
    + eapply steady_trans; [|apply steady_client_unref]. split; reflexivity.
    + eapply wired_trans; [|apply wired_client_unref]. repeat split.
Qed.

Lemma tied_watched w :
  NameWatching.watched G_BUS_NAME_WATCHER_FLAGS_AUTO_START w -> tied w.
Proof.
  intros Hw. pose proof (chain_watched w Hw) as Hc. revert Hc.
  destruct Hw as [thr next_id name flags appeared vanished user_data free_func
                 |thr next_id conn name flags appeared vanished user_data free_func];
    intros Hc; (split; [exact Hc|]).
  - cbn. split; [intros _; split; reflexivity|reflexivity].
  - unfold watcher_on_connection. cbv zeta. unfold NameWatching.has_connection.
    cbn [client on_client connection set_connection]. cbv zeta.
    destruct (negb _); cbn; (split; [discriminate|discriminate]).
Qed.

Lemma tied_act wd a : every tied wd -> every tied (act wd a).
Proof.
  intros Hevery. apply every_act; [exact Hevery| | |].
  - exact tied_watched.
  - intros watcher_id target w _ _ _ _ Ht.
    apply (tied_same w); [| | |exact Ht]; unfold NameWatching.unwatch_client; cbv zeta.
    + eapply steady_trans; [|apply steady_client_unref]. split; reflexivity.
    + eapply wired_trans; [|apply wired_client_unref]. repeat split.
    + eapply chain_steady; [|exact (proj1 Ht)].
      eapply steady_trans; [|apply steady_client_unref]. split; reflexivity.
  - intros address e w _ _ _ Ht. now apply tied_step.
Qed.

(** X19.  From the initial state, whatever the entry points are called with
    and whatever events reach the clients: a client without a connection
    holds neither the closed handler nor the NameOwnerChanged subscription,
    so that one of the two signal callbacks only ever runs on a client whose
    connection is set; and while the acquisition of the bus is in flight the
    client has no connection. *)
Theorem signals_find_a_connection actions (address : nat) w :
  heap (execute initial_world actions) !! address = Some w ->
  (connection (client w) = None ->
   disconnected_signal_handler_id (client w) = 0 /\
   name_owner_changed_subscription_id (client w) = 0) /\
  (forall e, is_signal e = true -> step w e <> w -> is_Some (connection (client w))) /\
  (in_flight w = [CallBusGet] -> connection (client w) = None).
Proof.
  intros Hw.
  assert (Hall : forall actions wd, every tied wd -> every tied (execute wd actions)).
  { clear. induction actions as [|a actions IH]; intros wd He; [exact He|].
    unfold NameWatching.execute. cbn [fold_left]. apply IH. now apply tied_act. }
  assert (Hinit : every tied initial_world) by (intros a x H; discriminate H).
  destruct (Hall actions initial_world Hinit address w Hw) as (_ & Hids & Hbus).
  split; [exact Hids|]. split; [|exact Hbus].
  intros e He Hran. destruct (connection (client w)) as [conn|] eqn:Hconn; [now eexists|].
  exfalso. apply Hran. destruct (Hids eq_refl) as [Hd Hs].
  destruct e; try discriminate He; cbn [NameWatching.step]; rewrite ?Hd, ?Hs;
    cbn [Z.ltb Z.compare]; now rewrite andb_false_r.
Qed.

End ChainFacts.

Lemma startup_chain_is_sequential_witness :
  (in_flight starting_watcher = [] \/ in_flight starting_watcher = [CallBusGet] \/
   in_flight starting_watcher = [CallStartServiceByName] \/
   in_flight starting_watcher = [CallGetNameOwner]) /\
  (in_flight starting_watcher <> [] -> initialized (client starting_watcher) = false) /\
  (initialized (client starting_watcher) = true -> in_flight starting_watcher = []).
Proof.
  apply (startup_chain_is_sequential AUTO_START any_name
           [Watch None 0 "n" AUTO_START (Some 1%nat) (Some 2%nat) 0 None;
            Reach 0 (BusGetFinished None (Some bus))] 0 starting_watcher).
  vm_compute. reflexivity.
Defined.

Lemma signals_find_a_connection_witness :
  (connection (client starting_watcher) = None ->
   disconnected_signal_handler_id (client starting_watcher) = 0 /\
   name_owner_changed_subscription_id (client starting_watcher) = 0) /\
  (forall e, is_signal e = true ->
             NameWatching.step AUTO_START starting_watcher e <> starting_watcher ->
             is_Some (connection (client starting_watcher))) /\
  (in_flight starting_watcher = [CallBusGet] -> connection (client starting_watcher) = None).
Proof.
  apply (signals_find_a_connection AUTO_START any_name
           [Watch None 0 "n" AUTO_START (Some 1%nat) (Some 2%nat) 0 None;
            Reach 0 (BusGetFinished None (Some bus))] 0 starting_watcher).
  vm_compute. reflexivity.
Defined.

(** In that scenario the start of the service is what is in flight. *)
Example starting_watcher_in_flight :
  in_flight starting_watcher = [CallStartServiceByName].
Proof. vm_compute. reflexivity. Qed.

(** *** A change of owner *)

Ltac decide_calls :=
  repeat (match goal with
          | |- context [bool_decide (?a <> ?a)] =>
              rewrite (bool_decide_eq_false_2 (a <> a))
                by (let Hx := fresh in intros Hx; now apply Hx)
          | |- context [bool_decide (?a = ?a)] =>
              rewrite (bool_decide_eq_true_2 (a = a)) by reflexivity
          | |- context [bool_decide (?a <> ?b)] =>
              rewrite (bool_decide_eq_true_2 (a <> b)) by discriminate
          end; cbn).

(** What [g_bus_unwatch_name] does to the client it finds. *)
Lemma unwatch_client_facts w :
  cancelled (client (unwatch_client w)) = true /\
  ref_count (client (unwatch_client w)) = ref_count (client w) - 1 /\
  (ref_count (client w) = 1 -> freed (unwatch_client w) = true) /\
  idle_sources (unwatch_client w) = idle_sources w /\
  invoked (unwatch_client w) = invoked w /\
  name_owner (client (unwatch_client w)) = name_owner (client w) /\
  previous_call (client (unwatch_client w)) = previous_call (client w).
Proof.
  unfold unwatch_client, client_unref. cbn.
  destruct (ref_count (client w) - 1 =? 0) eqn:Hz.
  - unfold client_finalize. cbn.
    destruct (connection (client w)), (user_data_free_func (client w)); cbn; repeat split.
  - apply Z.eqb_neq in Hz. repeat split. intros E. lia.
Qed.

(** The cases of a handler's invocation. *)
Lemma invoke_handler_stays unwatches call w :
  unwatches call = false -> Reentrant.invoke_handler unwatches call w = invoke call w.
Proof. intros H. unfold Reentrant.invoke_handler. now rewrite H. Qed.

Lemma invoke_handler_unwatches unwatches call w :
  unwatches call = true -> cancelled (client w) = false ->
  Reentrant.invoke_handler unwatches call w = unwatch_client (invoke call w).
Proof. intros H Hc. unfold Reentrant.invoke_handler. cbn. now rewrite H, Hc. Qed.

Lemma invoke_handler_keeps unwatches call w :
  invoked (Reentrant.invoke_handler unwatches call w) = invoked w ++ [call] /\
  name_owner (client (Reentrant.invoke_handler unwatches call w)) = name_owner (client w) /\
  previous_call (client (Reentrant.invoke_handler unwatches call w))
  = previous_call (client w).
Proof.
  unfold Reentrant.invoke_handler.
  destruct (_ && _); [|repeat split].
  destruct (unwatch_client_facts (invoke call w)) as (_ & _ & _ & _ & Hi & Ho & Hp).
  now rewrite Hi, Ho, Hp.
Qed.

#[local] Arguments Reentrant.invoke_handler : simpl never.

(** The handlers called on the watcher's own context. *)
Lemma call_vanished_handler_inline unwatches thr w h :
  thr = main_context (client w) ->
  previous_call (client w) = PREVIOUS_CALL_APPEARED ->
  cancelled (client w) = false ->
  name_vanished_handler (client w) = Some h ->
  Reentrant.call_vanished_handler unwatches thr w false
  = Reentrant.invoke_handler unwatches (vanished_call h w)
      (on_client (set_previous_call PREVIOUS_CALL_VANISHED) w).
Proof.
  intros -> Hp Hc Hh. unfold Reentrant.call_vanished_handler.
  rewrite bool_decide_eq_true_2 by (rewrite Hp; discriminate).
  cbn. rewrite Hc, Hh. cbn.
  unfold Reentrant.do_call. cbn.
  rewrite bool_decide_eq_false_2 by (intros Hx; now apply Hx).
  unfold Reentrant.actually_do_call. cbn. now rewrite Hh.
Qed.

Lemma call_appeared_handler_inline unwatches thr w h owner :
  thr = main_context (client w) ->
  previous_call (client w) = PREVIOUS_CALL_VANISHED ->
  cancelled (client w) = false ->
  name_appeared_handler (client w) = Some h ->
  name_owner (client w) = Some owner ->
  Reentrant.call_appeared_handler unwatches thr w
  = Reentrant.invoke_handler unwatches (appeared_call h owner w)
      (on_client (set_previous_call PREVIOUS_CALL_APPEARED) w).
Proof.
  intros -> Hp Hc Hh Ho. unfold Reentrant.call_appeared_handler.
  rewrite bool_decide_eq_true_2 by (rewrite Hp; discriminate).
  cbn. rewrite Hc, Hh. cbn.
  unfold Reentrant.do_call. cbn.
  rewrite bool_decide_eq_false_2 by (intros Hx; now apply Hx).
  unfold Reentrant.actually_do_call. cbn. now rewrite Hh, Ho.
Qed.

Lemma call_appeared_handler_cancelled unwatches thr w :
  previous_call (client w) = PREVIOUS_CALL_VANISHED ->
  cancelled (client w) = true ->
  Reentrant.call_appeared_handler unwatches thr w
  = on_client (set_previous_call PREVIOUS_CALL_APPEARED) w.
Proof.
  intros Hp Hc. unfold Reentrant.call_appeared_handler.
  rewrite bool_decide_eq_true_2 by (rewrite Hp; discriminate).
  cbn. now rewrite Hc.
Qed.

Lemma call_appeared_handler_again unwatches thr w :
  previous_call (client w) = PREVIOUS_CALL_APPEARED ->
  Reentrant.call_appeared_handler unwatches thr w = w.
Proof.
  intros Hp. unfold Reentrant.call_appeared_handler.
  now rewrite bool_decide_eq_false_2 by (intros Hx; now apply Hx).
Qed.

(** With handlers that make no call the callbacks are the ones above. *)
Lemma inert_actually_do_call w conn owner call_type :
  Reentrant.actually_do_call (fun _ => false) w conn owner call_type
  = actually_do_call w conn owner call_type.
Proof.
  unfold Reentrant.actually_do_call, actually_do_call, Reentrant.invoke_handler.
  destruct call_type;
    [destruct (name_appeared_handler (client w))|destruct (name_vanished_handler (client w))];
    reflexivity.
Qed.

Lemma inert_do_call thr w call_type :
  Reentrant.do_call (fun _ => false) thr w call_type = do_call thr w call_type.
Proof.
  unfold Reentrant.do_call, do_call. now rewrite inert_actually_do_call.
Qed.

Lemma inert_call_appeared_handler thr w :
  Reentrant.call_appeared_handler (fun _ => false) thr w = call_appeared_handler thr w.
Proof.
  unfold Reentrant.call_appeared_handler, call_appeared_handler.
  now rewrite inert_do_call.
Qed.

Lemma inert_call_vanished_handler thr w ignore_cancelled :
  Reentrant.call_vanished_handler (fun _ => false) thr w ignore_cancelled
  = call_vanished_handler thr w ignore_cancelled.
Proof.
  unfold Reentrant.call_vanished_handler, call_vanished_handler.
  now rewrite inert_do_call.
Qed.

Lemma inert_on_name_owner_changed thr sender path iface n old new w :
  Reentrant.on_name_owner_changed (fun _ => false) thr sender path iface n old new w
  = on_name_owner_changed thr sender path iface n old new w.
Proof.
  unfold Reentrant.on_name_owner_changed, on_name_owner_changed.
  rewrite !inert_call_vanished_handler.
  destruct (negb (initialized (client w))); [reflexivity|].
  destruct (_ || _); [reflexivity|].
  destruct (negb (String.eqb n _)); [reflexivity|].
  destruct (nonempty new); [|reflexivity].
  now rewrite !inert_call_appeared_handler.
Qed.

(** X15.  A watcher in Appeared state, on whose context the signal runs,
    receives NameOwnerChanged for its name from the bus daemon, with a new
    owner.  When the signal names an old owner and the vanished handler does
    not remove the watcher, Vanished is invoked and then Appeared with the new
    owner, both at once.  When the vanished handler calls
    [g_bus_unwatch_name] on its watcher, the client is cancelled and the
    reference of the table dropped inside the callback, the client being
    freed if that was the last one; the callback goes on, and no Appeared is
    invoked.  When the signal names no old owner, the assertion that no owner
    is known fails with a warning and no handler is invoked.  In every case
    the callback ends by storing the new owner and Appeared as the previous
    call, also in the client that was just freed. *)
Theorem owner_change_is_vanished_then_appeared
    unwatches thr w old_owner new_owner current appeared vanished w' :
  initialized (client w) = true ->
  cancelled (client w) = false ->
  name_appeared_handler (client w) = Some appeared ->
  name_vanished_handler (client w) = Some vanished ->
  previous_call (client w) = PREVIOUS_CALL_APPEARED ->
  name_owner (client w) = Some current ->
  thr = main_context (client w) ->
  new_owner <> ""%string ->
  w' = Reentrant.on_name_owner_changed unwatches thr daemon daemon_path daemon
         (name (client w)) old_owner new_owner w ->
  (old_owner <> ""%string -> unwatches (vanished_call vanished w) = false ->
   invoked w' = invoked w ++ [vanished_call vanished w;
                              appeared_call appeared new_owner w]) /\
  (old_owner <> ""%string -> unwatches (vanished_call vanished w) = true ->
   invoked w' = invoked w ++ [vanished_call vanished w] /\
   cancelled (client w') = true /\
   ref_count (client w') = ref_count (client w) - 1 /\
   (ref_count (client w) = 1 -> freed w' = true) /\
   idle_sources w' = idle_sources w) /\
  (old_owner = ""%string ->
   invoked w' = invoked w /\
   effects w' = effects w ++ [WarnIfFail "client->name_owner == NULL"]) /\
  name_owner (client w') = Some new_owner /\
  previous_call (client w') = PREVIOUS_CALL_APPEARED.
Proof.
  intros Hinit Hcan Ha Hv Hprev Howner -> Hnew ->.
  unfold Reentrant.on_name_owner_changed.
  rewrite Hinit. cbn [negb].
  replace (g_strcmp0_differs daemon_path "/org/freedesktop/DBus"
           || g_strcmp0_differs daemon "org.freedesktop.DBus"
           || g_strcmp0_differs daemon "org.freedesktop.DBus") with false by reflexivity.
  rewrite String.eqb_refl. cbn [negb]. unfold nonempty.
  apply String.eqb_neq in Hnew. rewrite Hnew. cbn [negb].
  destruct (String.eqb old_owner "") eqn:Hold; cbn [negb andb].
  - apply String.eqb_eq in Hold. subst old_owner.
    rewrite bool_decide_eq_false_2 by (rewrite Howner; discriminate).
    rewrite call_appeared_handler_again by exact Hprev.
    split; [intros Hne; now contradiction Hne|].
    split; [intros Hne; now contradiction Hne|]. repeat split. exact Hprev.
  - rewrite (bool_decide_eq_true_2 (name_owner (client w) <> None))
      by (rewrite Howner; discriminate).
    rewrite (call_vanished_handler_inline unwatches (main_context (client w))
               (on_client (set_name_owner None) w) vanished eq_refl Hprev Hcan Hv).
    change (vanished_call vanished (on_client (set_name_owner None) w))
      with (vanished_call vanished w).
    destruct (unwatches (vanished_call vanished w)) eqn:Hu.
    + rewrite invoke_handler_unwatches by assumption.
      destruct (unwatch_client_facts
                  (invoke (vanished_call vanished w)
                     (on_client (set_previous_call PREVIOUS_CALL_VANISHED)
                        (on_client (set_name_owner None) w))))
        as (Hc & Hr & Hf & Hi & Hinv & Ho & Hp).
      rewrite bool_decide_eq_true_2 by exact Ho.
      rewrite call_appeared_handler_cancelled by assumption.
      split; [intros _ E; discriminate E|].
      split; [intros _ _; repeat split; assumption|].
      split; [intros ->; discriminate Hold|]. repeat split.
    + rewrite invoke_handler_stays by assumption.
      rewrite bool_decide_eq_true_2 by reflexivity.
      rewrite (call_appeared_handler_inline unwatches (main_context (client w))
                 (on_client (set_name_owner (Some new_owner))
                    (invoke (vanished_call vanished w)
                       (on_client (set_previous_call PREVIOUS_CALL_VANISHED)
                          (on_client (set_name_owner None) w))))
                 appeared new_owner eq_refl eq_refl Hcan Ha eq_refl).
      match goal with
      | |- context [Reentrant.invoke_handler unwatches ?call ?x] =>
          destruct (invoke_handler_keeps unwatches call x) as (Hinv & Ho & Hp)
      end.
      split; [intros _ _; rewrite Hinv; cbn; now rewrite <- app_assoc|].
      split; [intros _ E; discriminate E|].
      split; [intros ->; discriminate Hold|].
      split; [now rewrite Ho|now rewrite Hp].
Qed.

(** The watcher of the scenario holds the reference of the table alone: its
    vanished handler removes it, and the client is freed inside the callback,
    which then stores the new owner in it. *)
Lemma owner_change_is_vanished_then_appeared_witness :
  exists w',
    w' = Reentrant.on_name_owner_changed vanished_unwatches None daemon daemon_path daemon
           (name (client appeared_watcher)) ":1.5" ":1.6" appeared_watcher /\
    (":1.5"%string <> ""%string ->
     vanished_unwatches (vanished_call 2%nat appeared_watcher) = false ->
     invoked w' = invoked appeared_watcher
                  ++ [vanished_call 2%nat appeared_watcher;
                      appeared_call 1%nat ":1.6" appeared_watcher]) /\
    (":1.5"%string <> ""%string ->
     vanished_unwatches (vanished_call 2%nat appeared_watcher) = true ->
     invoked w' = invoked appeared_watcher ++ [vanished_call 2%nat appeared_watcher] /\
     cancelled (client w') = true /\
     ref_count (client w') = ref_count (client appeared_watcher) - 1 /\
     (ref_count (client appeared_watcher) = 1 -> freed w' = true) /\
     idle_sources w' = idle_sources appeared_watcher) /\
    (":1.5"%string = ""%string ->
     invoked w' = invoked appeared_watcher /\
     effects w' = effects appeared_watcher ++ [WarnIfFail "client->name_owner == NULL"]) /\
    name_owner (client w') = Some ":1.6"%string /\
    previous_call (client w') = PREVIOUS_CALL_APPEARED.
Proof.
  eexists. split; [reflexivity|].
  apply (owner_change_is_vanished_then_appeared vanished_unwatches None appeared_watcher
           ":1.5" ":1.6" ":1.5" 1%nat 2%nat); try (vm_compute; reflexivity).
  discriminate.
Defined.

(** In that scenario the client is freed with the new owner stored in it, and
    Vanished is all that was invoked after the first Appeared. *)
Example removed_by_its_vanished_handler :
  let w' := Reentrant.on_name_owner_changed vanished_unwatches None daemon daemon_path daemon
              "n" ":1.5" ":1.6" appeared_watcher in
  freed w' = true /\ name_owner (client w') = Some ":1.6"%string /\
  delivered w' = [CALL_TYPE_NAME_APPEARED; CALL_TYPE_NAME_VANISHED].
Proof. vm_compute. repeat split. Qed.

(** *** Further scenarios *)

Lemma registered_clients_are_live_witness :
  exists w,
    heap (NameWatching.execute AUTO_START any_name initial_world execution_2) !! 1%nat
    = Some w /\
    cancelled (client w) = false /\
    freed w = false /\
    1 <= ref_count (client w) /\
    (forall other,
        lookup_client (NameWatching.execute AUTO_START any_name initial_world execution_2)
                      other = Some 1%nat ->
        other = 2).
Proof.
  apply (registered_clients_are_live AUTO_START any_name execution_2 2 1%nat).
  vm_compute. reflexivity.
Defined.

Lemma freed_client_has_no_holder_witness :
  cancelled (client watcher_5) = true /\
  in_flight watcher_5 = [] /\
  idle_sources watcher_5 = [] /\
  (forall watcher_id,
      lookup_client (NameWatching.execute AUTO_START any_name initial_world execution_5)
                    watcher_id <> Some 0%nat).
Proof.
  apply (freed_client_has_no_holder AUTO_START any_name execution_5 0 watcher_5).
  - vm_compute. reflexivity.
  - vm_compute. reflexivity.
Defined.

Lemma user_data_is_freed_once_witness :
  List.filter is_user_data_free (effects watcher_free)
  = if freed watcher_free
    then match user_data_free_func (client watcher_free) with
         | Some f => [UserDataFree f (user_data (client watcher_free))]
         | None => []
         end
    else [].
Proof.
  apply (user_data_is_freed_once AUTO_START any_name execution_free 0 watcher_free).
  vm_compute. reflexivity.
Defined.

(** The free function of that scenario was called once, on the user data 9. *)
Example watcher_free_effects :
  freed watcher_free = true /\
  List.filter is_user_data_free (effects watcher_free) = [UserDataFree 3%nat 9%nat].
Proof. vm_compute. split; reflexivity. Qed.

Lemma after_cancellation_only_queued_calls_witness :
  cancelled (client (NameWatching.run AUTO_START cancelled_watcher
                       [owner_changed None "n" ":1.5" ""; IdleDispatch])) = true /\
  exists (k : nat) l,
    idle_sources (NameWatching.run AUTO_START cancelled_watcher
                    [owner_changed None "n" ":1.5" ""; IdleDispatch])
    = drop k (idle_sources cancelled_watcher) /\
    invoked (NameWatching.run AUTO_START cancelled_watcher
               [owner_changed None "n" ":1.5" ""; IdleDispatch])
    = invoked cancelled_watcher ++ l /\
    sublist (map kind l) (take k (queued cancelled_watcher)).
Proof.
  apply (after_cancellation_only_queued_calls AUTO_START cancelled_watcher
           [owner_changed None "n" ":1.5" ""; IdleDispatch]).
  vm_compute. reflexivity.
Defined.

(** In that scenario the Appeared queued before the cancellation is still
    delivered, and the loss of the owner signalled afterwards is not. *)
Example cancelled_watcher_delivered :
  queued cancelled_watcher = [CALL_TYPE_NAME_APPEARED] /\
  delivered (NameWatching.run AUTO_START cancelled_watcher
               [owner_changed None "n" ":1.5" ""; IdleDispatch])
  = [CALL_TYPE_NAME_APPEARED].
Proof. vm_compute. split; reflexivity. Qed.

Lemma handlers_get_what_was_registered_witness :
  same_registration (watcher_of (Some 1%nat) (Some 2%nat)) watcher_5 /\
  Forall (well_formed_call (client (watcher_of (Some 1%nat) (Some 2%nat))))
         (invoked watcher_5) /\
  Forall well_formed_source (idle_sources watcher_5).
Proof.
  apply (handlers_get_what_was_registered AUTO_START (watcher_of (Some 1%nat) (Some 2%nat))
           scenario_5).
  unfold watcher_of. constructor.
Defined.

Lemma own_context_callbacks_alternate_witness :
  alternates (delivered watcher_5) /\ queued watcher_5 = [].
Proof.
  apply (own_context_callbacks_alternate AUTO_START (watcher_of (Some 1%nat) (Some 2%nat))
           scenario_5).
  - unfold watcher_of. constructor.
  - split; eexists; vm_compute; reflexivity.
  - repeat constructor.
Defined.

Lemma watch_ids_count_up_witness :
  fst (g_bus_watch_name any_name None 0 "m" 0 (Some 1%nat) None 0 None
         (NameWatching.execute AUTO_START any_name initial_world execution_2))
  = (1 + Z.of_nat (registrations any_name execution_2)) `mod` 2 ^ 32 /\
  (Z.of_nat (registrations any_name execution_2) < 2 ^ 32 - 1 ->
   fst (g_bus_watch_name any_name None 0 "m" 0 (Some 1%nat) None 0 None
          (NameWatching.execute AUTO_START any_name initial_world execution_2))
   = 1 + Z.of_nat (registrations any_name execution_2)) /\
  lookup_client
    (snd (g_bus_watch_name any_name None 0 "m" 0 (Some 1%nat) None 0 None
            (NameWatching.execute AUTO_START any_name initial_world execution_2)))
    (fst (g_bus_watch_name any_name None 0 "m" 0 (Some 1%nat) None 0 None
            (NameWatching.execute AUTO_START any_name initial_world execution_2)))
  = Some (registrations any_name execution_2) /\
  heap (snd (g_bus_watch_name any_name None 0 "m" 0 (Some 1%nat) None 0 None
               (NameWatching.execute AUTO_START any_name initial_world execution_2)))
    !! registrations any_name execution_2
  = Some (watcher_on_bus None
            ((1 + Z.of_nat (registrations any_name execution_2)) `mod` 2 ^ 32)
            "m" 0 (Some 1%nat) None 0%nat None).
Proof.
  apply (watch_ids_count_up AUTO_START any_name execution_2 None 0 "m" 0 (Some 1%nat) None
           0%nat None).
  reflexivity.
Defined.

Lemma watch_then_unwatch_witness :
  fst (g_bus_watch_name any_name None 0 "m" 0 (Some 1%nat) None 0 None one_watcher)
  = next_global_id one_watcher /\
  lookup_client
    (g_bus_unwatch_name (next_global_id one_watcher)
       (snd (g_bus_watch_name any_name None 0 "m" 0 (Some 1%nat) None 0 None one_watcher)))
    (next_global_id one_watcher) = None /\
  (forall other,
      other <> next_global_id one_watcher ->
      lookup_client
        (g_bus_unwatch_name (next_global_id one_watcher)
           (snd (g_bus_watch_name any_name None 0 "m" 0 (Some 1%nat) None 0 None
                   one_watcher)))
        other = lookup_client one_watcher other) /\
  log (g_bus_unwatch_name (next_global_id one_watcher)
         (snd (g_bus_watch_name any_name None 0 "m" 0 (Some 1%nat) None 0 None
                 one_watcher))) = log one_watcher /\
  exists w,
    heap (g_bus_unwatch_name (next_global_id one_watcher)
            (snd (g_bus_watch_name any_name None 0 "m" 0 (Some 1%nat) None 0 None
                    one_watcher))) = heap one_watcher ++ [w] /\
    cancelled (client w) = true /\ freed w = false /\
    ref_count (client w) = 1 /\ in_flight w = [CallBusGet] /\
    invoked w = [] /\ idle_sources w = [].
Proof.
  apply (watch_then_unwatch any_name None 0 "m" 0 (Some 1%nat) None 0%nat None one_watcher).
  - reflexivity.
  - vm_compute. reflexivity.
Defined.

End NameWatchingFacts.
